(** * artifact-sync: impact classification and patch application

    A shallow embedding of the Python sources under
    [vscode-extension/python]:

    - [utils/helpers.py]      : [normalize_path], [safe_join_path],
                                [resolve_repo_path];
    - [analysis/refinement.py]: [process_refinement_batch];
    - [main.py]               : the refinement loop and the final
                                deduplication of [run_analysis];
    - [analysis/fixes.py]     : [_extract_diff_content],
                                [_apply_unified_diff], [generate_fix].

    Python [str] values are modelled as [string]; a character is a code
    point in the range 0..255 (an [ascii]).  The line separators U+2028 and
    U+2029 and the Unicode digits and blanks above U+00FF are therefore
    outside the model.  Paths follow the POSIX flavour of [os.path]
    ([os.sep = "/"]). *)

From Stdlib Require Import ZArith QArith Ascii DecimalString.
From stdpp Require Import base list gmap strings.

(* ===================================================================== *)
(** ** Python string primitives                                           *)
(* ===================================================================== *)

Module PyStr.

Definition LF : ascii := "010"%char.
Definition CR : ascii := "013"%char.

Definition is_empty (s : string) : bool :=
  match s with EmptyString => true | String _ _ => false end.

(** [s.startswith(p)] *)
Definition startswith (s p : string) : bool := String.prefix p s.

(** [needle in hay] for two strings. *)
Fixpoint contains (hay needle : string) : bool :=
  String.prefix needle hay
  || match hay with
     | EmptyString => false
     | String _ t => contains t needle
     end.

(** [c.isspace()] on the code points below 256:
    TAB..CR, FS..US, SPACE, NEL and NBSP. *)
Definition isspace (c : ascii) : bool :=
  let n := nat_of_ascii c in
  ((9 <=? n)%nat && (n <=? 13)%nat) || ((28 <=? n)%nat && (n <=? 32)%nat)
  || (n =? 133)%nat || (n =? 160)%nat.

Fixpoint lstrip_by (f : ascii -> bool) (s : string) : string :=
  match s with
  | EmptyString => EmptyString
  | String c t => if f c then lstrip_by f t else s
  end.

Fixpoint rstrip_by (f : ascii -> bool) (s : string) : string :=
  match s with
  | EmptyString => EmptyString
  | String c t =>
      let t' := rstrip_by f t in
      if is_empty t' && f c then EmptyString else String c t'
  end.

(** [s.strip()] *)
Definition strip (s : string) : string := rstrip_by isspace (lstrip_by isspace s).

Definition mem_chars (chars : string) (c : ascii) : bool :=
  existsb (Ascii.eqb c) (String.list_ascii_of_string chars).

(** [s.lstrip(chars)], [s.rstrip(chars)] *)
Definition lstrip_chars (chars s : string) : string := lstrip_by (mem_chars chars) s.
Definition rstrip_chars (chars s : string) : string := rstrip_by (mem_chars chars) s.

(** The one-character line boundaries of [str.splitlines] other than CR:
    LF, VT, FF, FS, GS, RS and NEL. *)
Definition is_linebreak (c : ascii) : bool :=
  let n := nat_of_ascii c in
  (n =? 10)%nat || (n =? 11)%nat || (n =? 12)%nat || (n =? 28)%nat
  || (n =? 29)%nat || (n =? 30)%nat || (n =? 133)%nat.

(** [splitlines_from keepends s cur]: the lines of [cur ++ s], where [cur]
    is the part of the current line already read. *)
Fixpoint splitlines_from (keepends : bool) (s cur : string) : list string :=
  match s with
  | EmptyString => if is_empty cur then [] else [cur]
  | String c t =>
      if Ascii.eqb c CR then
        match t with
        | String c2 t2 =>
            if Ascii.eqb c2 LF then
              (if keepends then cur +:+ String c (String c2 EmptyString) else cur)
                :: splitlines_from keepends t2 EmptyString
            else
              (if keepends then cur +:+ String c EmptyString else cur)
                :: splitlines_from keepends t EmptyString
        | EmptyString =>
            (if keepends then cur +:+ String c EmptyString else cur)
              :: splitlines_from keepends t EmptyString
        end
      else if is_linebreak c then
        (if keepends then cur +:+ String c EmptyString else cur)
          :: splitlines_from keepends t EmptyString
      else splitlines_from keepends t (cur +:+ String c EmptyString)
  end.

(** [s.splitlines()] and [s.splitlines(keepends=True)] *)
Definition splitlines (s : string) : list string :=
  splitlines_from false s EmptyString.
Definition splitlines_keepends (s : string) : list string :=
  splitlines_from true s EmptyString.

(** [sep.join(l)] *)
Definition join (sep : string) (l : list string) : string := String.concat sep l.

(** [s.split(sep)] for a one-character separator. *)
Fixpoint split_on (sep : ascii) (s : string) : list string :=
  match s with
  | EmptyString => [EmptyString]
  | String c t =>
      if Ascii.eqb c sep then EmptyString :: split_on sep t
      else match split_on sep t with
           | h :: r => String c h :: r
           | [] => [String c EmptyString]
           end
  end.

Definition isdigit (c : ascii) : bool :=
  let n := nat_of_ascii c in (48 <=? n)%nat && (n <=? 57)%nat.

End PyStr.

(** Exceptions, by class and message, and results of fallible code. *)
Inductive exn : Type :=
| ValueError (msg : string)
| FileNotFoundError (msg : string)
| RuntimeError (msg : string).

Inductive result (A : Type) : Type :=
| Ok (a : A)
| Raise (e : exn).
Arguments Ok {A} a.
Arguments Raise {A} e.

(** [str(e)] *)
Definition exn_message (e : exn) : string :=
  match e with
  | ValueError m | FileNotFoundError m | RuntimeError m => m
  end.

Definition bind {A B : Type} (m : result A) (k : A -> result B) : result B :=
  match m with
  | Ok a => k a
  | Raise e => Raise e
  end.

(** [l[lo:hi]] for [0 <= lo], [0 <= hi] (Python clamps both ends). *)
Definition slice {A : Type} (lo hi : nat) (l : list A) : list A :=
  drop lo (take hi l).

Definition is_nil {A : Type} (l : list A) : bool :=
  match l with [] => true | _ :: _ => false end.

Definition NL : string := String PyStr.LF EmptyString.

(* ===================================================================== *)
(** ** utils/helpers.py: paths                                            *)
(* ===================================================================== *)

Module Helpers.
Import PyStr.

Definition sep : ascii := "/"%char.
Definition sep_str : string := "/".

(** [os.path.normpath] (POSIX). *)
Definition normpath_step (initial_slashes : nat) (new_comps : list string)
  (comp : string) : list string :=
  if bool_decide (comp = EmptyString) || bool_decide (comp = ".") then new_comps
  else if negb (bool_decide (comp = ".."))
          || (bool_decide (initial_slashes = 0) && is_nil new_comps)
          || (negb (is_nil new_comps) && bool_decide (last new_comps = Some ".."))
  then new_comps ++ [comp]
  else removelast new_comps.

Definition normpath (path : string) : string :=
  if is_empty path then "."
  else
    let initial_slashes :=
      if startswith path "/" then
        if startswith path "//" && negb (startswith path "///") then 2 else 1
      else 0 in
    let comps := foldl (normpath_step initial_slashes) [] (split_on sep path) in
    let path' := join EmptyString (replicate initial_slashes sep_str) +:+ join sep_str comps in
    if is_empty path' then "." else path'.

(** [os.path.join(a, b)] (POSIX). *)
Definition path_join (a b : string) : string :=
  if startswith b sep_str then b
  else if is_empty a || bool_decide (last (String.list_ascii_of_string a) = Some sep)
  then a +:+ b
  else a +:+ sep_str +:+ b.

(** [os.path.basename(p)]: what follows the last separator. *)
Definition basename (p : string) : string :=
  default EmptyString (last (split_on sep p)).

Definition normalize_path (path : string) : string := normpath path.

Definition safe_join_path (base path : string) : string :=
  normalize_path (path_join base path).

(** What [resolve_repo_path] asks of its surroundings: the file system
    ([os.path.exists], [Path(root).rglob(name)] with [None] for an
    [OSError], [os.path.relpath] with [None] for a [ValueError]) and
    [difflib.SequenceMatcher(None, a, b).ratio()], a fraction. *)
Record FileSystem : Type := mkFS {
  path_exists : string -> bool;
  rglob : string -> string -> option (list string);
  relpath : string -> string -> option string;
  ratio : string -> string -> Q
}.

(** The loop that drops a segment equal to the one before it. *)
Definition dedup_step (dedup_segments : list string) (seg : string) : list string :=
  if negb (is_nil dedup_segments) && bool_decide (last dedup_segments = Some seg)
  then dedup_segments
  else dedup_segments ++ [seg].

(** The loop over the matches of the basename search. *)
Definition best_step (fs : FileSystem) (root_norm normalized : string)
  (best : string * Q) (m : string) : string * Q :=
  match relpath fs m root_norm with
  | None => best
  | Some r =>
      let rel := normalize_path r in
      let score := ratio fs normalized rel in
      if negb (Qle_bool score (snd best)) then (rel, score) else best
  end.

(** [resolve_repo_path] is memoized ([lru_cache]); the file system is taken
    as it is at the first call, so the cache does not show. *)
Definition resolve_repo_path (fs : FileSystem) (root_path candidate_path : string)
  : string :=
  let root_norm := normalize_path root_path in
  let normalized := normalize_path candidate_path in
  if path_exists fs (safe_join_path root_norm normalized) then normalized
  else
    let trimmed := lstrip_chars "./" normalized in
    if path_exists fs (safe_join_path root_norm trimmed) then trimmed
    else
      let segments :=
        filter (fun seg => seg ≠ EmptyString ∧ seg ≠ ".") (split_on sep normalized) in
      let dedup_segments := foldl dedup_step [] segments in
      let dedup_path := join sep_str dedup_segments in
      let trimmed_dedup := lstrip_chars "./" dedup_path in
      if negb (is_nil segments) && negb (bool_decide (dedup_segments = segments))
         && path_exists fs (safe_join_path root_norm dedup_path)
      then dedup_path
      else if negb (is_nil segments) && negb (bool_decide (dedup_segments = segments))
              && path_exists fs (safe_join_path root_norm trimmed_dedup)
      then trimmed_dedup
      else
        let basename := basename normalized in
        if is_empty basename then normalized
        else
          let matches := default [] (rglob fs root_norm basename) in
          if is_nil matches then normalized
          else fst (foldl (best_step fs root_norm normalized)
                          (normalized, (-1)%Q) matches).

End Helpers.

(* ===================================================================== *)
(** ** analysis/fixes.py: reading and applying a unified diff             *)
(* ===================================================================== *)

Module Diff.
Import PyStr.

Definition fence : string := "```".

(** The search of [_extract_diff_content] for the closing fence:
    [for idx, line in enumerate(lines[1:], start=1)]. *)
Fixpoint find_closing (lines : list string) (idx : nat) : option nat :=
  match lines with
  | [] => None
  | line :: rest =>
      if startswith (strip line) fence then Some idx
      else find_closing rest (S idx)
  end.

Definition strip_fence (text : string) : string :=
  if startswith text fence then
    let lines := splitlines text in
    match find_closing (drop 1 lines) 1 with
    | Some closing_index => join NL (slice 1 closing_index lines)
    | None => join NL (drop 1 lines)
    end
  else text.

(** One turn of the [cleaned_lines] loop. *)
Definition clean_step (cleaned_lines : list string) (line : string) : list string :=
  let stripped := strip line in
  if is_empty stripped && negb (is_nil cleaned_lines)
     && bool_decide (last cleaned_lines = Some EmptyString)
  then cleaned_lines
  else if startswith stripped "diff --git" || startswith stripped "index "
  then cleaned_lines
  else cleaned_lines ++ [line].

(** The text that [_extract_diff_content] checks and returns, for a
    [raw_output] that is not blank. *)
Definition normalize_diff (text : string) : string :=
  strip (join NL (foldl clean_step [] (splitlines (strip_fence text)))).

Definition missing_headers : exn :=
  ValueError "Generated diff is missing required headers".

Definition _extract_diff_content (raw_output : string) : result string :=
  let text := strip raw_output in
  if is_empty text then Ok EmptyString
  else
    let normalized := normalize_diff text in
    if negb (is_empty normalized)
       && (negb (contains normalized "---") || negb (contains normalized "+++"))
    then Raise missing_headers
    else Ok normalized.

(** *** The hunk header [@@ -(\d+)(?:,\d+)? \+(\d+)(?:,\d+)? @@] *)

(** [eat p s]: what follows [p] in [s], when [s] starts with [p]. *)
Fixpoint eat (p s : string) : option string :=
  match p with
  | EmptyString => Some s
  | String a p' =>
      match s with
      | String b s' => if Ascii.eqb a b then eat p' s' else None
      | EmptyString => None
      end
  end.

(** The longest run of digits at the head of [s], and the rest. *)
Fixpoint span_digits (s : string) : string * string :=
  match s with
  | String c t =>
      if isdigit c then let '(d, r) := span_digits t in (String c d, r)
      else (EmptyString, s)
  | EmptyString => (EmptyString, EmptyString)
  end.

(** [\d+] *)
Definition digits1 (s : string) : option (string * string) :=
  let '(d, r) := span_digits s in
  if is_empty d then None else Some (d, r).

(** [(?:,\d+)?] *)
Definition opt_count (s : string) : string :=
  match eat "," s with
  | Some r => match digits1 r with Some (_, r') => r' | None => s end
  | None => s
  end.

(** [int(d)] for a string of digits. *)
Definition int_of_digits (d : string) : nat :=
  foldl (fun acc c => 10 * acc + (nat_of_ascii c - 48)) 0
        (String.list_ascii_of_string d).

(** [re.match(...)] on a line, then [int(match.group(1))]. *)
Definition hunk_header_start (line : string) : option nat :=
  r1 ← eat "@@ -" line;
  '(d, r2) ← digits1 r1;
  r4 ← eat " +" (opt_count r2);
  '(_, r5) ← digits1 r4;
  _ ← eat " @@" (opt_count r5);
  Some (int_of_digits d).

(** *** The patching loop *)

Record PatchState : Type := mkPatch {
  patched_lines : list string;
  orig_index : nat
}.

Definition hunk_overlap : exn :=
  ValueError "Diff hunk overlaps with previous content".
Definition context_overrun : exn :=
  ValueError "Context line exceeds original file length".
Definition unrecognized (hunk_line : string) : exn :=
  ValueError ("Unrecognized diff line: " +:+ hunk_line).
Definition no_hunks : exn :=
  ValueError "Diff output does not contain any hunks".

Definition no_newline_marker : string := "\ No newline at end of file".

(** [patched_lines[-1] = patched_lines[-1].rstrip('\n')], under
    [if patched_lines]. *)
Definition trim_last (l : list string) : list string :=
  match last l with
  | Some x => removelast l ++ [rstrip_chars NL x]
  | None => l
  end.

(** A line that starts with [@@]: the regular expression is tried, and a
    header it matches moves the cursor. *)
Definition hunk_header (original_lines : list string) (line : string)
  (st : PatchState) : result PatchState :=
  match hunk_header_start line with
  | Some start_line =>
      let hunk_start := Nat.max start_line 1 - 1 in
      if (hunk_start <? orig_index st)%nat then Raise hunk_overlap
      else Ok (mkPatch
                 (patched_lines st ++ slice (orig_index st) hunk_start original_lines)
                 hunk_start)
  | None => Ok st
  end.

(** A line of the inner loop that does not start with [@@]. *)
Definition hunk_body_line (original_lines : list string) (hunk_line : string)
  (st : PatchState) : result PatchState :=
  if startswith hunk_line "---" || startswith hunk_line "+++" then Ok st
  else if startswith hunk_line no_newline_marker then
    Ok (mkPatch (trim_last (patched_lines st)) (orig_index st))
  else if startswith hunk_line " " then
    match original_lines !! orig_index st with
    | None => Raise context_overrun
    | Some l => Ok (mkPatch (patched_lines st ++ [l]) (S (orig_index st)))
    end
  else if startswith hunk_line "-" then
    Ok (mkPatch (patched_lines st) (S (orig_index st)))
  else if startswith hunk_line "+" then
    Ok (mkPatch (patched_lines st ++ [String.substring 1 (String.length hunk_line - 1) hunk_line +:+ NL])
                (orig_index st))
  else if is_empty (strip hunk_line) then
    Ok (mkPatch (patched_lines st ++ [NL]) (orig_index st))
  else Raise (unrecognized hunk_line).

(** The inner [while] of a hunk, from the line after the header.  A line
    that starts with [@@] ends it ([break]) and is left to the outer loop;
    so is the end of the diff. *)
Definition inner_while (original_lines : list string)
  (outer : list string -> PatchState -> result PatchState)
  : list string -> PatchState -> result PatchState :=
  fix inner (diff_lines : list string) (st : PatchState) {struct diff_lines} :=
    match diff_lines with
    | [] => outer diff_lines st
    | hunk_line :: rest =>
        if startswith hunk_line "@@" then outer diff_lines st
        else bind (hunk_body_line original_lines hunk_line st) (inner rest)
    end.

(** The outer [while i < len(diff_lines)], on the lines from [i] on. *)
Fixpoint outer_while (original_lines diff_lines : list string) (st : PatchState)
  {struct diff_lines} : result PatchState :=
  match diff_lines with
  | [] => Ok st
  | line :: rest =>
      if startswith line "---" || startswith line "+++" then
        outer_while original_lines rest st
      else if startswith line "@@" then
        bind (hunk_header original_lines line st)
             (inner_while original_lines (outer_while original_lines) rest)
      else outer_while original_lines rest st
  end.

Definition initial : PatchState := mkPatch [] 0.

Definition _apply_unified_diff (original_content diff_text : string) : result string :=
  if is_empty diff_text then Ok original_content
  else
    let diff_lines := splitlines diff_text in
    if negb (existsb (fun line => startswith line "@@") diff_lines) then
      if contains diff_text "---" && contains diff_text "+++" then Ok original_content
      else Raise no_hunks
    else
      let original_lines := splitlines_keepends original_content in
      bind (outer_while original_lines diff_lines initial)
           (fun st =>
              Ok (join EmptyString
                    (patched_lines st ++ drop (orig_index st) original_lines))).

(** *** The two loops, one line at a time

    Where the control is when a line is read: in the outer loop before the
    first hunk header, or in the inner loop of a hunk.  The inner loop
    leaves a line that starts with [@@] to the outer loop, which reads it as
    the next header and enters the inner loop again: after the first header
    every line is read by the inner loop or as a header.  [run_lines] gives
    the state the loops are in after the lines [diff_lines]
    ([outer_while_run_lines] below). *)
Inductive Mode : Type := Outside | InHunk.

Definition step (original_lines : list string) (mode : Mode) (line : string)
  (st : PatchState) : result (Mode * PatchState) :=
  if startswith line "@@" then
    bind (hunk_header original_lines line st) (fun st' => Ok (InHunk, st'))
  else
    match mode with
    | Outside => Ok (Outside, st)
    | InHunk =>
        bind (hunk_body_line original_lines line st) (fun st' => Ok (InHunk, st'))
    end.

Fixpoint run_lines (original_lines : list string) (mode : Mode)
  (diff_lines : list string) (st : PatchState) : result (Mode * PatchState) :=
  match diff_lines with
  | [] => Ok (mode, st)
  | line :: rest =>
      bind (step original_lines mode line st)
           (fun '(mode', st') => run_lines original_lines mode' rest st')
  end.

Definition state_of (r : result (Mode * PatchState)) : result PatchState :=
  bind r (fun '(_, st) => Ok st).

End Diff.

(* ===================================================================== *)
(** ** core/schemas.py                                                    *)
(* ===================================================================== *)

Module UnsureEntry.
Record t : Type := mk {
  path : string;
  is_dir : bool;
  reason : string;
  needed_info : string
}.
(** [entry.path = resolved_path]: the assignment of [refine_entry_async]
    on the entry object it was handed. *)
Definition set_path (p : string) (e : t) : t :=
  mk p (is_dir e) (reason e) (needed_info e).
End UnsureEntry.

Module RefinementDecision.
Record t : Type := mk {
  path : string;
  related : bool;
  confidence : string;
  reasoning : string
}.
End RefinementDecision.

Module RefineStats.
Record t : Type := mk {
  path : string;
  decision : string;
  confidence : string;
  reasoning : string
}.
End RefineStats.

(* ===================================================================== *)
(** ** analysis/refinement.py and the refinement loop of main.py          *)
(* ===================================================================== *)

Module Analysis.
Import PyStr.

(** What a round awaits.  A task either raises ([None]) or returns a value
    of the type its signature declares; the answers may differ from round
    to round and from place to place in the batch, so each is asked with the
    round number and the position.
    - [resolve]: [resolve_repo_path(root_path, .)];
    - [is_folder_at_max_depth]: [is_folder_at_max_depth(., root_path, max_depth)];
    - [refine_entry_async]: the verdict of the refinement task;
    - [analyze_subfolder_async]: the folder tasks of the batch;
    - [analyze_discovered]: the folder tasks started after the batch. *)
Record Environment : Type := mkEnv {
  resolve : string -> string;
  is_folder_at_max_depth : string -> bool;
  refine_entry_async : nat -> nat -> UnsureEntry.t -> option RefinementDecision.t;
  analyze_subfolder_async : nat -> nat -> string -> option (list string * list UnsureEntry.t);
  analyze_discovered : nat -> nat -> string -> option (list string * list UnsureEntry.t)
}.

(** A task of the batch with what [asyncio.gather] returned for it.  The
    entry of a file task is the object the task held: [refine_entry_async]
    has stored the resolved path in it. *)
Inductive Outcome : Type :=
| FolderOutcome (folder_path : string)
                (result : option (list string * list UnsureEntry.t))
| FileOutcome (entry : UnsureEntry.t) (result : option RefinementDecision.t).

Definition run_task (env : Environment) (iteration idx : nat)
  (entry : UnsureEntry.t) : Outcome :=
  if UnsureEntry.is_dir entry && is_folder_at_max_depth env (UnsureEntry.path entry)
  then FolderOutcome (UnsureEntry.path entry)
         (analyze_subfolder_async env iteration idx (UnsureEntry.path entry))
  else
    let entry' := UnsureEntry.set_path (resolve env (UnsureEntry.path entry)) entry in
    FileOutcome entry' (refine_entry_async env iteration idx entry').

Record Batch : Type := mkBatch {
  final_sure : list string;
  remaining_unsure : list UnsureEntry.t;
  folders_to_analyze : list string;
  refinement_stats : list RefineStats.t
}.

(** One turn of the loop over [zip(tasks, results)]. *)
Definition process_result (acc : Batch) (o : Outcome) : Batch :=
  match o with
  | FolderOutcome _ None => acc
  | FileOutcome item None =>
      mkBatch (final_sure acc) (remaining_unsure acc ++ [item])
              (folders_to_analyze acc) (refinement_stats acc)
  | FolderOutcome _ (Some (sure_files, unsure_entries)) =>
      mkBatch (final_sure acc ++ sure_files) (remaining_unsure acc ++ unsure_entries)
              (folders_to_analyze acc) (refinement_stats acc)
  | FileOutcome entry (Some decision) =>
      let stats :=
        RefineStats.mk (UnsureEntry.path entry)
          (if RefinementDecision.related decision then "related" else "not_related")
          (RefinementDecision.confidence decision)
          (RefinementDecision.reasoning decision) in
      if contains (RefinementDecision.reasoning decision) "Directory detected" then
        mkBatch (final_sure acc) (remaining_unsure acc)
                (folders_to_analyze acc ++ [UnsureEntry.path entry])
                (refinement_stats acc ++ [stats])
      else if RefinementDecision.related decision then
        mkBatch (final_sure acc ++ [UnsureEntry.path entry]) (remaining_unsure acc)
                (folders_to_analyze acc) (refinement_stats acc ++ [stats])
      else
        mkBatch (final_sure acc) (remaining_unsure acc)
                (folders_to_analyze acc) (refinement_stats acc ++ [stats])
  end.

Definition process_refinement_batch (env : Environment) (iteration : nat)
  (entries : list UnsureEntry.t) : Batch :=
  foldl process_result (mkBatch [] [] [] [])
        (imap (run_task env iteration) entries).

(** The state of [run_analysis] around its [while] loop. *)
Record LoopState : Type := mkLoop {
  loop_sure : list string;
  loop_unsure : list UnsureEntry.t;
  loop_stats : list RefineStats.t;
  iteration : nat
}.

(** The turn of [for folder_path, result in zip(folders_to_analyze,
    folder_results)], on the pair of lists it extends. *)
Definition merge_folder (acc : list string * list UnsureEntry.t)
  (result : option (list string * list UnsureEntry.t))
  : list string * list UnsureEntry.t :=
  match result with
  | None => acc
  | Some (sure_files, unsure_entries) =>
      (fst acc ++ sure_files, snd acc ++ unsure_entries)
  end.

(** The escalation policy for one entry: [Some] the entry queued for the
    next round, [None] when the entry is pruned. *)
Definition escalate (env : Environment) (max_iterations iteration : nat)
  (entry : UnsureEntry.t) : option UnsureEntry.t :=
  if (iteration <? max_iterations)%nat then
    if bool_decide (UnsureEntry.needed_info entry = "file_overview")
       || bool_decide (UnsureEntry.needed_info entry = "file_metadata")
    then Some (UnsureEntry.mk (UnsureEntry.path entry) (UnsureEntry.is_dir entry)
                 ("Escalated from overview: " +:+ UnsureEntry.reason entry)
                 "raw_content")
    else if bool_decide (UnsureEntry.needed_info entry = "raw_content") then None
    else if UnsureEntry.is_dir entry then
      if negb (is_folder_at_max_depth env (UnsureEntry.path entry)) then Some entry
      else None
    else None
  else None.

(** The body of the [while] loop, run with the incremented [iteration]. *)
Definition round (env : Environment) (max_iterations : nat) (st : LoopState)
  : LoopState :=
  let iteration := S (iteration st) in
  let batch := process_refinement_batch env iteration (loop_unsure st) in
  let folder_results :=
    imap (analyze_discovered env iteration) (folders_to_analyze batch) in
  let '(sure, unsure) :=
    foldl merge_folder
          (loop_sure st ++ final_sure batch, remaining_unsure batch)
          folder_results in
  let escalated_entries := omap (escalate env max_iterations iteration) unsure in
  mkLoop sure escalated_entries (loop_stats st ++ refinement_stats batch) iteration.

(** The test of [while remaining_unsure and iteration < max_iterations]. *)
Definition loop_test (max_iterations : nat) (st : LoopState) : bool :=
  negb (is_nil (loop_unsure st)) && (iteration st <? max_iterations)%nat.

(** The [while] loop, unfolded at most [fuel] times.  A round adds one to
    [iteration], so [max_iterations] turns are enough for the test to fail
    ([loop_from_exit] below): the loop is run with that many. *)
Fixpoint loop_from (env : Environment) (max_iterations fuel : nat)
  (st : LoopState) : LoopState :=
  match fuel with
  | 0 => st
  | S k =>
      if loop_test max_iterations st
      then loop_from env max_iterations k (round env max_iterations st)
      else st
  end.

Definition max_iterations : nat := 3.

Definition refinement_loop (env : Environment) (sure : list string)
  (unsure : list UnsureEntry.t) (stats : list RefineStats.t) : LoopState :=
  loop_from env max_iterations max_iterations (mkLoop sure unsure stats 0).

(** The deduplication that follows the loop:
    [seen_paths] is a set, [normalized_final] a list. *)
Definition dedup_step (resolver : string -> string)
  (acc : list string * gset string) (path : string) : list string * gset string :=
  let normalized := Helpers.normalize_path (resolver path) in
  if bool_decide (normalized ∈ snd acc) then acc
  else (fst acc ++ [normalized], {[normalized]} ∪ snd acc).

Definition dedup_final (resolver : string -> string) (final_sure : list string)
  : list string :=
  fst (foldl (dedup_step resolver) ([], ∅) final_sure).

(** The key a path is stored under, and what the loop keeps true of its
    list and its set: they hold the same paths, and the list holds each
    once. *)
Definition dedup_key (resolver : string -> string) (path : string) : string :=
  Helpers.normalize_path (resolver path).

Definition dedup_inv (acc : list string * gset string) : Prop :=
  NoDup (fst acc) /\ forall x, x ∈ snd acc <-> x ∈ fst acc.

End Analysis.

(* ===================================================================== *)
(** ** analysis/fixes.py: generate_fix                                    *)
(* ===================================================================== *)

Module DetailedImpactReport.
Record ImpactAnalysis : Type := mkAnalysis {
  impact : string;
  impact_description : string
}.
Record UpdateAssessment : Type := mkDiagnosis {
  needs_update : bool;
  update_rationale : string
}.
Record FixRecommendation : Type := mkRecommendation {
  recommended_actions : list string
}.
Record t : Type := mk {
  path : string;
  related : bool;
  confidence : string;
  analysis : ImpactAnalysis;
  diagnosis : UpdateAssessment;
  recommendations : FixRecommendation
}.
(** The report rebuilt from [impact_report.model_dump()] with its [path]
    key set to the resolved path. *)
Definition with_path (p : string) (r : t) : t :=
  mk p (related r) (confidence r) (analysis r) (diagnosis r) (recommendations r).
End DetailedImpactReport.

Module Fixes.
Import PyStr.

Inductive OutputStyle : Type := full_file | diff.

Definition Usage : Type := list (string * Z).

Record ChatResponse : Type := mkResponse {
  content : string;
  usage : option Usage
}.

(** What [generate_fix] returns: the content alone, or a tuple with the
    usage, and in diff mode with the diff as well. *)
Inductive FixResult : Type :=
| Content (fixed_content : string)
| WithUsage (fixed_content : string) (usage : option Usage)
| WithUsageAndDiff (fixed_content : string) (usage : option Usage)
                   (diff_output : option string).

(** What [generate_fix] does to its surroundings, in order. *)
Inductive Event : Type :=
| EvResolve (candidate_path : string)
| EvPrint (msg : string)
| EvRead (full_path : string)
| EvCreateChat
| EvSend (prompt : string).

(** The surroundings: the files on disk (by full path), whether the
    generator holds its chat session ([self._fix_chat]), and the events so
    far. *)
Record World : Type := mkWorld {
  disk : gmap string string;
  _fix_chat : bool;
  events : list Event
}.

(** A computation reads and changes the world, and returns or raises. *)
Definition M (A : Type) : Type := World -> result A * World.

Definition ret {A : Type} (a : A) : M A := fun w => (Ok a, w).
Definition raise {A : Type} (e : exn) : M A := fun w => (Raise e, w).
Definition bindM {A B : Type} (m : M A) (k : A -> M B) : M B :=
  fun w => match m w with
           | (Ok a, w') => k a w'
           | (Raise e, w') => (Raise e, w')
           end.
Definition lift {A : Type} (r : result A) : M A := fun w => (r, w).
Definition emit (e : Event) : M unit :=
  fun w => (Ok tt, mkWorld (disk w) (_fix_chat w) (events w ++ [e])).

Notation "'do' x <- m ; k" := (bindM m (fun x => k))
  (at level 10, x name, m at level 100, k at level 200).
Notation "m ;; k" := (bindM m (fun _ => k))
  (at level 100, k at level 200, right associativity).

(** [try: ... except Exception as e: raise RuntimeError(...)] *)
Definition wrap_failure {A : Type} (file_path : string) (m : M A) : M A :=
  fun w => match m w with
           | (Raise e, w') =>
               (Raise (RuntimeError ("Failed to generate fix for " +:+ file_path
                                       +:+ ": " +:+ exn_message e)), w')
           | r => r
           end.

Section Generator.
(** The generator's fields and collaborators: the file system
    [resolve_repo_path] looks at, [self.root_path], [self.output_style],
    the chat manager's session creation and the session's
    [send_message], the text of an [OSError], and the prompt built by
    [_build_fix_prompt]. *)
Variable CommitDiff : Type.
Variable fs : Helpers.FileSystem.
Variable root_path : string.
Variable output_style : OutputStyle.
Variable create_chat : result unit.
Variable send_message : string -> result ChatResponse.
Variable os_error : string -> string.
Variable _build_fix_prompt :
  string -> string -> DetailedImpactReport.t -> option CommitDiff -> string -> string.

Definition resolve (file_path : string) : M string :=
  emit (EvResolve file_path) ;;
  ret (Helpers.resolve_repo_path fs root_path file_path).

(** [with open(full_path, 'r', encoding='utf-8') as f: f.read()] under
    its [try]. *)
Definition read_original (file_path full_path : string) : M string :=
  emit (EvRead full_path) ;;
  fun w => match disk w !! full_path with
           | Some original_content => (Ok original_content, w)
           | None =>
               (Raise (FileNotFoundError
                         ("Could not read file " +:+ file_path +:+ ": "
                            +:+ os_error full_path)), w)
           end.

Definition _get_fix_chat : M unit :=
  fun w =>
    if _fix_chat w then (Ok tt, w)
    else
      (emit (EvPrint "[CONTEXT] Creating fix generation chat") ;;
       emit EvCreateChat ;;
       do _u <- lift create_chat ;
       fun w' => (Ok tt, mkWorld (disk w') true (events w'))) w.

Definition send (prompt : string) : M ChatResponse :=
  emit (EvSend prompt) ;; lift (send_message prompt).

Definition not_needed (file_path : string) : exn :=
  ValueError ("File " +:+ file_path
                +:+ " does not need updates according to impact analysis").

Definition too_short (file_path : string) : exn :=
  ValueError ("Generated fix appears to be empty or too short for " +:+ file_path).

Definition generate_fix (file_path : string)
  (impact_report : DetailedImpactReport.t) (commit_diff : option CommitDiff)
  (include_usage : bool) : M FixResult :=
  if negb (DetailedImpactReport.needs_update
             (DetailedImpactReport.diagnosis impact_report))
  then raise (not_needed file_path)
  else
    let requested_path := file_path in
    do resolved_path <- resolve file_path ;
    let changed := negb (bool_decide (resolved_path = file_path)) in
    (if changed
     then emit (EvPrint ("[FIX] Resolved path " +:+ file_path +:+ " -> "
                           +:+ resolved_path))
     else ret tt) ;;
    let file_path := if changed then resolved_path else file_path in
    let impact_report :=
      if changed then DetailedImpactReport.with_path file_path impact_report
      else impact_report in
    let full_path := Helpers.safe_join_path root_path file_path in
    do original_content <- read_original file_path full_path ;
    let prompt :=
      _build_fix_prompt file_path original_content impact_report commit_diff
                        requested_path in
    emit (EvPrint ("[FIX] Generating fix for " +:+ file_path)) ;;
    _get_fix_chat ;;
    wrap_failure file_path
      (do response <- send prompt ;
       let raw_output := strip (content response) in
       match output_style with
       | diff =>
           do diff_output <- lift (Diff._extract_diff_content raw_output) ;
           do fixed_content <-
             lift (Diff._apply_unified_diff original_content diff_output) ;
           if include_usage
           then ret (WithUsageAndDiff fixed_content (usage response) (Some diff_output))
           else ret (Content fixed_content)
       | full_file =>
           let fixed_content := raw_output in
           if is_empty fixed_content || (String.length fixed_content <? 10)%nat
           then raise (too_short file_path)
           else if include_usage
           then ret (WithUsage fixed_content (usage response))
           else ret (Content fixed_content)
       end).

End Generator.

End Fixes.

(* ===================================================================== *)
(** ** Concrete inputs                                                    *)
(* ===================================================================== *)

(** [text ls]: the lines [ls] joined by a line feed. *)
Definition text (ls : list string) : string := PyStr.join NL ls.

(** The text [_extract_diff_content] checks: empty for a blank output, and
    otherwise the output without its fence, its [diff --git] and [index]
    lines and its repeated blank lines. *)
Definition normalized_output (raw_output : string) : string :=
  if PyStr.is_empty (PyStr.strip raw_output) then EmptyString
  else Diff.normalize_diff (PyStr.strip raw_output).

(** *** A low-confidence verdict on an overview entry *)

Module LowConfidence.
Import Analysis.

Definition entry : UnsureEntry.t :=
  UnsureEntry.mk "src/a.py" false "may import the changed module" "file_overview".

(** Every refinement task answers with low confidence; there are no
    folders, and paths resolve to themselves. *)
Definition env (related : bool) : Environment :=
  mkEnv (fun p => p) (fun _ => false)
        (fun _ _ e => Some (RefinementDecision.mk (UnsureEntry.path e) related "low"
                              "headers alone do not settle it"))
        (fun _ _ _ => None) (fun _ _ _ => None).

Definition stats (related : bool) : RefineStats.t :=
  RefineStats.mk "src/a.py" (if related then "related" else "not_related") "low"
                 "headers alone do not settle it".

End LowConfidence.

(** *** A repository with one file *)

Module ResolveExample.
(** A repository at [/repo] that holds the one file [a.py]; a path exists
    when it names that file, however it is spelled. *)
Definition fs : Helpers.FileSystem :=
  Helpers.mkFS (fun p => bool_decide (Helpers.normpath p = "/repo/a.py"))
               (fun _ _ => Some []) (fun _ _ => None) (fun _ _ => 0%Q).
End ResolveExample.

(** *** A call of generate_fix *)

Module FixExample.
Import Fixes.

(** One file, [/repo/src/a.py], and a model that answers every prompt with a
    fence that holds blanks only. *)
Definition fs : Helpers.FileSystem :=
  Helpers.mkFS (fun p => bool_decide (Helpers.normpath p = "/repo/src/a.py"))
               (fun _ _ => Some []) (fun _ _ => None) (fun _ _ => 0%Q).

Definition original : string := text ["import b"; "print(b.f())"; ""].

Definition world : World :=
  mkWorld {[ "/repo/src/a.py" := original ]} false [].

Definition report (needs_update : bool) : DetailedImpactReport.t :=
  DetailedImpactReport.mk "src/a.py" true "high"
    (DetailedImpactReport.mkAnalysis "direct" "calls the renamed function")
    (DetailedImpactReport.mkDiagnosis needs_update "b.f was renamed")
    (DetailedImpactReport.mkRecommendation ["call b.g"]).

Definition blank_fence : string := text ["```diff"; "   "; "```"].

Definition send_message (prompt : string) : result ChatResponse :=
  Ok (mkResponse blank_fence None).

Definition prompt (file_path original_content : string)
  (r : DetailedImpactReport.t) (d : option unit) (requested_path : string) : string :=
  "File to fix: " +:+ file_path.

Definition run (style : OutputStyle) (needs_update : bool) : result FixResult * World :=
  generate_fix unit fs "/repo" style (Ok tt) send_message (fun _ => "no such file")
               prompt "src/a.py" (report needs_update) None false world.

End FixExample.

(** *** Diffs *)

Module OverlapExample.
(** Two hunks that both declare the start 0: each only adds a line at the
    head of the file. *)
Definition original : string := text ["a"; ""].
Definition before : list string :=
  ["--- a/f.txt"; "+++ b/f.txt"; "@@ -0,0 +1 @@"; "+x"].
Definition header : string := "@@ -0,0 +2 @@".
Definition diff_text : string := text (before ++ header :: ["+y"]).

(** A second hunk that starts at line 1, after the first consumed it. *)
Definition overlapping : string :=
  text ["--- a/f.txt"; "+++ b/f.txt"; "@@ -1 +1 @@"; "-a"; "+A"; "@@ -1 +1 @@"; "+z"].
End OverlapExample.

Module BlankLineExample.
Definition original : string := text ["a"; ""].
Definition before : list string := ["--- a/f.txt"; "+++ b/f.txt"; "@@ -1 +1,2 @@"].
Definition diff_text : string := text (before ++ EmptyString :: [" a"]).
Definition garbled : string := text (before ++ "?? a" :: [" a"]).
End BlankLineExample.

(* ===================================================================== *)
(** ** Notions used to state what a patch does                            *)
(* ===================================================================== *)

(** The lines that cannot change the file: file headers, hunk headers and
    context lines. *)
Definition neutral_line (l : string) : Prop :=
  PyStr.startswith l "@@" = true \/ PyStr.startswith l " " = true
  \/ PyStr.startswith l "---" || PyStr.startswith l "+++" = true.

(** The output so far is the original up to the cursor. *)
Definition copied_so_far (original_lines : list string) (st : Diff.PatchState) : Prop :=
  Diff.patched_lines st = take (Diff.orig_index st) original_lines.



(* ===================================================================== *)
(** ** Notions used to state what generate_fix does                       *)
(* ===================================================================== *)

(** The world after the events [evs]. *)
Definition log (w : Fixes.World) (evs : list Fixes.Event) : Fixes.World :=
  Fixes.mkWorld (Fixes.disk w) (Fixes._fix_chat w) (Fixes.events w ++ evs).










(* ===================================================================== *)
(** ** Notions used to state what the path helpers do                     *)
(* ===================================================================== *)

(** No element of [l] is followed by an equal one. *)
Definition no_adjacent_repeat (l : list string) : Prop :=
  forall l1 x l2, l <> l1 ++ x :: x :: l2.


(** [c in s] for a character. *)
Fixpoint has_char (c : ascii) (s : string) : bool :=
  match s with
  | EmptyString => false
  | String a t => Ascii.eqb a c || has_char c t
  end.

(** A path component that [os.path.normpath] keeps as it is: not empty,
    not [.], and without a separator. *)
Definition plain_component (x : string) : Prop :=
  x <> EmptyString /\ x <> "." /\ has_char Helpers.sep x = false.

(** Every [..] of [l] has only [..] before it, and there is none in a path
    that starts with a separator ([initial_slashes] not zero). *)
Definition parent_refs_lead (initial_slashes : nat) (l : list string) : Prop :=
  forall l1 l2, l = l1 ++ ".." :: l2 ->
    initial_slashes = 0 /\ Forall (eq "..") l1.

(** The component lists that [os.path.normpath] produces. *)
Definition normal_comps (initial_slashes : nat) (l : list string) : Prop :=
  Forall plain_component l /\ parent_refs_lead initial_slashes l.


(** *** A search by name *)

Module FuzzyExample.
(** Nothing is found where the candidate says; two files are named [a.py],
    and the one under [src] is the closer match. *)
Definition fs : Helpers.FileSystem :=
  Helpers.mkFS (fun _ => false)
               (fun _ _ => Some ["/repo/lib/a.py"; "/repo/src/a.py"])
               (fun m _ => Some (String.substring 6 (String.length m - 6) m))
               (fun _ rel => if bool_decide (rel = "src/a.py") then 3 # 4 else 1 # 4).
End FuzzyExample.


(* ===================================================================== *)
(** ** Notions used to state what a batch collects                        *)
(* ===================================================================== *)





(* ===================================================================== *)
(** ** main.py: the token counts of EvaluationTracker                     *)
(* ===================================================================== *)

Module Tracker.

(** A usage record as the providers return it: the counts it names.  A key
    that is absent and a key bound to [None] read the same through
    [usage.get]; both are an absent key here. *)
Definition Usage : Type := gmap string Z.

(** The dictionary of the five counters kept for a stage. *)
Record Totals : Type := mkTotals {
  prompt : Z;
  completion : Z;
  input : Z;
  output : Z;
  total : Z
}.

Definition zero : Totals := mkTotals 0 0 0 0 0.

(** The two entries of [metrics] that [add_tokens] writes. *)
Record t : Type := mk {
  tokens : gmap string Totals;
  token_details : gmap string (list Usage)
}.

(** [__init__] *)
Definition new : t := mk ∅ ∅.

(** Truth of a value that is [None] or an integer, and [a or b]. *)
Definition truthy (v : option Z) : bool :=
  match v with
  | Some n => negb (n =? 0)%Z
  | None => false
  end.

Definition py_or (a b : option Z) : option Z := if truthy a then a else b.

(** [if v: n += v] *)
Definition add_if (v : option Z) (n : Z) : Z :=
  if truthy v then (n + default 0 v)%Z else n.

(** [d.setdefault(k, v)], for the dictionary it leaves. *)
Definition setdefault {A : Type} (k : string) (v : A) (d : gmap string A)
  : gmap string A :=
  match d !! k with
  | Some _ => d
  | None => <[k := v]> d
  end.

Definition _ensure_token_stage (stage : string) (tr : t) : t :=
  mk (setdefault stage zero (tokens tr)) (setdefault stage [] (token_details tr)).

(** [add_tokens]; the two lookups that follow [_ensure_token_stage] find
    their key. *)
Definition add_tokens (stage : string) (usage : option Usage) (tr : t) : t :=
  match usage with
  | None => tr
  | Some usage =>
      if bool_decide (usage = ∅) then tr
      else
        let tr := _ensure_token_stage stage tr in
        let totals := default zero (tokens tr !! stage) in
        let details := default [] (token_details tr !! stage) in
        let prompt' :=
          py_or (py_or (usage !! "prompt_tokens") (usage !! "input_tokens"))
                (usage !! "input_token_count") in
        let completion' :=
          py_or (py_or (usage !! "completion_tokens") (usage !! "output_tokens"))
                (usage !! "output_token_count") in
        let total' := py_or (usage !! "total_tokens") (usage !! "total_token_count") in
        let totals :=
          mkTotals (add_if prompt' (prompt totals))
                   (add_if completion' (completion totals))
                   (add_if (usage !! "input_tokens") (input totals))
                   (add_if (usage !! "output_tokens") (output totals))
                   (add_if total' (total totals)) in
        mk (<[stage := totals]> (tokens tr))
           (<[stage := details ++ [usage]]> (token_details tr))
  end.

(** One turn of [for key in aggregate: aggregate[key] += stage_totals.get(key, 0) or 0]. *)
Definition add_totals (aggregate stage_totals : Totals) : Totals :=
  mkTotals (prompt aggregate + prompt stage_totals)
           (completion aggregate + completion stage_totals)
           (input aggregate + input stage_totals)
           (output aggregate + output stage_totals)
           (total aggregate + total stage_totals).

(** The loop of [finalize] over the stages. *)
Definition sum_stages (tokens : gmap string Totals) : Totals :=
  map_fold (fun _ stage_totals aggregate => add_totals aggregate stage_totals)
           zero tokens.

(** The token part of [finalize]: [tokens_aggregate] and
    [tokens_input_total]. *)
Definition finalize (tr : t) : Totals * Z :=
  let aggregate := sum_stages (tokens tr) in
  let aggregate :=
    if (total aggregate =? 0)%Z then
      let computed_total := (prompt aggregate + completion aggregate)%Z in
      let computed_total :=
        if (computed_total =? 0)%Z then (input aggregate + output aggregate)%Z
        else computed_total in
      mkTotals (prompt aggregate) (completion aggregate) (input aggregate)
               (output aggregate) computed_total
    else aggregate in
  (aggregate, (prompt aggregate + input aggregate)%Z).

Definition tokens_aggregate (tr : t) : Totals := fst (finalize tr).
Definition tokens_input_total (tr : t) : Z := snd (finalize tr).

(** The calls of [add_tokens] of a run, in the order they are made. *)
Definition record (calls : list (string * option Usage)) : t :=
  foldl (fun tr call => add_tokens (fst call) (snd call) tr) new calls.

End Tracker.

(** The count a usage record gives under a key, zero when it gives none;
    and the sum of a count over the calls of a run. *)
Definition count_of (key : string) (usage : option Tracker.Usage) : Z :=
  default 0%Z (usage ≫= (.!! key)).

Definition sum_with {A : Type} (f : A -> Z) (l : list A) : Z :=
  foldr (fun x acc => (f x + acc)%Z) 0%Z l.

(** What a call adds to the counter [prompt]: the first count that is not
    zero of [prompt_tokens], [input_tokens] and [input_token_count]. *)
Definition prompt_count (usage : option Tracker.Usage) : Z :=
  if (count_of "prompt_tokens" usage =? 0)%Z then
    if (count_of "input_tokens" usage =? 0)%Z then count_of "input_token_count" usage
    else count_of "input_tokens" usage
  else count_of "prompt_tokens" usage.


(* ===================================================================== *)
(** ** llm/manager.py: creating a chat session                            *)
(* ===================================================================== *)

Module Manager.

(** What [provider.create_chat] raised, as the [except] clauses tell it
    apart: a [RetryableError], a [NonRetryableError], or another exception;
    [msg] is [str(e)]. *)
Inductive Failure : Type :=
| Retryable (msg : string)
| NonRetryable (msg : string)
| Unknown (msg : string).

Definition str (e : Failure) : string :=
  match e with Retryable msg | NonRetryable msg | Unknown msg => msg end.

(** What [_create_chat_with_retry] raises: a [NonRetryableError], or the
    [RuntimeError] of the end with the exception it is raised from. *)
Inductive Raised : Type :=
| NonRetryableError (msg : string)
| RuntimeError (msg : string) (cause : option Failure).

(** What the method does, in order: a call of [provider.create_chat], a
    warning printed before a retry (attempt, error and wait time are what
    the text is formatted from), a [time.sleep], the message printed before
    an error is raised. *)
Inductive Event : Type :=
| EvCreate (attempt : nat)
| EvWarn (attempt : nat) (e : Failure) (wait_time : Q)
| EvSleep (wait_time : Q)
| EvError (e : Failure).

Definition is_create (ev : Event) : bool :=
  match ev with EvCreate _ => true | _ => false end.

Definition is_sleep (ev : Event) : bool :=
  match ev with EvSleep _ => true | _ => false end.

(** How often the provider was called, and how often the method slept. *)
Definition creations (log : list Event) : nat := length (List.filter is_create log).
Definition sleeps (log : list Event) : nat := length (List.filter is_sleep log).

Section Retry.
(** The provider: the outcome of the call of [create_chat] made at each
    attempt, [is_retryable_error] and [get_error_wait_time]; and
    [self.max_retries]. *)
Variable Chat : Type.
Variable create_chat : nat -> Chat + Failure.
Variable is_retryable_error : Failure -> bool.
Variable get_error_wait_time : Failure -> nat -> Q.
Variable max_retries : nat.

Definition exhausted (last_exception : option Failure) : Raised :=
  RuntimeError ("Failed to create chat session after "
                  +:+ NilZero.string_of_uint (Nat.to_uint max_retries)
                  +:+ " attempts.")
               last_exception.

(** The end of an [except] clause that retries: warn, sleep, and go on
    with the loop. *)
Definition retried (attempt : nat) (e : Failure)
  (rest : (Chat + Raised) * list Event) : (Chat + Raised) * list Event :=
  let wait_time := get_error_wait_time e attempt in
  (fst rest,
   EvCreate attempt :: EvWarn attempt e wait_time :: EvSleep wait_time :: snd rest).

(** [for attempt in range(self.max_retries)], from [attempt] on, with
    [remaining] turns to go; then the [raise] that follows the loop. *)
Fixpoint attempts (remaining attempt : nat) (last_exception : option Failure)
  : (Chat + Raised) * list Event :=
  match remaining with
  | 0 => (inr (exhausted last_exception), [])
  | S remaining =>
      match create_chat attempt with
      | inl chat => (inl chat, [EvCreate attempt])
      | inr e =>
          match e with
          | Retryable _ =>
              retried attempt e (attempts remaining (S attempt) (Some e))
          | NonRetryable msg =>
              (inr (NonRetryableError msg), [EvCreate attempt; EvError e])
          | Unknown msg =>
              if is_retryable_error e
              then retried attempt e
                     (attempts remaining (S attempt) (Some (Retryable msg)))
              else (inr (NonRetryableError msg), [EvCreate attempt; EvError e])
          end
      end
  end.

Definition _create_chat_with_retry : (Chat + Raised) * list Event :=
  attempts max_retries 0 None.

(** The failures after which the loop goes on. *)
Definition retries (e : Failure) : bool :=
  match e with
  | Retryable _ => true
  | NonRetryable _ => false
  | Unknown _ => is_retryable_error e
  end.

End Retry.

End Manager.

(** *** A provider that fails twice *)

Module RetryExample.
Import Manager.
(** The first call times out, the second meets an error the provider
    calls retryable, the third returns the session [7]. *)
Definition create_chat (attempt : nat) : nat + Failure :=
  match attempt with
  | 0 => inr (Retryable "timeout")
  | 1 => inr (Unknown "connection reset")
  | _ => inl 7
  end.
Definition is_retryable_error (e : Failure) : bool := true.
Definition get_error_wait_time (e : Failure) (attempt : nat) : Q :=
  inject_Z (Z.of_nat (S attempt)).
End RetryExample.


(** The count [initial_slashes] of [os.path.normpath]. *)
Definition initial_slashes_of (path : string) : nat :=
  if PyStr.startswith path "/" then
    if PyStr.startswith path "//" && negb (PyStr.startswith path "///") then 2 else 1
  else 0.


(* ===================================================================== *)
(** ** utils/helpers.py: the depth of a path                              *)
(* ===================================================================== *)

Module Paths.
Import PyStr Helpers.

(** [os.path.isabs] and [os.path.abspath] (POSIX); [cwd] is what
    [os.getcwd()] returns. *)
Definition isabs (path : string) : bool := startswith path sep_str.

Definition abspath (cwd path : string) : string :=
  normpath (if isabs path then path else path_join cwd path).

(** [len(os.path.commonprefix([a, b]))] for two lists. *)
Fixpoint commonprefix_length (a b : list string) : nat :=
  match a, b with
  | x :: a', y :: b' =>
      if bool_decide (x = y) then S (commonprefix_length a' b') else 0
  | _, _ => 0
  end.

(** [[x for x in p.split(sep) if x]] *)
Definition parts (p : string) : list string :=
  filter (fun x => x ≠ EmptyString) (split_on sep p).

(** [os.path.relpath(path, start)] (POSIX), for a [path] that is not
    empty (an empty one is a [ValueError]). *)
Definition relpath (cwd path start : string) : result string :=
  if is_empty path then Raise (ValueError "no path specified")
  else
    let start_list := parts (abspath cwd start) in
    let path_list := parts (abspath cwd path) in
    let i := commonprefix_length start_list path_list in
    let rel_list := replicate (length start_list - i) ".." ++ drop i path_list in
    match rel_list with
    | [] => Ok "."
    | first :: rest => Ok (foldl path_join first rest)
    end.

(** [s.count(c)] for a character. *)
Fixpoint count_char (c : ascii) (s : string) : nat :=
  match s with
  | EmptyString => 0
  | String a t => (if Ascii.eqb a c then 1 else 0) + count_char c t
  end.

Definition compute_path_depth (cwd path root : string) : result nat :=
  let path := normalize_path path in
  let root := normalize_path root in
  bind (relpath cwd path root) (fun rel =>
    if bool_decide (rel = ".") then Ok 0
    else Ok (count_char sep rel + 1)).

(** [is_folder_at_max_depth]; [isdir] is [os.path.isdir].  The depth is
    computed only when the path is a directory ([and]). *)
Definition is_folder_at_max_depth (cwd : string) (isdir : string -> bool)
  (path root_path : string) (max_depth : nat) : result bool :=
  let full_path :=
    if isabs path then normalize_path path else safe_join_path root_path path in
  if isdir full_path then
    bind (compute_path_depth cwd path root_path) (fun depth =>
      Ok (bool_decide (depth = max_depth)))
  else Ok false.

End Paths.


(* ===================================================================== *)
(** ** utils/helpers.py: the evidence for an entry                        *)
(* ===================================================================== *)

Module Evidence.
Import PyStr.

(** The dictionary [resolve_needed_info] returns, by its [type]. *)
Inductive Info : Type :=
| Directory (message : string)
| Overview (entries : list string)
| Raw (text : string) (truncated : bool) (original_size : nat)
| Error (error : string).

(** What [extract_file_overview] does: it returns entries, each with the
    header it has, if any; or raises [ValueError] (an extension it does not
    know); or raises something else.  [msg] is [str(e)]. *)
Inductive Parse : Type :=
| Parsed (headers : list (option string))
| Unsupported (msg : string)
| ParseFailed (msg : string).

(** What [open(path, 'r', encoding='utf-8').read()] does: the text, a
    [UnicodeDecodeError], or another exception. *)
Inductive Read : Type :=
| ReadText (text : string)
| DecodeError (msg : string)
| ReadFailed (msg : string).

(** The file system and the parsers: [os.path.isdir], [extract_file_overview],
    the strict read, and the read with [errors='ignore'] (the text, or the
    text of the exception). *)
Record Files : Type := mkFiles {
  isdir : string -> bool;
  extract_file_overview : string -> Parse;
  read : string -> Read;
  read_ignore : string -> string + string
}.

(** [_read_and_truncate], once the text is read. *)
Definition _read_and_truncate (max_chars : nat) (text : string) : Info :=
  let original_size := String.length text in
  let truncated := (max_chars <? original_size)%nat in
  Raw (if truncated then String.substring 0 max_chars text else text)
      truncated original_size.

(** The two [try] blocks around [_read_and_truncate]; the two functions
    that hold them differ in the words before the error only. *)
Definition read_or_error (said : string) (fs : Files) (file_path : string)
  (max_chars : nat) : Info :=
  match read fs file_path with
  | ReadText text => _read_and_truncate max_chars text
  | DecodeError _ =>
      match read_ignore fs file_path with
      | inl text => _read_and_truncate max_chars text
      | inr e => Error (said +:+ e)
      end
  | ReadFailed e => Error (said +:+ e)
  end.

Definition _read_raw_content_with_truncation (fs : Files) (file_path : string)
  (max_chars : nat) : Info :=
  read_or_error "Error reading file: " fs file_path max_chars.

(** [[e['header'] for e in entries if e.get('header')]] *)
Definition headers_of (entries : list (option string)) : list string :=
  omap (fun h => match h with
                 | Some s => if is_empty s then None else Some s
                 | None => None
                 end) entries.

Definition safe_file_overview (fs : Files) (path : string) (max_chars : nat) : Info :=
  match extract_file_overview fs path with
  | Parsed entries =>
      let headers := headers_of entries in
      if negb (is_nil headers) then Overview headers
      else read_or_error "Could not read file: " fs path max_chars
  | Unsupported _ => read_or_error "Could not read file: " fs path max_chars
  | ParseFailed e => Error ("Parser error: " +:+ e)
  end.

#[warnings="-abstract-large-number"]
Definition resolve_needed_info (fs : Files) (entry : UnsureEntry.t)
  (root_path : string) : Info :=
  let full_path := Helpers.safe_join_path root_path (UnsureEntry.path entry) in
  if isdir fs full_path then
    Directory ("Path " +:+ UnsureEntry.path entry
                 +:+ " is a directory that should be analyzed separately")
  else if bool_decide (UnsureEntry.needed_info entry = "file_overview")
          || bool_decide (UnsureEntry.needed_info entry = "file_metadata")
  then safe_file_overview fs full_path 6000
  else if bool_decide (UnsureEntry.needed_info entry = "raw_content")
  then _read_raw_content_with_truncation fs full_path 10000
  else Error ("Unknown needed_info: " +:+ UnsureEntry.needed_info entry).

End Evidence.

(* ===================================================================== *)
(** ** analysis/refinement.py: refine_entry_async                         *)
(* ===================================================================== *)

Module Refine.
Import PyStr Evidence.

(** The fields of a [ChatResponse] the function reads; [parsed] is [None]
    when the provider could not parse the answer. *)
Record ChatResponse : Type := mkResponse {
  parsed : option RefinementDecision.t;
  usage : option Tracker.Usage
}.

(** The chat manager: [get_async_chat("refinement")] returns or raises, and
    so does [send_message_async]; the text is [str(e)]. *)
Record Chat : Type := mkChat {
  get_async_chat : option string;
  send_message_async : string -> ChatResponse + string
}.

Inductive Event : Type :=
| EvPrint (msg : string)
| EvSend (prompt : string).

(** What a call leaves: the entry object as the call left it, what the
    call returned ([None] for Python's [None]), what it printed and sent,
    and the tracker. *)
Record Outcome : Type := mkOutcome {
  entry_after : UnsureEntry.t;
  returned : option RefinementDecision.t;
  events : list Event;
  tracker_after : option Tracker.t
}.

Definition dq : string := String "034"%char EmptyString.

Definition str_nat (n : nat) : string := NilZero.string_of_uint (Nat.to_uint n).

(** [info_block] and [info_level], for an overview and for raw text. *)
Definition overview_block (entries : list string) : string :=
  "Function/class headers:" +:+ NL +:+ join NL (map (fun h => "- " +:+ h) entries).

Definition raw_block (text : string) (truncated : bool) (original_size : nat) : string :=
  let info_block := "Raw content:" +:+ NL +:+ "```text" +:+ NL +:+ text +:+ NL +:+ "```" in
  if truncated
  then info_block +:+ NL +:+ "... (truncated at " +:+ str_nat (String.length text)
         +:+ " chars, full file is " +:+ str_nat original_size +:+ " chars)"
  else info_block.

Definition guidance_final : string :=
  text [ "";
         "        FINAL DECISION REQUIRED";
         "        This is raw content analysis, you MUST make a final decision.";
         "        No further escalation is possible. Choose " +:+ dq +:+ "related: true"
           +:+ dq +:+ " or " +:+ dq +:+ "related: false" +:+ dq +:+ " decisively.";
         "        " ].

Definition guidance_overview : string :=
  text [ "";
         "        OVERVIEW ANALYSIS";
         "        This is function/class overview analysis. If you need more detail, you can use "
           +:+ dq +:+ "low" +:+ dq +:+ " confidence";
         "        to request raw content analysis in the next iteration.";
         "        " ].

Definition build_prompt (entry : UnsureEntry.t) (info_level info_block guidance : string)
  : string :=
  text [ "";
         "        File: " +:+ UnsureEntry.path entry;
         "        Analysis Level: " +:+ info_level;
         "        Original Reason: " +:+ UnsureEntry.reason entry;
         "";
         "        " +:+ info_block;
         "";
         "        " +:+ guidance;
         "";
         "        Make your decision on whether this file is related/impacted by the changes:";
         "";
         "        Respond with JSON including:";
         "        - path: the file path";
         "        - related: true if the file is impacted, false if not  ";
         "        - confidence: " +:+ dq +:+ "high" +:+ dq +:+ ", " +:+ dq +:+ "medium" +:+ dq
           +:+ ", or " +:+ dq +:+ "low" +:+ dq;
         "        - reasoning: brief explanation of your decision";
         "";
         "        Key decision criteria:";
         "        - If you have enough information to make a confident decision (either way), set confidence to "
           +:+ dq +:+ "high" +:+ dq;
         "        - For overview analysis: use " +:+ dq +:+ "low" +:+ dq
           +:+ " confidence only if you genuinely need to see raw content";
         "        - It's okay to confidently determine a file is NOT related";
         "        - It's better to be decisive than uncertain";
         "    " ].

Section Call.
Variable fs : Helpers.FileSystem.
Variable files : Files.
Variable chat : Chat.
Variable root_path : string.

Definition directory_decision (path : string) : RefinementDecision.t :=
  RefinementDecision.mk path true "high"
    "Directory detected - should be analyzed as subfolder".

Definition access_error_decision (path error : string) : RefinementDecision.t :=
  RefinementDecision.mk path false "low"
    ("Error accessing file: " +:+ error +:+ " - assuming not impacted").

Definition refinement_error_decision (path e : string) : RefinementDecision.t :=
  RefinementDecision.mk path false "low"
    ("Error during refinement: " +:+ e +:+ " - pruning as not impacted").

(** [guidance], by [is_final_step]. *)
Definition guidance_for (entry : UnsureEntry.t) : string :=
  if bool_decide (UnsureEntry.needed_info entry = "raw_content")
  then guidance_final else guidance_overview.

(** The [try] block: the chat, the message, the tokens, the verdict. *)
Definition ask (entry : UnsureEntry.t) (prompt : string)
  (evaluation_tracker : option Tracker.t) (printed : list Event) : Outcome :=
  match get_async_chat chat with
  | Some e =>
      mkOutcome entry
        (Some (refinement_error_decision (UnsureEntry.path entry) e))
        (printed ++ [EvPrint ("Error refining " +:+ UnsureEntry.path entry
                                +:+ ": " +:+ e)])
        evaluation_tracker
  | None =>
      match send_message_async chat prompt with
      | inr e =>
          mkOutcome entry
            (Some (refinement_error_decision (UnsureEntry.path entry) e))
            (printed ++ [EvSend prompt;
                         EvPrint ("Error refining " +:+ UnsureEntry.path entry
                                    +:+ ": " +:+ e)])
            evaluation_tracker
      | inl response =>
          mkOutcome entry (parsed response) (printed ++ [EvSend prompt])
            (Tracker.add_tokens "refinement" (usage response) <$> evaluation_tracker)
      end
  end.

Definition refine_entry_async (entry : UnsureEntry.t)
  (evaluation_tracker : option Tracker.t) : Outcome :=
  let resolved_path := Helpers.resolve_repo_path fs root_path (UnsureEntry.path entry) in
  let changed := negb (bool_decide (resolved_path = UnsureEntry.path entry)) in
  let printed :=
    if changed
    then [EvPrint ("[PATH] Resolved refine target " +:+ UnsureEntry.path entry
                     +:+ " -> " +:+ resolved_path)]
    else [] in
  let entry := if changed then UnsureEntry.set_path resolved_path entry else entry in
  match resolve_needed_info files entry root_path with
  | Directory _ =>
      mkOutcome entry (Some (directory_decision (UnsureEntry.path entry)))
        (printed ++ [EvPrint ("[DIRECTORY] " +:+ UnsureEntry.path entry
                                +:+ " is a directory - scheduling for subfolder analysis")])
        evaluation_tracker
  | Error error =>
      mkOutcome entry (Some (access_error_decision (UnsureEntry.path entry) error))
        (printed ++ [EvPrint ("[ERROR] Could not process " +:+ UnsureEntry.path entry
                                +:+ ": " +:+ error)])
        evaluation_tracker
  | Overview entries =>
      ask entry
        (build_prompt entry "function/class overview" (overview_block entries)
           (guidance_for entry))
        evaluation_tracker printed
  | Raw text truncated original_size =>
      ask entry
        (build_prompt entry "full raw content" (raw_block text truncated original_size)
           (guidance_for entry))
        evaluation_tracker printed
  end.

End Call.

(** The prompts a call sent. *)
Definition prompts_sent (o : Outcome) : list string :=
  omap (fun ev => match ev with EvSend p => Some p | EvPrint _ => None end) (events o).

End Refine.

(** The prompt [refine_entry_async] builds for an entry and its evidence,
    an overview or raw text. *)
Definition prompt_of (entry : UnsureEntry.t) (extra : Evidence.Info) : string :=
  match extra with
  | Evidence.Overview entries =>
      Refine.build_prompt entry "function/class overview"
        (Refine.overview_block entries) (Refine.guidance_for entry)
  | Evidence.Raw text truncated original_size =>
      Refine.build_prompt entry "full raw content"
        (Refine.raw_block text truncated original_size) (Refine.guidance_for entry)
  | Evidence.Directory _ | Evidence.Error _ => EmptyString
  end.

(** The number of characters of a file that [resolve_needed_info] passes
    on: 10000 at the raw-content level, 6000 below it. *)
#[warnings="-abstract-large-number"]
Definition evidence_cap (entry : UnsureEntry.t) : nat :=
  if bool_decide (UnsureEntry.needed_info entry = "raw_content") then 10000 else 6000.

(** *** A repository with a folder and a file that cannot be read *)

Module RefineExample.
Import Evidence Refine.

Definition fs : Helpers.FileSystem :=
  Helpers.mkFS (fun _ => true) (fun _ _ => Some []) (fun _ _ => None) (fun _ _ => 0%Q).

(** [/repo/src] is a directory; reading [/repo/locked.py] is refused; any
    other file holds one line. *)
Definition files : Files :=
  mkFiles (fun p => bool_decide (p = "/repo/src"))
          (fun _ => Unsupported "unsupported extension")
          (fun p => if bool_decide (p = "/repo/locked.py")
                    then ReadFailed "[Errno 13] Permission denied"
                    else ReadText "import b")
          (fun _ => inl "import b").

(** A model whose answer does not parse. *)
Definition chat : Chat :=
  mkChat None (fun _ => inl (mkResponse None (Some {[ "input_tokens" := 12%Z ]}))).

Definition folder_entry : UnsureEntry.t :=
  UnsureEntry.mk "src" false "may hold callers" "file_overview".

Definition locked_entry : UnsureEntry.t :=
  UnsureEntry.mk "locked.py" false "may import b" "raw_content".

Definition plain_entry : UnsureEntry.t :=
  UnsureEntry.mk "a.py" false "may import b" "raw_content".
End RefineExample.


(* ===================================================================== *)
(** ** main.py: the fixes of an evaluation run                            *)
(* ===================================================================== *)

Module Evaluation.
Import Fixes.


(** A record of [metrics['fixes']]. *)
Record FixRecord : Type := mkFix {
  fix_path : string;
  fix_content : string;
  mode : string;
  applied_content : option string
}.

(** The tracker, as this part of [run_analysis] writes it. *)
Record Tracker : Type := mkTracker {
  fixes : list FixRecord;
  counts : Tracker.t
}.



Section Loop.
(** The generator [CodeFixGenerator(sync_chat_manager, config.root_path,
    output_style="diff")] with its collaborators, and [diffs]. *)
Variable CommitDiff : Type.
Variable fs : Helpers.FileSystem.
Variable root_path : string.
Variable create_chat : result unit.
Variable send_message : string -> result ChatResponse.
Variable os_error : string -> string.
Variable _build_fix_prompt :
  string -> string -> DetailedImpactReport.t -> option CommitDiff -> string -> string.
Variable diffs : CommitDiff.



End Loop.

End Evaluation.











(* ===================================================================== *)
(** * Properties of the refinement loop                                   *)
(* ===================================================================== *)

Section LoopFacts.
Import Analysis.
Variable env : Environment.

Lemma escalate_at_cap (m : nat) (entry : UnsureEntry.t) :
  escalate env m m entry = None.
Proof. unfold escalate. by rewrite Nat.ltb_irrefl. Qed.

Lemma omap_escalate_at_cap (m : nat) (entries : list UnsureEntry.t) :
  omap (escalate env m m) entries = [].
Proof.
  induction entries as [|e es IH]; [done|].
  cbn. by rewrite escalate_at_cap.
Qed.

Lemma round_iteration (m : nat) (st : LoopState) :
  iteration (round env m st) = S (iteration st).
Proof. unfold round. by destruct (foldl _ _ _). Qed.

Lemma round_at_cap (m : nat) (st : LoopState) :
  S (iteration st) = m -> loop_unsure (round env m st) = [].
Proof.
  intros <-. unfold round. destruct (foldl _ _ _) as [sure unsure]. cbn.
  apply omap_escalate_at_cap.
Qed.

(** With enough fuel for the rounds left before the cap [m], the loop
    stops because its test fails; it has run no round past the cap; and
    nothing is left to refine, when it was not started at the cap with
    entries in hand. *)
Lemma loop_from_exit (m k : nat) (st : LoopState) :
  (m - iteration st <= k)%nat ->
  (iteration st <= m)%nat ->
  (iteration st = m -> loop_unsure st = []) ->
  loop_test m (loop_from env m k st) = false
  /\ (iteration (loop_from env m k st) <= m)%nat
  /\ loop_unsure (loop_from env m k st) = [].
Proof.
  revert st. induction k as [|k IH]; intros st Hfuel Hle Hcap.
  - cbn. assert (iteration st = m) as Heq by lia.
    unfold loop_test. rewrite (Hcap Heq). by rewrite <- Heq at 2.
  - cbn [loop_from]. destruct (loop_test m st) eqn:Htest.
    + unfold loop_test in Htest. apply andb_true_iff in Htest as [_ Hlt].
      apply Nat.ltb_lt in Hlt.
      apply IH; rewrite ?round_iteration; [lia|lia|].
      intros Heq. apply round_at_cap. exact Heq.
    + split; [done|]. split; [done|].
      unfold loop_test in Htest. apply andb_false_iff in Htest as [Hnil|Hlt].
      * by destruct (loop_unsure st).
      * apply Nat.ltb_ge in Hlt. apply Hcap. lia.
Qed.

End LoopFacts.

(** C2. Whatever the initial sure and unsure lists and whatever the tasks of
    each round return, the refinement loop of [run_analysis] runs at most
    [max_iterations] = 3 rounds and is left because its test fails; in the
    round that reaches the cap every remaining entry is pruned, whatever its
    evidence level; and the list of entries still unsure is empty when the
    loop is left. *)
Theorem refinement_loop_bounded_and_drained
  (env : Analysis.Environment) (sure : list string)
  (unsure : list UnsureEntry.t) (stats : list RefineStats.t) :
  Analysis.max_iterations = 3
  /\ Analysis.loop_test Analysis.max_iterations
       (Analysis.refinement_loop env sure unsure stats) = false
  /\ (Analysis.iteration (Analysis.refinement_loop env sure unsure stats)
      <= Analysis.max_iterations)%nat
  /\ (forall entries : list UnsureEntry.t,
        omap (Analysis.escalate env Analysis.max_iterations Analysis.max_iterations)
             entries = [])
  /\ Analysis.loop_unsure (Analysis.refinement_loop env sure unsure stats) = [].
Proof.
  split; [reflexivity|].
  destruct (loop_from_exit env Analysis.max_iterations Analysis.max_iterations
              (Analysis.mkLoop sure unsure stats 0)) as (H1 & H2 & H3).
  - unfold Analysis.max_iterations. cbn [Analysis.iteration]. lia.
  - unfold Analysis.max_iterations. cbn [Analysis.iteration]. lia.
  - discriminate.
  - split; [exact H1|]. split; [exact H2|]. split; [|exact H3].
    intros entries. apply omap_escalate_at_cap.
Qed.

(* ===================================================================== *)
(** * The deduplication of the confirmed files                            *)
(* ===================================================================== *)

Section DedupFacts.
Import Analysis.
Variable resolver : string -> string.

Lemma dedup_step_inv (acc : list string * gset string) (path : string) :
  dedup_inv acc -> dedup_inv (dedup_step resolver acc path).
Proof.
  intros [Hnd Hseen]. unfold dedup_step.
  case_bool_decide as Hin; [by split|].
  split; cbn.
  - apply NoDup_app. split; [done|]. split; [|apply NoDup_singleton].
    intros x Hx Hx'. apply list_elem_of_singleton in Hx' as ->.
    apply Hin, Hseen, Hx.
  - intros x. rewrite elem_of_union, elem_of_singleton, elem_of_app,
      list_elem_of_singleton, Hseen. tauto.
Qed.

Lemma dedup_step_elem (acc : list string * gset string) (path : string) (x : string) :
  dedup_inv acc ->
  x ∈ fst (dedup_step resolver acc path) <-> x ∈ fst acc \/ x = dedup_key resolver path.
Proof.
  intros [_ Hseen]. unfold dedup_step. fold (dedup_key resolver path).
  case_bool_decide as Hin; cbn.
  - split; [tauto|]. intros [H| ->]; [done|]. by apply Hseen.
  - by rewrite elem_of_app, list_elem_of_singleton.
Qed.

Lemma dedup_foldl (paths : list string) (acc : list string * gset string) :
  dedup_inv acc ->
  dedup_inv (foldl (dedup_step resolver) acc paths)
  /\ forall x, x ∈ fst (foldl (dedup_step resolver) acc paths)
               <-> x ∈ fst acc \/ exists p, p ∈ paths /\ x = dedup_key resolver p.
Proof.
  revert acc. induction paths as [|p ps IH]; intros acc Hacc; cbn.
  - split; [done|]. intros x. split; [tauto|].
    intros [H|(p & Hp & _)]; [done|]. by apply elem_of_nil in Hp.
  - destruct (IH _ (dedup_step_inv acc p Hacc)) as [Hinv Hel].
    split; [done|]. intros x. rewrite Hel, dedup_step_elem by done.
    split.
    + intros [[H| ->]|(q & Hq & ->)]; [tauto| |].
      * right. exists p. split; [left|done].
      * right. exists q. split; [by right|done].
    + intros [H|(q & Hq & ->)]; [tauto|].
      apply elem_of_cons in Hq as [->|Hq]; [tauto|].
      right. by exists q.
Qed.

End DedupFacts.

(** C3. For every accumulated list of confirmed paths, the list left by the
    deduplication step of [run_analysis] has no repeated entry; its entries
    are exactly the paths [normalize_path (resolve_repo_path root p)] of the
    accumulated paths [p]: each path goes through the resolver and the
    normalizer before it is inserted, and a normalized path already seen is
    not inserted again. *)
Theorem dedup_final_no_duplicates
  (fs : Helpers.FileSystem) (root_path : string) (final_sure : list string) :
  NoDup (Analysis.dedup_final (Helpers.resolve_repo_path fs root_path) final_sure)
  /\ forall x : string,
       x ∈ Analysis.dedup_final (Helpers.resolve_repo_path fs root_path) final_sure
       <-> exists p, p ∈ final_sure
                     /\ x = Helpers.normalize_path
                              (Helpers.resolve_repo_path fs root_path p).
Proof.
  unfold Analysis.dedup_final.
  destruct (dedup_foldl (Helpers.resolve_repo_path fs root_path) final_sure ([], ∅))
    as [[Hnd _] Hel].
  - split; [apply NoDup_nil_2|]. intros x. cbn.
    rewrite elem_of_empty, elem_of_nil. tauto.
  - split; [done|]. intros x. rewrite Hel. cbn. rewrite elem_of_nil.
    unfold Analysis.dedup_key. tauto.
Qed.

(* ===================================================================== *)
(** * A low-confidence verdict on an overview entry                       *)
(* ===================================================================== *)

(** C1 (what the code does at the failing input). In round 1, below the cap
    of 3, the overview entry [src/a.py] gets a low-confidence verdict. With
    [related = True] its path is added to the confirmed files, with
    [related = False] it is dropped; either way the batch leaves it out of
    [remaining_unsure], so the escalation policy never sees it: nothing is
    queued at the raw-content level and the loop stops after this round. *)
Theorem low_confidence_overview_entry_is_not_escalated :
  Analysis.process_refinement_batch (LowConfidence.env true) 1 [LowConfidence.entry]
  = Analysis.mkBatch ["src/a.py"] [] [] [LowConfidence.stats true]
  /\ Analysis.process_refinement_batch (LowConfidence.env false) 1 [LowConfidence.entry]
     = Analysis.mkBatch [] [] [] [LowConfidence.stats false]
  /\ Analysis.refinement_loop (LowConfidence.env true) [] [LowConfidence.entry] []
     = Analysis.mkLoop ["src/a.py"] [] [LowConfidence.stats true] 1
  /\ Analysis.refinement_loop (LowConfidence.env false) [] [LowConfidence.entry] []
     = Analysis.mkLoop [] [] [LowConfidence.stats false] 1
  /\ Analysis.escalate (LowConfidence.env true) Analysis.max_iterations 1
       LowConfidence.entry
     = Some (UnsureEntry.mk "src/a.py" false
               "Escalated from overview: may import the changed module" "raw_content").
Proof. repeat split; vm_compute; reflexivity. Qed.

(* ===================================================================== *)
(** * generate_fix                                                        *)
(* ===================================================================== *)

Section GenerateFixFacts.
Import Fixes.
Variable CommitDiff : Type.
Variable fs : Helpers.FileSystem.
Variable root_path : string.
Variable create_chat : result unit.
Variable send_message : string -> result ChatResponse.
Variable os_error : string -> string.
Variable _build_fix_prompt :
  string -> string -> DetailedImpactReport.t -> option CommitDiff -> string -> string.

(** A blank output is an empty diff. *)
Lemma extract_blank (raw_output : string) :
  PyStr.strip raw_output = EmptyString ->
  Diff._extract_diff_content raw_output = Ok EmptyString.
Proof. unfold Diff._extract_diff_content. by intros ->. Qed.

(** Applying the empty diff returns the original content. *)
Lemma apply_empty_diff (original_content : string) :
  Diff._apply_unified_diff original_content EmptyString = Ok original_content.
Proof. reflexivity. Qed.

Lemma _get_fix_chat_ready (w : World) :
  _fix_chat w = true \/ create_chat = Ok tt ->
  exists w', _get_fix_chat create_chat w = (Ok tt, w') /\ disk w' = disk w.
Proof.
  unfold _get_fix_chat. intros H.
  destruct (_fix_chat w) eqn:Hc; [by exists w|].
  destruct H as [H|H]; [done|]. rewrite H. cbn. eauto.
Qed.

End GenerateFixFacts.

(** C9. When [diagnosis.needs_update] is false, [generate_fix] raises its
    [ValueError] at once, in either output style: the world it returns is the
    world it was given, so no path was resolved, no file read, no chat
    created, no message sent, and the files on disk are as they were. *)
Theorem generate_fix_refuses_when_no_update_needed
  (CommitDiff : Type) (fs : Helpers.FileSystem) (root_path : string)
  (output_style : Fixes.OutputStyle) (create_chat : result unit)
  (send_message : string -> result Fixes.ChatResponse) (os_error : string -> string)
  (_build_fix_prompt :
     string -> string -> DetailedImpactReport.t -> option CommitDiff -> string -> string)
  (file_path : string) (impact_report : DetailedImpactReport.t)
  (commit_diff : option CommitDiff) (include_usage : bool) (w : Fixes.World) :
  DetailedImpactReport.needs_update (DetailedImpactReport.diagnosis impact_report) = false ->
  Fixes.generate_fix CommitDiff fs root_path output_style create_chat send_message
    os_error _build_fix_prompt file_path impact_report commit_diff include_usage w
  = (Raise (Fixes.not_needed file_path), w).
Proof. intros H. unfold Fixes.generate_fix. by rewrite H. Qed.

Lemma generate_fix_refuses_witness :
  FixExample.run Fixes.full_file false
  = (Raise (ValueError "File src/a.py does not need updates according to impact analysis"),
     FixExample.world)
  /\ FixExample.run Fixes.diff false
     = (Raise (ValueError "File src/a.py does not need updates according to impact analysis"),
        FixExample.world).
Proof.
  split.
  - exact (generate_fix_refuses_when_no_update_needed unit FixExample.fs "/repo"
             Fixes.full_file (Ok tt) FixExample.send_message (fun _ => "no such file")
             FixExample.prompt "src/a.py" (FixExample.report false) None false
             FixExample.world eq_refl).
  - exact (generate_fix_refuses_when_no_update_needed unit FixExample.fs "/repo"
             Fixes.diff (Ok tt) FixExample.send_message (fun _ => "no such file")
             FixExample.prompt "src/a.py" (FixExample.report false) None false
             FixExample.world eq_refl).
Defined.

(** C10. In diff mode, when the model's output normalizes to the empty string
    ([_extract_diff_content] returns the empty diff), [generate_fix] succeeds
    and its fixed content is the original content of the file, unchanged: the
    check on near-empty output is made in full-file mode only, and applying
    the empty diff returns the original.  The call is one that gets as far
    as the model's answer: the report asks for an update, the resolved file
    is on disk, the chat session exists or can be created, and the model
    answers the prompt. *)
Theorem generate_fix_empty_diff_returns_original
  (CommitDiff : Type) (fs : Helpers.FileSystem) (root_path : string)
  (create_chat : result unit)
  (send_message : string -> result Fixes.ChatResponse) (os_error : string -> string)
  (_build_fix_prompt :
     string -> string -> DetailedImpactReport.t -> option CommitDiff -> string -> string)
  (file_path : string) (impact_report : DetailedImpactReport.t)
  (commit_diff : option CommitDiff) (include_usage : bool) (w : Fixes.World)
  (original_content : string) (response : Fixes.ChatResponse) :
  let resolved_path := Helpers.resolve_repo_path fs root_path file_path in
  let report :=
    if bool_decide (resolved_path = file_path) then impact_report
    else DetailedImpactReport.with_path resolved_path impact_report in
  DetailedImpactReport.needs_update (DetailedImpactReport.diagnosis impact_report) = true ->
  Fixes.disk w !! Helpers.safe_join_path root_path resolved_path = Some original_content ->
  Fixes._fix_chat w = true \/ create_chat = Ok tt ->
  send_message (_build_fix_prompt resolved_path original_content report commit_diff file_path)
  = Ok response ->
  Diff._extract_diff_content (PyStr.strip (Fixes.content response)) = Ok EmptyString ->
  exists w',
    Fixes.generate_fix CommitDiff fs root_path Fixes.diff create_chat send_message
      os_error _build_fix_prompt file_path impact_report commit_diff include_usage w
    = (Ok (if include_usage
           then Fixes.WithUsageAndDiff original_content (Fixes.usage response)
                                       (Some EmptyString)
           else Fixes.Content original_content), w')
    /\ Fixes.disk w' = Fixes.disk w.
Proof.
  intros resolved_path report Hneeds Hdisk Hchat Hsend Hextract.
  unfold Fixes.generate_fix. rewrite Hneeds. cbn [negb].
  unfold Fixes.bindM at 1. unfold Fixes.resolve, Fixes.bindM at 1.
  cbn [Fixes.emit Fixes.ret]. cbv zeta. fold resolved_path.
  assert (Hpath : (if negb (bool_decide (resolved_path = file_path))
                   then resolved_path else file_path) = resolved_path).
  { case_bool_decide as Heq; cbn; [by rewrite Heq|done]. }
  assert (Hreport : (if negb (bool_decide (resolved_path = file_path))
                     then DetailedImpactReport.with_path resolved_path impact_report
                     else impact_report) = report).
  { unfold report. case_bool_decide; cbn; done. }
  rewrite !Hpath, Hreport.
  set (w1 := Fixes.mkWorld _ _ _).
  unfold Fixes.bindM at 1.
  assert (Hprint : exists w2,
            (if negb (bool_decide (resolved_path = file_path))
             then Fixes.emit (Fixes.EvPrint ("[FIX] Resolved path " +:+ file_path
                                               +:+ " -> " +:+ resolved_path))
             else Fixes.ret tt) w1 = (Ok tt, w2)
            /\ Fixes.disk w2 = Fixes.disk w /\ Fixes._fix_chat w2 = Fixes._fix_chat w).
  { destruct (negb _); eexists; (split; [reflexivity|]); by cbn. }
  destruct Hprint as (w2 & -> & Hd2 & Hc2).
  unfold Fixes.bindM at 1. unfold Fixes.read_original, Fixes.bindM at 1.
  cbn [Fixes.emit Fixes.disk]. rewrite Hd2, Hdisk.
  unfold Fixes.bindM at 1. cbn [Fixes.emit].
  set (w3 := Fixes.mkWorld _ _ _).
  unfold Fixes.bindM at 1.
  destruct (_get_fix_chat_ready create_chat w3) as (w4 & -> & Hd4).
  { subst w3. cbn. by rewrite Hc2. }
  unfold Fixes.wrap_failure, Fixes.bindM at 1. unfold Fixes.send, Fixes.bindM at 1.
  cbn [Fixes.emit]. unfold Fixes.lift at 1. rewrite Hsend.
  unfold Fixes.bindM at 1. unfold Fixes.lift at 1. rewrite Hextract.
  unfold Fixes.bindM at 1. unfold Fixes.lift at 1.
  rewrite apply_empty_diff.
  eexists. split.
  - destruct include_usage; reflexivity.
  - cbn. rewrite Hd4. subst w3. cbn. done.
Qed.

Lemma generate_fix_empty_diff_witness :
  Diff._extract_diff_content (PyStr.strip FixExample.blank_fence) = Ok EmptyString
  /\ exists w',
       FixExample.run Fixes.diff true = (Ok (Fixes.Content FixExample.original), w')
       /\ Fixes.disk w' = Fixes.disk FixExample.world.
Proof.
  split; [vm_compute; reflexivity|].
  refine (generate_fix_empty_diff_returns_original unit FixExample.fs "/repo"
            (Ok tt) FixExample.send_message (fun _ => "no such file")
            FixExample.prompt "src/a.py" (FixExample.report true) None false
            FixExample.world FixExample.original
            (Fixes.mkResponse FixExample.blank_fence None) eq_refl _ _ eq_refl _).
  - vm_compute. reflexivity.
  - right. reflexivity.
  - vm_compute. reflexivity.
Defined.

(* ===================================================================== *)
(** * _extract_diff_content                                               *)
(* ===================================================================== *)

Lemma is_empty_false (s : string) : PyStr.is_empty s = false <-> s <> EmptyString.
Proof. destruct s; cbn; split; congruence. Qed.

(** C8 (the claim fails). The output [no changes needed] normalizes to
    itself and holds no [@@] at all, and it is rejected; and an output with
    a hunk and a [---] header but no [+++] header, which does not lack both,
    is rejected too. *)
Lemma extract_rejects_output_without_hunk_markers :
  normalized_output "no changes needed" = "no changes needed"
  /\ PyStr.contains (normalized_output "no changes needed") "@@" = false
  /\ Diff._extract_diff_content "no changes needed" = Raise Diff.missing_headers
  /\ PyStr.contains (normalized_output (text ["--- a/f.py"; "@@ -1 +1 @@"; "-x"; "+y"]))
       "---" = true
  /\ Diff._extract_diff_content (text ["--- a/f.py"; "@@ -1 +1 @@"; "-x"; "+y"])
     = Raise Diff.missing_headers.
Proof. repeat split; vm_compute; reflexivity. Qed.

(** C8 (amended). [_extract_diff_content] rejects its output exactly when the
    normalized text is not empty and does not hold both [---] and [+++]
    somewhere in it, whether or not it holds hunk markers; in every other
    case it returns the normalized text. *)
Theorem extract_rejects_iff_header_missing (raw_output : string) :
  (Diff._extract_diff_content raw_output = Raise Diff.missing_headers
   <-> normalized_output raw_output <> EmptyString
       /\ (PyStr.contains (normalized_output raw_output) "---" = false
           \/ PyStr.contains (normalized_output raw_output) "+++" = false))
  /\ (Diff._extract_diff_content raw_output = Raise Diff.missing_headers
      \/ Diff._extract_diff_content raw_output = Ok (normalized_output raw_output)).
Proof.
  unfold Diff._extract_diff_content, normalized_output.
  destruct (PyStr.is_empty (PyStr.strip raw_output)) eqn:Hblank.
  - split; [|by right]. split; [discriminate|]. by intros [? _].
  - set (n := Diff.normalize_diff _).
    destruct (PyStr.is_empty n) eqn:Hn; cbn [negb andb].
    + split; [|by right]. split; [discriminate|].
      intros [Hne _]. destruct n; [done|discriminate].
    + apply is_empty_false in Hn.
      destruct (PyStr.contains n "---"), (PyStr.contains n "+++"); cbn [negb orb];
        (split; [|by (left + right)]); split; try discriminate; try tauto;
        intros [_ [?|?]]; discriminate.
Qed.

(* ===================================================================== *)
(** * resolve_repo_path                                                   *)
(* ===================================================================== *)

(** C4 (the claim fails). The candidate [./a.py] exists on disk under
    [/repo] as it is written, and [resolve_repo_path] returns [a.py], not the
    candidate. *)
Lemma resolve_changes_existing_candidate :
  Helpers.path_exists ResolveExample.fs (Helpers.path_join "/repo" "./a.py") = true
  /\ Helpers.resolve_repo_path ResolveExample.fs "/repo" "./a.py" = "a.py"
  /\ Helpers.resolve_repo_path ResolveExample.fs "/repo" "./a.py" <> "./a.py".
Proof. repeat split; vm_compute; congruence. Qed.

(** C4 (amended). When the normalized candidate exists on disk under the
    normalized root, [resolve_repo_path] returns the normalized candidate,
    [os.path.normpath] of its input; so a candidate that is already in
    normal form is returned unchanged. *)
Theorem resolve_returns_normalized_existing_candidate
  (fs : Helpers.FileSystem) (root_path candidate_path : string) :
  Helpers.path_exists fs
    (Helpers.safe_join_path (Helpers.normalize_path root_path)
                            (Helpers.normalize_path candidate_path)) = true ->
  Helpers.resolve_repo_path fs root_path candidate_path
  = Helpers.normalize_path candidate_path
  /\ (Helpers.normalize_path candidate_path = candidate_path ->
      Helpers.resolve_repo_path fs root_path candidate_path = candidate_path).
Proof.
  intros H. unfold Helpers.resolve_repo_path. rewrite H.
  split; [reflexivity|]. by intros ->.
Qed.

Lemma resolve_returns_normalized_witness :
  Helpers.resolve_repo_path ResolveExample.fs "/repo" "./a.py" = "a.py"
  /\ Helpers.resolve_repo_path ResolveExample.fs "/repo" "a.py" = "a.py".
Proof.
  split.
  - exact (proj1 (resolve_returns_normalized_existing_candidate
                    ResolveExample.fs "/repo" "./a.py" eq_refl)).
  - exact (proj2 (resolve_returns_normalized_existing_candidate
                    ResolveExample.fs "/repo" "a.py" eq_refl) eq_refl).
Defined.

(* ===================================================================== *)
(** * Lines and substrings                                                *)
(* ===================================================================== *)

Section StringFacts.
Import PyStr.

Lemma append_empty_r (s : string) : s +:+ EmptyString = s.
Proof.
  induction s as [|c s IH]; [done|].
  change (String c (s +:+ EmptyString) = String c s). by rewrite IH.
Qed.

Lemma append_assoc (a b c : string) : (a +:+ b) +:+ c = a +:+ (b +:+ c).
Proof.
  induction a as [|x a IH]; [done|].
  change (String x ((a +:+ b) +:+ c) = String x (a +:+ (b +:+ c))). by rewrite IH.
Qed.

Lemma prefix_append (p l b : string) :
  String.prefix p l = true -> String.prefix p (l +:+ b) = true.
Proof.
  revert l. induction p as [|x p IH]; intros l H; [by destruct (l +:+ b)|].
  destruct l as [|y l]; simpl in H; [done|].
  change (String y l +:+ b) with (String y (l +:+ b)). simpl.
  destruct (ascii_dec x y); [by apply IH|done].
Qed.

Lemma contains_prefix (hay p : string) :
  String.prefix p hay = true -> contains hay p = true.
Proof. intros H. destruct hay; cbn in *; by rewrite H. Qed.

(** A string that holds a line holds what the line starts with. *)
Lemma contains_middle (a l b p : string) :
  startswith l p = true -> contains (a +:+ (l +:+ b)) p = true.
Proof.
  unfold startswith. intros H. induction a as [|x a IH].
  - apply contains_prefix. change (String.prefix p (l +:+ b) = true).
    by apply prefix_append.
  - change (String x a +:+ (l +:+ b)) with (String x (a +:+ (l +:+ b))).
    simpl. rewrite IH. apply orb_true_r.
Qed.

(** Every line of [splitlines] is a piece of the text. *)
Lemma splitlines_from_piece (n : nat) (s cur l : string) :
  (String.length s <= n)%nat ->
  l ∈ splitlines_from false s cur ->
  exists a b, cur +:+ s = a +:+ (l +:+ b).
Proof.
  revert s cur. induction n as [|n IH]; intros s cur Hlen Hl.
  - destruct s; [|cbn in Hlen; lia]. cbn in Hl.
    destruct (is_empty cur); [by apply elem_of_nil in Hl|].
    apply list_elem_of_singleton in Hl as ->.
    exists EmptyString, EmptyString. reflexivity.
  - destruct s as [|c t].
    { cbn in Hl. destruct (is_empty cur); [by apply elem_of_nil in Hl|].
      apply list_elem_of_singleton in Hl as ->.
      exists EmptyString, EmptyString. reflexivity. }
    cbn in Hlen. cbn [splitlines_from] in Hl.
    assert (Hcut : forall t', (String.length t' <= n)%nat ->
              forall pre, String c t = pre +:+ t' ->
              l ∈ cur :: splitlines_from false t' EmptyString ->
              exists a b, cur +:+ String c t = a +:+ (l +:+ b)).
    { intros t' Hlen' pre Hpre Hin.
      apply elem_of_cons in Hin as [->|Hin].
      - exists EmptyString, (String c t). done.
      - destruct (IH t' EmptyString Hlen' Hin) as (a & b & Hab).
        change (EmptyString +:+ t') with t' in Hab.
        exists (cur +:+ (pre +:+ a)), b.
        by rewrite Hpre, Hab, !append_assoc. }
    destruct (Ascii.eqb c CR).
    + destruct t as [|c2 t2].
      * apply (Hcut EmptyString ltac:(cbn; lia) (String c EmptyString)); done.
      * destruct (Ascii.eqb c2 LF).
        -- apply (Hcut t2 ltac:(cbn in *; lia) (String c (String c2 EmptyString))); done.
        -- apply (Hcut (String c2 t2) ltac:(cbn in *; lia) (String c EmptyString)); done.
    + destruct (is_linebreak c).
      * apply (Hcut t ltac:(lia) (String c EmptyString)); done.
      * destruct (IH t (cur +:+ String c EmptyString) ltac:(lia) Hl) as (a & b & Hab).
        exists a, b. by rewrite <- Hab, append_assoc.
Qed.

Lemma line_prefix_in_text (diff_text l p : string) :
  l ∈ splitlines diff_text -> startswith l p = true ->
  contains diff_text p = true.
Proof.
  intros Hl Hp.
  destruct (splitlines_from_piece (String.length diff_text) diff_text EmptyString l
              ltac:(lia) Hl) as (a & b & Hab).
  change (EmptyString +:+ diff_text) with diff_text in Hab.
  rewrite Hab. by apply contains_middle.
Qed.

Lemma existsb_false_iff {A : Type} (f : A -> bool) (l : list A) :
  existsb f l = false <-> forall x, x ∈ l -> f x = false.
Proof.
  induction l as [|y l IH]; cbn.
  - split; [|done]. intros _ x Hx. by apply elem_of_nil in Hx.
  - rewrite orb_false_iff, IH. split.
    + intros [Hy Hl] x Hx. apply elem_of_cons in Hx as [->|Hx]; auto.
    + intros H. split; [apply H; left|intros x Hx; apply H; by right].
Qed.

End StringFacts.

(* ===================================================================== *)
(** * _apply_unified_diff                                                 *)
(* ===================================================================== *)

(** When no line of the diff starts with [@@], the diff is accepted as
    soon as [---] and [+++] occur in it, and the original comes back. *)
Lemma apply_without_hunks (original_content diff_text : string) :
  PyStr.contains diff_text "---" = true ->
  PyStr.contains diff_text "+++" = true ->
  (forall l, l ∈ PyStr.splitlines diff_text -> PyStr.startswith l "@@" = false) ->
  Diff._apply_unified_diff original_content diff_text = Ok original_content.
Proof.
  intros Hm Hp Hno. unfold Diff._apply_unified_diff.
  destruct (PyStr.is_empty diff_text); [done|].
  apply existsb_false_iff in Hno. rewrite Hno. cbn [negb].
  by rewrite Hm, Hp.
Qed.

(** C5. For every original content, a diff that has a [---] header line and
    a [+++] header line and no line that starts a hunk ([@@]) is applied
    without error, and the result is the original content, character for
    character. *)
Theorem headers_only_diff_is_identity (original_content diff_text : string) :
  (exists l, l ∈ PyStr.splitlines diff_text /\ PyStr.startswith l "---" = true) ->
  (exists l, l ∈ PyStr.splitlines diff_text /\ PyStr.startswith l "+++" = true) ->
  (forall l, l ∈ PyStr.splitlines diff_text -> PyStr.startswith l "@@" = false) ->
  Diff._apply_unified_diff original_content diff_text = Ok original_content.
Proof.
  intros (lm & Hlm & Hm) (lp & Hlp & Hp) Hno.
  apply apply_without_hunks; [| |done].
  - by apply (line_prefix_in_text diff_text lm).
  - by apply (line_prefix_in_text diff_text lp).
Qed.

Lemma headers_only_diff_witness :
  Diff._apply_unified_diff (text ["a"; "b"; "c"; ""])
                           (text ["--- a/f.txt"; "+++ b/f.txt"; ""])
  = Ok (text ["a"; "b"; "c"; ""]).
Proof.
  apply headers_only_diff_is_identity.
  - exists "--- a/f.txt". split; [|reflexivity]. vm_compute. left.
  - exists "+++ b/f.txt". split; [|reflexivity]. vm_compute. right. left.
  - apply existsb_false_iff. vm_compute. reflexivity.
Defined.

Section ApplyFacts.
Import PyStr Diff.
Variable original_lines : list string.

Lemma run_lines_app (pre rest : list string) (mode : Mode) (st : PatchState) :
  run_lines original_lines mode (pre ++ rest) st
  = bind (run_lines original_lines mode pre st)
         (fun '(mode', st') => run_lines original_lines mode' rest st').
Proof.
  revert mode st. induction pre as [|l pre IH]; intros mode st; [done|].
  cbn [app run_lines].
  destruct (step original_lines mode l st) as [[mode' st']|e]; cbn [bind]; [|done].
  apply IH.
Qed.

(** A line the regular expression matches starts with [@@]. *)
Lemma hunk_header_start_startswith (line : string) (start : nat) :
  hunk_header_start line = Some start -> startswith line "@@" = true.
Proof.
  unfold hunk_header_start. intros H.
  destruct (eat "@@ -" line) as [r|] eqn:He; [clear H|discriminate].
  destruct line as [|a [|b line]]; cbn [eat] in He; try discriminate.
  - by destruct (Ascii.eqb "@" a).
  - destruct (Ascii.eqb "@" a) eqn:Ha; [|discriminate].
    destruct (Ascii.eqb "@" b) eqn:Hb; [|discriminate].
    apply Ascii.eqb_eq in Ha as <-. apply Ascii.eqb_eq in Hb as <-.
    clear He. by destruct line.
Qed.

(** The header that is read behind the cursor, and only that, raises the
    overlap error. *)
Lemma hunk_header_overlap (line : string) (st : PatchState) :
  hunk_header original_lines line st = Raise hunk_overlap
  <-> exists start, hunk_header_start line = Some start
                    /\ (Nat.max start 1 - 1 < orig_index st)%nat.
Proof.
  unfold hunk_header. destruct (hunk_header_start line) as [start|].
  - destruct (Nat.ltb_spec (Nat.max start 1 - 1) (orig_index st)).
    + split; [eauto|done].
    + split; [discriminate|]. intros (s' & [= <-] & ?). lia.
  - split; [discriminate|]. by intros (? & ? & _).
Qed.

Lemma hunk_body_line_no_overlap (hunk_line : string) (st : PatchState) :
  hunk_body_line original_lines hunk_line st <> Raise hunk_overlap.
Proof.
  unfold hunk_body_line.
  repeat match goal with
         | |- context [if ?b then _ else _] => destruct b
         | |- context [match ?o with Some _ => _ | None => _ end] => destruct o
         end; discriminate.
Qed.

Lemma step_overlap (mode : Mode) (line : string) (st : PatchState) :
  step original_lines mode line st = Raise hunk_overlap
  <-> exists start, hunk_header_start line = Some start
                    /\ (Nat.max start 1 - 1 < orig_index st)%nat.
Proof.
  unfold step. destruct (startswith line "@@") eqn:Hat.
  - rewrite <- hunk_header_overlap.
    destruct (hunk_header original_lines line st); cbn [bind];
      split; congruence.
  - split.
    + destruct mode; [discriminate|].
      pose proof (hunk_body_line_no_overlap line st).
      destruct (hunk_body_line original_lines line st); cbn [bind]; congruence.
    + intros (start & Hs & _). apply hunk_header_start_startswith in Hs. congruence.
Qed.

Lemma run_lines_overlap (diff_lines : list string) (mode : Mode) (st : PatchState) :
  run_lines original_lines mode diff_lines st = Raise hunk_overlap
  <-> exists pre h rest mode' st' start,
        diff_lines = pre ++ h :: rest
        /\ run_lines original_lines mode pre st = Ok (mode', st')
        /\ hunk_header_start h = Some start
        /\ (Nat.max start 1 - 1 < orig_index st')%nat.
Proof.
  split.
  - revert mode st. induction diff_lines as [|l ls IH]; intros mode st; [discriminate|].
    cbn [run_lines].
    destruct (step original_lines mode l st) as [[mode1 st1]|e] eqn:Hstep; cbn [bind].
    + intros H. destruct (IH _ _ H) as (pre & h & rest & m' & s' & start & -> & Hrun & Hs & Hlt).
      exists (l :: pre), h, rest, m', s', start. split; [done|]. split; [|done].
      cbn [run_lines]. by rewrite Hstep.
    + intros [= ->]. apply step_overlap in Hstep as (start & Hs & Hlt).
      by exists [], l, ls, mode, st, start.
  - intros (pre & h & rest & m' & s' & start & -> & Hrun & Hs & Hlt).
    rewrite run_lines_app, Hrun. cbn [bind run_lines].
    assert (Hstep : step original_lines m' h s' = Raise hunk_overlap)
      by (apply step_overlap; eauto).
    by rewrite Hstep.
Qed.

Lemma file_header_is_no_hunk_header (line : string) :
  startswith line "---" || startswith line "+++" = true ->
  startswith line "@@" = false.
Proof.
  unfold startswith. destruct line as [|a line]; [done|]. cbn [String.prefix].
  destruct (ascii_dec "@" a) as [<-|]; [|done].
  destruct (ascii_dec "-" "@") as [[=]|_].
  destruct (ascii_dec "+" "@") as [[=]|_].
  discriminate.
Qed.

(** The nested loops of [_apply_unified_diff] end in the state that
    [run_lines] reaches line by line: the outer loop from [Outside], the
    inner loop from [InHunk]. *)
Lemma loops_run_lines (diff_lines : list string) :
  (forall st, outer_while original_lines diff_lines st
              = state_of (run_lines original_lines Outside diff_lines st))
  /\ (forall st, inner_while original_lines (outer_while original_lines) diff_lines st
                 = state_of (run_lines original_lines InHunk diff_lines st)).
Proof.
  induction diff_lines as [|l ls [IHo IHi]]; [done|].
  assert (Ho : forall st, outer_while original_lines (l :: ls) st
                          = state_of (run_lines original_lines Outside (l :: ls) st)).
  { intros st. cbn [outer_while run_lines]. unfold step.
    destruct (startswith l "---" || startswith l "+++") eqn:Hf.
    - rewrite (file_header_is_no_hunk_header l Hf). cbn [bind]. apply IHo.
    - destruct (startswith l "@@"); [|cbn [bind]; apply IHo].
      destruct (hunk_header original_lines l st) as [st'|e]; cbn [bind]; [|done].
      apply IHi. }
  split; [exact Ho|].
  intros st. cbn [inner_while run_lines]. unfold step.
  destruct (startswith l "@@") eqn:Hat.
  - rewrite Ho. cbn [run_lines]. unfold step. by rewrite Hat.
  - destruct (hunk_body_line original_lines l st) as [st'|e]; cbn [bind]; [|done].
    apply IHi.
Qed.

Lemma outer_while_run_lines (diff_lines : list string) (st : PatchState) :
  outer_while original_lines diff_lines st
  = state_of (run_lines original_lines Outside diff_lines st).
Proof. apply loops_run_lines. Qed.

Lemma state_of_raise (r : result (Mode * PatchState)) (e : exn) :
  state_of r = Raise e <-> r = Raise e.
Proof. destruct r as [[m st]|e']; cbn; split; congruence. Qed.

End ApplyFacts.

Lemma is_empty_true (s : string) : PyStr.is_empty s = true -> s = EmptyString.
Proof. by destruct s. Qed.

(** The patching loop is entered when some line of the diff starts with
    [@@]; what it raises is what [_apply_unified_diff] raises. *)
Lemma apply_with_hunks (original_content diff_text : string) (h : string) :
  h ∈ PyStr.splitlines diff_text -> PyStr.startswith h "@@" = true ->
  Diff._apply_unified_diff original_content diff_text
  = bind (Diff.state_of
            (Diff.run_lines (PyStr.splitlines_keepends original_content) Diff.Outside
               (PyStr.splitlines diff_text) Diff.initial))
         (fun st =>
            Ok (PyStr.join EmptyString
                  (Diff.patched_lines st
                   ++ drop (Diff.orig_index st)
                        (PyStr.splitlines_keepends original_content)))).
Proof.
  intros Hin Hat. unfold Diff._apply_unified_diff.
  destruct (PyStr.is_empty diff_text) eqn:He.
  { apply is_empty_true in He as ->. by apply elem_of_nil in Hin. }
  destruct (existsb _ _) eqn:Hex; cbn [negb].
  - by rewrite outer_while_run_lines.
  - rewrite existsb_false_iff in Hex. rewrite (Hex h Hin) in Hat. done.
Qed.

Lemma apply_raises_from_loop (original_content diff_text : string) (e : exn) :
  e <> Diff.no_hunks ->
  Diff._apply_unified_diff original_content diff_text = Raise e ->
  Diff.run_lines (PyStr.splitlines_keepends original_content) Diff.Outside
    (PyStr.splitlines diff_text) Diff.initial = Raise e.
Proof.
  intros Hne. unfold Diff._apply_unified_diff.
  destruct (PyStr.is_empty diff_text); [discriminate|].
  destruct (existsb _ _); cbn [negb].
  - rewrite outer_while_run_lines.
    destruct (Diff.run_lines _ _ _ _) as [[m st]|e']; cbn [bind Diff.state_of];
      [discriminate|by intros [= ->]].
  - destruct (_ && _); [discriminate|]. congruence.
Qed.

(** C6 (the claim fails). The second header declares the start 0, so the
    index start - 1 is -1, strictly behind the cursor 0 left by the first
    hunk; the diff is applied all the same, with no overlap error. *)
Lemma start_zero_behind_cursor_is_accepted :
  PyStr.splitlines OverlapExample.diff_text
  = OverlapExample.before ++ OverlapExample.header :: ["+y"]
  /\ Diff.run_lines (PyStr.splitlines_keepends OverlapExample.original) Diff.Outside
       OverlapExample.before Diff.initial
     = Ok (Diff.InHunk, Diff.mkPatch [text ["x"; ""]] 0)
  /\ Diff.hunk_header_start OverlapExample.header = Some 0
  /\ (Z.of_nat 0 - 1 < Z.of_nat 0)%Z
  /\ Diff._apply_unified_diff OverlapExample.original OverlapExample.diff_text
     = Ok (text ["x"; "y"; "a"; ""]).
Proof. repeat split; vm_compute; reflexivity. Qed.

(** C6 (amended). [_apply_unified_diff] raises the overlap error exactly
    when it reaches a hunk header whose declared start, read as the index
    [max(start, 1) - 1] (a declared start of 0 counts as 1), is strictly
    behind the cursor left by the lines before it; headers whose index is at
    or after the cursor never raise it. *)
Theorem hunk_overlap_iff_start_behind_cursor (original_content diff_text : string) :
  Diff._apply_unified_diff original_content diff_text = Raise Diff.hunk_overlap
  <-> exists (pre : list string) (h : string) (rest : list string)
             (mode : Diff.Mode) (st : Diff.PatchState) (start : nat),
        PyStr.splitlines diff_text = pre ++ h :: rest
        /\ Diff.run_lines (PyStr.splitlines_keepends original_content) Diff.Outside
             pre Diff.initial = Ok (mode, st)
        /\ Diff.hunk_header_start h = Some start
        /\ (Nat.max start 1 - 1 < Diff.orig_index st)%nat.
Proof.
  rewrite <- run_lines_overlap. split.
  - apply apply_raises_from_loop. discriminate.
  - intros H. pose proof H as H'.
    apply run_lines_overlap in H' as (pre & h & rest & m & st & start & Heq & _ & Hs & _).
    rewrite (apply_with_hunks original_content diff_text h).
    + by rewrite H.
    + rewrite Heq. apply elem_of_app. right. left.
    + by apply hunk_header_start_startswith in Hs.
Qed.

(** The overlap error on a diff whose second hunk starts where the first
    already was. *)
Lemma hunk_overlap_example :
  Diff._apply_unified_diff OverlapExample.original OverlapExample.overlapping
  = Raise Diff.hunk_overlap.
Proof.
  apply hunk_overlap_iff_start_behind_cursor.
  exists ["--- a/f.txt"; "+++ b/f.txt"; "@@ -1 +1 @@"; "-a"; "+A"], "@@ -1 +1 @@", ["+z"],
         Diff.InHunk, (Diff.mkPatch [text ["A"; ""]] 1), 1.
  repeat split; vm_compute; reflexivity || lia.
Defined.

Section HunkBodyFacts.
Import PyStr Diff.
Variable original_lines : list string.

(** The inner loop is entered at a line that starts with [@@]. *)
Lemma in_hunk_after_header (pre : list string) (mode : Mode) (st st' : PatchState) :
  run_lines original_lines mode pre st = Ok (InHunk, st') ->
  mode = InHunk \/ exists h, h ∈ pre /\ startswith h "@@" = true.
Proof.
  revert mode st. induction pre as [|l pre IH]; intros mode st.
  - cbn. intros [= -> _]. by left.
  - cbn [run_lines]. unfold step.
    destruct (startswith l "@@") eqn:Hat.
    { intros _. right. exists l. split; [left|done]. }
    destruct mode; [|by left]. cbn [bind]. intros H.
    destruct (IH _ _ H) as [?|(h & Hh & Hp)]; [done|].
    right. exists h. split; [by right|done].
Qed.

Lemma startswith_longer (l : string) (c : ascii) (p : string) :
  startswith l (String c EmptyString) = false ->
  startswith l (String c p) = false.
Proof.
  unfold startswith. destruct l as [|a l]; [done|]. simpl.
  destruct (ascii_dec c a); [|done]. by destruct l.
Qed.

(** A line of the inner loop that has none of the shapes the loop knows:
    it is fatal unless it is blank, and a blank line adds a line feed. *)
Lemma hunk_body_line_other (l : string) (st : PatchState) :
  startswith l " " = false -> startswith l "-" = false ->
  startswith l "+" = false -> startswith l no_newline_marker = false ->
  hunk_body_line original_lines l st
  = if is_empty (strip l)
    then Ok (mkPatch (patched_lines st ++ [NL]) (orig_index st))
    else Raise (unrecognized l).
Proof.
  intros Hs Hm Hp Hn. unfold hunk_body_line.
  rewrite (startswith_longer l "-" "--" Hm), (startswith_longer l "+" "++" Hp).
  cbn [orb]. by rewrite Hn, Hs, Hm, Hp.
Qed.

End HunkBodyFacts.

(** C7 (the claim fails). The empty line in the body of the hunk is no
    context, removal or addition line and no marker, and it is accepted: it
    puts an empty line in the output. *)
Lemma blank_hunk_line_is_accepted :
  PyStr.splitlines BlankLineExample.diff_text
  = BlankLineExample.before ++ EmptyString :: [" a"]
  /\ Diff.run_lines (PyStr.splitlines_keepends BlankLineExample.original) Diff.Outside
       BlankLineExample.before Diff.initial
     = Ok (Diff.InHunk, Diff.mkPatch [] 0)
  /\ PyStr.startswith EmptyString " " = false
  /\ PyStr.startswith EmptyString "-" = false
  /\ PyStr.startswith EmptyString "+" = false
  /\ PyStr.startswith EmptyString Diff.no_newline_marker = false
  /\ Diff._apply_unified_diff BlankLineExample.original BlankLineExample.diff_text
     = Ok (text [""; "a"; ""]).
Proof. repeat split; vm_compute; reflexivity. Qed.

(** C7 (amended). A line read in the body of a hunk that is no hunk header
    ([@@]), no context, removal or addition line and no "no newline" marker
    is fatal with the "unrecognized diff line" error of that line, unless it
    is blank (empty or white space only): a blank line is accepted and adds
    an empty line to the output. *)
Theorem unrecognized_hunk_line_is_fatal
  (original_content diff_text : string) (pre : list string) (l : string)
  (rest : list string) (st : Diff.PatchState) :
  PyStr.splitlines diff_text = pre ++ l :: rest ->
  Diff.run_lines (PyStr.splitlines_keepends original_content) Diff.Outside pre Diff.initial
  = Ok (Diff.InHunk, st) ->
  PyStr.startswith l "@@" = false ->
  PyStr.startswith l " " = false ->
  PyStr.startswith l "-" = false ->
  PyStr.startswith l "+" = false ->
  PyStr.startswith l Diff.no_newline_marker = false ->
  (PyStr.is_empty (PyStr.strip l) = false ->
   Diff._apply_unified_diff original_content diff_text = Raise (Diff.unrecognized l))
  /\ (PyStr.is_empty (PyStr.strip l) = true ->
      Diff.hunk_body_line (PyStr.splitlines_keepends original_content) l st
      = Ok (Diff.mkPatch (Diff.patched_lines st ++ [NL]) (Diff.orig_index st))).
Proof.
  intros Heq Hrun Hat Hs Hm Hp Hn.
  pose proof (hunk_body_line_other (PyStr.splitlines_keepends original_content)
                l st Hs Hm Hp Hn) as Hline.
  split; intros Hblank; rewrite Hblank in Hline; [|done].
  destruct (in_hunk_after_header _ _ _ _ _ Hrun) as [?|(h & Hh & Hhat)]; [done|].
  rewrite (apply_with_hunks original_content diff_text h); [|rewrite Heq|done].
  - rewrite Heq, run_lines_app, Hrun. cbn [bind Diff.run_lines].
    unfold Diff.step. by rewrite Hat, Hline.
  - apply elem_of_app. by left.
Qed.

Lemma unrecognized_hunk_line_witness :
  Diff._apply_unified_diff BlankLineExample.original BlankLineExample.garbled
  = Raise (ValueError "Unrecognized diff line: ?? a").
Proof.
  exact (proj1 (unrecognized_hunk_line_is_fatal BlankLineExample.original
                  BlankLineExample.garbled BlankLineExample.before "?? a" [" a"]
                  (Diff.mkPatch [] 0) eq_refl eq_refl eq_refl eq_refl eq_refl eq_refl
                  eq_refl) eq_refl).
Defined.

(* ===================================================================== *)
(** * Further properties                                                  *)
(* ===================================================================== *)

(** X1. The evidence level of an entry never goes back: an entry the
    escalation policy queues for the next round was not at the raw-content
    level, keeps its path and its kind, and either is now at the raw-content
    level or is the entry itself, unchanged; and this happens below the cap
    only. *)
Theorem escalate_never_regresses
  (env : Analysis.Environment) (max_iterations iteration : nat)
  (entry entry' : UnsureEntry.t) :
  Analysis.escalate env max_iterations iteration entry = Some entry' ->
  (iteration < max_iterations)%nat
  /\ UnsureEntry.needed_info entry <> "raw_content"
  /\ UnsureEntry.path entry' = UnsureEntry.path entry
  /\ UnsureEntry.is_dir entry' = UnsureEntry.is_dir entry
  /\ (UnsureEntry.needed_info entry' = "raw_content" \/ entry' = entry).
Proof.
  unfold Analysis.escalate.
  destruct (Nat.ltb_spec iteration max_iterations) as [Hlt|]; [|discriminate].
  destruct (bool_decide (UnsureEntry.needed_info entry = "file_overview")) eqn:Ho.
  { apply bool_decide_eq_true in Ho. cbn [orb]. intros [= <-]. cbn.
    repeat split; auto. by rewrite Ho. }
  destruct (bool_decide (UnsureEntry.needed_info entry = "file_metadata")) eqn:Hm.
  { apply bool_decide_eq_true in Hm. cbn [orb]. intros [= <-]. cbn.
    repeat split; auto. by rewrite Hm. }
  cbn [orb].
  destruct (bool_decide (UnsureEntry.needed_info entry = "raw_content")) eqn:Hr;
    [discriminate|].
  apply bool_decide_eq_false in Hr.
  destruct (UnsureEntry.is_dir entry) eqn:Hd; [|discriminate].
  destruct (negb _); [|discriminate].
  intros [= <-]. repeat split; auto.
Qed.

Lemma escalate_never_regresses_witness :
  UnsureEntry.needed_info
    (UnsureEntry.mk "src/a.py" false
       "Escalated from overview: may import the changed module" "raw_content")
  = "raw_content"
  \/ UnsureEntry.mk "src/a.py" false
       "Escalated from overview: may import the changed module" "raw_content"
     = LowConfidence.entry.
Proof.
  exact (proj2 (proj2 (proj2 (proj2
           (escalate_never_regresses (LowConfidence.env true) 3 1 LowConfidence.entry
              _ eq_refl))))).
Defined.

(** X2. A diff that is not empty, has no line that starts with [@@] and
    lacks [---] or [+++] is refused: it has no hunks. *)
Theorem diff_without_hunks_or_headers_is_refused (original_content diff_text : string) :
  diff_text <> EmptyString ->
  (forall l, l ∈ PyStr.splitlines diff_text -> PyStr.startswith l "@@" = false) ->
  PyStr.contains diff_text "---" = false \/ PyStr.contains diff_text "+++" = false ->
  Diff._apply_unified_diff original_content diff_text = Raise Diff.no_hunks.
Proof.
  intros Hne Hno Hmiss. unfold Diff._apply_unified_diff.
  apply is_empty_false in Hne. rewrite Hne.
  apply existsb_false_iff in Hno. rewrite Hno. cbn [negb].
  by destruct Hmiss as [-> | ->]; rewrite ?andb_false_r.
Qed.

Lemma diff_without_hunks_witness :
  Diff._apply_unified_diff (text ["a"; ""]) "nothing to change"
  = Raise (ValueError "Diff output does not contain any hunks").
Proof.
  apply diff_without_hunks_or_headers_is_refused.
  - discriminate.
  - apply existsb_false_iff. reflexivity.
  - left. reflexivity.
Defined.

(* ===================================================================== *)
(** * What a patch does to the original                                   *)
(* ===================================================================== *)

Section PatchFacts.
Import PyStr Diff.

Lemma join_empty_cons (x : string) (l : list string) :
  join EmptyString (x :: l) = x +:+ join EmptyString l.
Proof.
  unfold join. destruct l as [|y l]; simpl.
  - by rewrite append_empty_r.
  - reflexivity.
Qed.

Lemma join_empty_app (l1 l2 : list string) :
  join EmptyString (l1 ++ l2) = join EmptyString l1 +:+ join EmptyString l2.
Proof.
  induction l1 as [|x l1 IH]; [done|].
  change ((x :: l1) ++ l2) with (x :: (l1 ++ l2)).
  by rewrite !join_empty_cons, IH, append_assoc.
Qed.

Lemma splitlines_from_keepends_join (n : nat) (s cur : string) :
  (String.length s <= n)%nat ->
  join EmptyString (splitlines_from true s cur) = cur +:+ s.
Proof.
  revert s cur. induction n as [|n IH]; intros s cur Hlen.
  - destruct s; [|cbn in Hlen; lia]. cbn [splitlines_from].
    destruct cur; [done|]. cbn [is_empty]. by rewrite join_empty_cons.
  - destruct s as [|c t].
    { cbn [splitlines_from]. destruct cur; [done|]. cbn [is_empty].
      by rewrite join_empty_cons. }
    cbn in Hlen. cbn [splitlines_from].
    assert (Hcut : forall ending t', (String.length t' <= n)%nat ->
              String c t = ending +:+ t' ->
              join EmptyString
                ((cur +:+ ending) :: splitlines_from true t' EmptyString)
              = cur +:+ String c t).
    { intros ending t' Hlen' ->. rewrite join_empty_cons, (IH t' EmptyString Hlen').
      change (EmptyString +:+ t') with t'. by rewrite append_assoc. }
    destruct (Ascii.eqb c CR).
    + destruct t as [|c2 t2].
      * by apply (Hcut (String c EmptyString) EmptyString); [cbn; lia|].
      * destruct (Ascii.eqb c2 LF).
        -- by apply (Hcut (String c (String c2 EmptyString)) t2); [cbn in *; lia|].
        -- by apply (Hcut (String c EmptyString) (String c2 t2)); [cbn in *; lia|].
    + destruct (is_linebreak c).
      * by apply (Hcut (String c EmptyString) t); [lia|].
      * rewrite (IH t (cur +:+ String c EmptyString)) by lia.
        by rewrite append_assoc.
Qed.

(** The lines of a text, kept with their ends, make up the text. *)
Lemma join_splitlines_keepends (s : string) :
  join EmptyString (splitlines_keepends s) = s.
Proof.
  unfold splitlines_keepends.
  by rewrite (splitlines_from_keepends_join (String.length s)).
Qed.

End PatchFacts.


Section PatchRun.
Import PyStr Diff.
Variable original_lines : list string.


(** The three kinds of line of a hunk body. *)
Lemma hunk_body_context (hunk_line : string) (st : PatchState) :
  startswith hunk_line " " = true ->
  hunk_body_line original_lines hunk_line st
  = match original_lines !! orig_index st with
    | Some l => Ok (mkPatch (patched_lines st ++ [l]) (S (orig_index st)))
    | None => Raise context_overrun
    end.
Proof.
  intros Hs. unfold hunk_body_line. rewrite Hs.
  unfold startswith in *. destruct hunk_line as [|a l]; [done|].
  cbn [String.prefix] in *.
  destruct (ascii_dec " " a) as [<-|]; [|done].
  unfold no_newline_marker. cbn [String.prefix].
  destruct (ascii_dec "-" " ") as [[=]|_].
  destruct (ascii_dec "+" " ") as [[=]|_].
  destruct (ascii_dec "\" " ") as [[=]|_].
  reflexivity.
Qed.



Lemma body_line_is_no_header (l : string) (c : ascii) :
  c <> "@"%char -> startswith l (String c EmptyString) = true ->
  startswith l "@@" = false.
Proof.
  intros Hc. unfold startswith. destruct l as [|a l]; [done|].
  cbn [String.prefix].
  destruct (ascii_dec c a) as [<-|]; [|done].
  intros _. by destruct (ascii_dec "@" c) as [<-|].
Qed.


Lemma hunk_header_copied (line : string) (st st' : PatchState) :
  copied_so_far original_lines st ->
  hunk_header original_lines line st = Ok st' -> copied_so_far original_lines st'.
Proof.
  unfold copied_so_far, hunk_header. intros Hinv.
  destruct (hunk_header_start line) as [start|]; [|by intros [= <-]].
  destruct (Nat.ltb_spec (Nat.max start 1 - 1) (orig_index st)) as [|Hle];
    [discriminate|].
  intros [= <-]. cbn [patched_lines orig_index]. rewrite Hinv. unfold slice.
  set (hs := Nat.max start 1 - 1) in *.
  rewrite <- (take_drop (orig_index st) (take hs original_lines)) at 2.
  f_equal. rewrite take_take. f_equal. lia.
Qed.

Lemma hunk_body_neutral_copied (l : string) (st st' : PatchState) :
  copied_so_far original_lines st -> startswith l "@@" = false -> neutral_line l ->
  hunk_body_line original_lines l st = Ok st' -> copied_so_far original_lines st'.
Proof.
  unfold copied_so_far. intros Hinv Hat [Hn|[Hs|Hh]]; [congruence| |].
  - rewrite (hunk_body_context l st Hs).
    destruct (original_lines !! orig_index st) as [x|] eqn:Hx; [|discriminate].
    intros [= <-]. cbn [patched_lines orig_index].
    by rewrite Hinv, (take_S_r _ _ _ Hx).
  - unfold hunk_body_line. rewrite Hh. by intros [= <-].
Qed.

Lemma run_neutral_copied (diff_lines : list string) (mode mode' : Mode)
  (st st' : PatchState) :
  Forall neutral_line diff_lines -> copied_so_far original_lines st ->
  run_lines original_lines mode diff_lines st = Ok (mode', st') ->
  copied_so_far original_lines st'.
Proof.
  intros Hall. revert mode st. induction Hall as [|l ls Hl _ IH]; intros mode st Hinv.
  - by intros [= _ <-].
  - cbn [run_lines]. unfold step.
    destruct (startswith l "@@") eqn:Hat.
    + destruct (hunk_header original_lines l st) as [st1|] eqn:Hh; [|discriminate].
      cbn [bind]. apply IH. by apply (hunk_header_copied l st).
    + destruct mode; cbn [bind]; [by apply IH|].
      destruct (hunk_body_line original_lines l st) as [st1|] eqn:Hb; [|discriminate].
      cbn [bind]. apply IH. by apply (hunk_body_neutral_copied l st).
Qed.

End PatchRun.


(** X3. A diff made of file headers, hunk headers and context lines only
    never changes the file: when it applies, the result is the original
    content, whatever the headers say and however many hunks there are. *)
Theorem context_only_diff_is_identity (original_content diff_text result : string) :
  Forall neutral_line (PyStr.splitlines diff_text) ->
  Diff._apply_unified_diff original_content diff_text = Ok result ->
  result = original_content.
Proof.
  intros Hall. unfold Diff._apply_unified_diff.
  destruct (PyStr.is_empty diff_text); [by intros [= <-]|].
  destruct (existsb _ _); cbn [negb].
  - rewrite outer_while_run_lines.
    destruct (Diff.run_lines _ _ _ _) as [[m st]|e] eqn:Hrun; [|discriminate].
    cbn [Diff.state_of bind]. intros [= <-].
    assert (Hc : copied_so_far (PyStr.splitlines_keepends original_content) st).
    { by apply (run_neutral_copied _ _ _ _ _ _ Hall) in Hrun. }
    rewrite Hc, take_drop. apply join_splitlines_keepends.
  - destruct (_ && _); [by intros [= <-]|discriminate].
Qed.

Lemma context_only_diff_witness :
  Diff._apply_unified_diff (text ["a"; "b"; "c"; ""])
    (text ["--- f"; "+++ f"; "@@ -1,2 +1,2 @@"; " a"; " x"; "@@ -3 +3 @@"; " c"])
  = Ok (text ["a"; "b"; "c"; ""]).
Proof.
  destruct (Diff._apply_unified_diff (text ["a"; "b"; "c"; ""])
              (text ["--- f"; "+++ f"; "@@ -1,2 +1,2 @@"; " a"; " x"; "@@ -3 +3 @@"; " c"]))
    as [result|e] eqn:Hrun; [|by vm_compute in Hrun].
  f_equal.
  apply (context_only_diff_is_identity (text ["a"; "b"; "c"; ""])
           (text ["--- f"; "+++ f"; "@@ -1,2 +1,2 @@"; " a"; " x"; "@@ -3 +3 @@"; " c"]));
    [|exact Hrun].
  vm_compute.
  repeat (apply Forall_cons_2;
          [first [left; reflexivity | right; left; reflexivity
                 | right; right; reflexivity]|]).
  apply Forall_nil_2.
Defined.

Section HunkRuns.
Import PyStr Diff.
Variable original_lines : list string.



End HunkRuns.




(** X5. A diff that [_extract_diff_content] accepted and that has no hunk
    header is applied as the identity: the "no hunks" error cannot follow
    a successful extraction. *)
Theorem extracted_diff_without_hunks_is_identity
  (raw_output diff_output original_content : string) :
  Diff._extract_diff_content raw_output = Ok diff_output ->
  (forall l, l ∈ PyStr.splitlines diff_output -> PyStr.startswith l "@@" = false) ->
  Diff._apply_unified_diff original_content diff_output = Ok original_content.
Proof.
  unfold Diff._extract_diff_content. intros Hex Hno.
  destruct (PyStr.is_empty (PyStr.strip raw_output)); [by injection Hex as <-|].
  destruct (PyStr.is_empty (Diff.normalize_diff _)) eqn:He; cbn [negb andb] in Hex.
  - injection Hex as <-. apply is_empty_true in He. by rewrite He.
  - destruct (PyStr.contains _ "---") eqn:Hm; [|discriminate].
    destruct (PyStr.contains _ "+++") eqn:Hp; [|discriminate].
    injection Hex as <-. by apply apply_without_hunks.
Qed.

Lemma extracted_diff_without_hunks_witness :
  Diff._apply_unified_diff (text ["a"; ""]) (text ["--- a/f.txt"; "+++ b/f.txt"])
  = Ok (text ["a"; ""]).
Proof.
  apply (extracted_diff_without_hunks_is_identity
           (text ["```diff"; "diff --git a/f.txt b/f.txt"; "--- a/f.txt"; "+++ b/f.txt"; "```"])).
  - vm_compute. reflexivity.
  - apply existsb_false_iff. vm_compute. reflexivity.
Defined.

(** X6. A context line read when the cursor is past the last line of the
    original is fatal: the patch is refused with the "context line exceeds"
    error. *)
Theorem context_line_past_the_end_is_fatal
  (original_content diff_text : string) (pre : list string) (l : string)
  (rest : list string) (st : Diff.PatchState) :
  PyStr.splitlines diff_text = pre ++ l :: rest ->
  Diff.run_lines (PyStr.splitlines_keepends original_content) Diff.Outside pre Diff.initial
  = Ok (Diff.InHunk, st) ->
  PyStr.startswith l " " = true ->
  (length (PyStr.splitlines_keepends original_content) <= Diff.orig_index st)%nat ->
  Diff._apply_unified_diff original_content diff_text = Raise Diff.context_overrun.
Proof.
  intros Heq Hrun Hs Hlen.
  destruct (in_hunk_after_header _ _ _ _ _ Hrun) as [?|(h & Hh & Hhat)]; [done|].
  rewrite (apply_with_hunks original_content diff_text h); [|rewrite Heq|done].
  - rewrite Heq, run_lines_app, Hrun. cbn [bind Diff.run_lines].
    unfold Diff.step.
    rewrite (body_line_is_no_header l " ") by done.
    rewrite hunk_body_context by done.
    by rewrite (lookup_ge_None_2 _ _ Hlen).
  - apply elem_of_app. by left.
Qed.

Lemma context_line_past_the_end_witness :
  Diff._apply_unified_diff (text ["a"; ""]) (text ["@@ -1,2 +1,2 @@"; " a"; " b"; ""])
  = Raise (ValueError "Context line exceeds original file length").
Proof.
  apply (context_line_past_the_end_is_fatal (text ["a"; ""])
           (text ["@@ -1,2 +1,2 @@"; " a"; " b"; ""])
           ["@@ -1,2 +1,2 @@"; " a"] " b" [] (Diff.mkPatch [text ["a"; ""]] 1));
    [reflexivity|reflexivity|reflexivity|].
  vm_compute. lia.
Defined.

Section CursorFacts.
Import PyStr Diff.
Variable original_lines : list string.

Lemma hunk_body_line_cursor (l : string) (st st' : PatchState) :
  hunk_body_line original_lines l st = Ok st' ->
  (orig_index st <= orig_index st')%nat.
Proof.
  unfold hunk_body_line.
  repeat match goal with
         | |- context [if ?b then _ else _] => destruct b
         | |- context [match ?o with Some _ => _ | None => _ end] => destruct o
         end; intros [= <-]; cbn; lia.
Qed.

Lemma hunk_header_cursor (l : string) (st st' : PatchState) :
  hunk_header original_lines l st = Ok st' ->
  (orig_index st <= orig_index st')%nat.
Proof.
  unfold hunk_header. destruct (hunk_header_start l) as [start|]; [|by intros [= <-]].
  destruct (Nat.ltb_spec (Nat.max start 1 - 1) (orig_index st)); [discriminate|].
  by intros [= <-].
Qed.

End CursorFacts.

(** X7. The cursor into the original never moves back: whatever lines of a
    diff have been read without error, in whatever order, the cursor is at
    or after the place it started from. *)
Theorem run_lines_cursor_never_moves_back
  (original_lines diff_lines : list string) (mode mode' : Diff.Mode)
  (st st' : Diff.PatchState) :
  Diff.run_lines original_lines mode diff_lines st = Ok (mode', st') ->
  (Diff.orig_index st <= Diff.orig_index st')%nat.
Proof.
  revert mode st. induction diff_lines as [|l ls IH]; intros mode st.
  - by intros [= _ <-].
  - cbn [Diff.run_lines]. unfold Diff.step.
    destruct (PyStr.startswith l "@@").
    + destruct (Diff.hunk_header original_lines l st) as [st1|] eqn:Hh; [|discriminate].
      cbn [bind]. intros H. apply IH in H.
      apply hunk_header_cursor in Hh. lia.
    + destruct mode; cbn [bind]; [apply IH|].
      destruct (Diff.hunk_body_line original_lines l st) as [st1|] eqn:Hb; [|discriminate].
      cbn [bind]. intros H. apply IH in H.
      apply hunk_body_line_cursor in Hb. lia.
Qed.

Lemma run_lines_cursor_witness :
  Diff.run_lines ["a" +:+ NL] Diff.Outside ["@@ -1 +1 @@"; "-a"; "+A"] Diff.initial
  = Ok (Diff.InHunk, Diff.mkPatch ["A" +:+ NL] 1)
  /\ (Diff.orig_index Diff.initial <= Diff.orig_index (Diff.mkPatch ["A" +:+ NL] 1))%nat.
Proof.
  split; [reflexivity|].
  exact (run_lines_cursor_never_moves_back ["a" +:+ NL] ["@@ -1 +1 @@"; "-a"; "+A"]
           Diff.Outside Diff.InHunk Diff.initial (Diff.mkPatch ["A" +:+ NL] 1) eq_refl).
Defined.


(* ===================================================================== *)
(** * What generate_fix does to the world and what it returns             *)
(* ===================================================================== *)

Section GenerateFixSteps.
Import Fixes.
Variable CommitDiff : Type.
Variable fs : Helpers.FileSystem.
Variable root_path : string.
Variable output_style : OutputStyle.
Variable create_chat : result unit.
Variable send_message : string -> result ChatResponse.
Variable os_error : string -> string.
Variable _build_fix_prompt :
  string -> string -> DetailedImpactReport.t -> option CommitDiff -> string -> string.




End GenerateFixSteps.







(* ===================================================================== *)
(** * The heuristics of resolve_repo_path                                 *)
(* ===================================================================== *)

Section SegmentFacts.
Import Helpers.

Lemma no_adjacent_repeat_snoc (l : list string) (seg : string) :
  no_adjacent_repeat l -> last l <> Some seg -> no_adjacent_repeat (l ++ [seg]).
Proof.
  intros Hl Hlast l1 x l2 Heq.
  destruct l2 as [|y l2 _] using rev_ind.
  - change (l1 ++ [x; x]) with (l1 ++ [x] ++ [x]) in Heq.
    rewrite app_assoc in Heq. apply app_inj_tail in Heq as [-> ->].
    apply Hlast. by rewrite last_snoc.
  - change (l1 ++ x :: x :: l2 ++ [y]) with (l1 ++ (x :: x :: l2) ++ [y]) in Heq.
    rewrite app_assoc in Heq. apply app_inj_tail in Heq as [-> _].
    by apply (Hl l1 x l2).
Qed.

Lemma dedup_step_cases (acc : list string) (seg : string) :
  (last acc = Some seg /\ dedup_step acc seg = acc)
  \/ (last acc <> Some seg /\ dedup_step acc seg = acc ++ [seg]).
Proof.
  unfold dedup_step. case_bool_decide as Hl.
  - left. split; [done|]. destruct acc; [done|]. reflexivity.
  - right. split; [done|]. by rewrite andb_false_r.
Qed.

Lemma dedup_foldl_facts (segments acc : list string) :
  no_adjacent_repeat acc ->
  no_adjacent_repeat (foldl dedup_step acc segments)
  /\ (forall x, x ∈ foldl dedup_step acc segments <-> x ∈ acc \/ x ∈ segments)
  /\ (no_adjacent_repeat (acc ++ segments) -> foldl dedup_step acc segments = acc ++ segments).
Proof.
  revert acc. induction segments as [|seg segs IH]; intros acc Hacc.
  - cbn. split; [done|]. split; [|by rewrite app_nil_r].
    intros x. rewrite elem_of_nil. tauto.
  - cbn [foldl].
    destruct (dedup_step_cases acc seg) as [[Hl ->]|[Hl ->]].
    + destruct (IH acc Hacc) as (H1 & H2 & H3). split; [done|]. split.
      * intros x. rewrite H2, elem_of_cons. split; [tauto|].
        intros [?|[->|?]]; [tauto| |tauto]. left.
        apply last_Some in Hl as [l' ->]. apply elem_of_app. right. left.
      * intros Hno. exfalso. apply last_Some in Hl as [l' ->].
        apply (Hno l' seg segs). by rewrite <- app_assoc.
    + destruct (IH (acc ++ [seg]) (no_adjacent_repeat_snoc _ _ Hacc Hl)) as (H1 & H2 & H3).
      split; [done|]. split.
      * intros x. rewrite H2, elem_of_app, list_elem_of_singleton, elem_of_cons. tauto.
      * rewrite <- app_assoc in H3. exact H3.
Qed.

End SegmentFacts.

(** X11. The segment list that [resolve_repo_path] builds for its second
    heuristic has no segment followed by an equal one; it has the same
    segments as the list it was built from; and a list that had no such
    repeat is left as it was (so the heuristic is skipped for it). *)
Theorem collapsed_segments_have_no_repeat (segments : list string) :
  no_adjacent_repeat (foldl Helpers.dedup_step [] segments)
  /\ (forall x, x ∈ foldl Helpers.dedup_step [] segments <-> x ∈ segments)
  /\ (no_adjacent_repeat segments -> foldl Helpers.dedup_step [] segments = segments).
Proof.
  destruct (dedup_foldl_facts segments []) as (H1 & H2 & H3).
  - intros l1 x l2 Heq. by destruct l1.
  - split; [done|]. split; [|exact H3].
    intros x. rewrite H2, elem_of_nil. tauto.
Qed.


(* ===================================================================== *)
(** * os.path.normpath                                                    *)
(* ===================================================================== *)

Section NormpathFacts.
Import PyStr Helpers.

Lemma split_on_plain (c : ascii) (s : string) :
  has_char c s = false -> split_on c s = [s].
Proof.
  induction s as [|a t IH]; [done|]. cbn [has_char split_on].
  destruct (Ascii.eqb a c); [done|]. cbn [orb]. intros H. by rewrite (IH H).
Qed.

Lemma split_on_sep (c : ascii) (a b : string) :
  has_char c a = false -> split_on c (a +:+ String c b) = a :: split_on c b.
Proof.
  induction a as [|x t IH]; intros H.
  - change (EmptyString +:+ String c b) with (String c b).
    cbn [split_on]. by rewrite Ascii.eqb_refl.
  - change (String x t +:+ String c b) with (String x (t +:+ String c b)).
    cbn [has_char] in H. cbn [split_on].
    destruct (Ascii.eqb x c); [done|]. cbn [orb] in H. by rewrite (IH H).
Qed.

Lemma split_on_parts (c : ascii) (s : string) :
  Forall (fun x => has_char c x = false) (split_on c s).
Proof.
  induction s as [|a t IH]; cbn [split_on].
  - by constructor.
  - destruct (Ascii.eqb a c) eqn:E.
    + by constructor.
    + destruct (split_on c t) as [|h r].
      * constructor; [|done]. cbn [has_char]. by rewrite E.
      * inversion IH; subst. constructor; [|done]. cbn [has_char]. by rewrite E.
Qed.

Lemma split_on_join (c : ascii) (l : list string) :
  l <> [] -> Forall (fun x => has_char c x = false) l ->
  split_on c (join (String c EmptyString) l) = l.
Proof.
  induction l as [|x l IH]; intros Hne Hall; [done|].
  inversion Hall as [|? ? Hx Hl]; subst.
  destruct l as [|y r].
  - by apply split_on_plain.
  - change (join (String c EmptyString) (x :: y :: r))
      with (x +:+ String c (join (String c EmptyString) (y :: r))).
    rewrite split_on_sep by done. f_equal. by apply IH.
Qed.

Lemma join_head (s : string) (a : ascii) (t : string) (r : list string) :
  exists z, join s (String a t :: r) = String a z.
Proof. destruct r; [by exists t|]. by eexists. Qed.

Lemma parent_refs_lead_prefix (k : nat) (a b : list string) :
  parent_refs_lead k (a ++ b) -> parent_refs_lead k a.
Proof.
  intros H l1 l2 ->. apply (H l1 (l2 ++ b)). by rewrite <- app_assoc.
Qed.

Lemma normal_comps_prefix (k : nat) (a b : list string) :
  normal_comps k (a ++ b) -> normal_comps k a.
Proof.
  intros [H1 H2]. split.
  - by apply Forall_app in H1 as [? _].
  - by apply parent_refs_lead_prefix in H2.
Qed.

Lemma normal_comps_nil (k : nat) : normal_comps k [].
Proof. split; [constructor|]. intros l1 l2 H. by destruct l1. Qed.

Lemma plain_parent : plain_component "..".
Proof. by repeat split. Qed.

Lemma all_parents_last (l : list string) :
  Forall (eq "..") l -> l <> [] -> last l = Some "..".
Proof.
  destruct l as [|x l _] using rev_ind; [done|]. intros H _.
  apply Forall_app in H as [_ H]. inversion H; subst. by rewrite last_snoc.
Qed.

Lemma normpath_step_normal (k : nat) (acc : list string) (x : string) :
  has_char sep x = false -> normal_comps k acc ->
  normal_comps k (normpath_step k acc x).
Proof.
  intros Hx Hacc. unfold normpath_step.
  destruct (bool_decide (x = EmptyString)) eqn:E1; [done|].
  destruct (bool_decide (x = ".")) eqn:E2; [done|]. cbn [orb].
  apply bool_decide_eq_false in E1, E2.
  destruct (bool_decide (x = "..")) eqn:E3; cbn [negb orb].
  - apply bool_decide_eq_true in E3. subst x.
    destruct (decide (acc = [])) as [->|Hne].
    + cbn [is_nil negb andb orb]. rewrite andb_true_r.
      case_bool_decide as Hk; [|apply normal_comps_nil].
      split; [constructor; [apply plain_parent|constructor]|].
      intros l1 l2 H. destruct l1 as [|? [|? ?]]; [by split|done|done].
    + assert (is_nil acc = false) as -> by (by destruct acc).
      rewrite andb_false_r. cbn [negb andb orb].
      case_bool_decide as Hlast.
      * apply last_Some in Hlast as [acc' ->]. destruct Hacc as [Hp Hs].
        destruct (Hs acc' [] eq_refl) as [Hk Hall].
        assert (Forall (eq "..") ((acc' ++ [".."]) ++ [".."])) as Hwhole.
        { repeat (apply Forall_app; split); by repeat constructor. }
        split.
        -- apply Forall_app. split; [done|]. constructor; [apply plain_parent|constructor].
        -- intros l1 l2 H. split; [done|]. rewrite H in Hwhole.
           by apply Forall_app in Hwhole as [? _].
      * rewrite (app_removelast_last EmptyString Hne) in Hacc.
        by apply normal_comps_prefix in Hacc.
  - apply bool_decide_eq_false in E3. destruct Hacc as [Hp Hs]. split.
    + apply Forall_app. split; [done|]. by repeat constructor.
    + intros l1 l2 H. destruct l2 as [|y l2 _] using rev_ind.
      * apply app_inj_tail in H as [_ ->]. done.
      * change (l1 ++ ".." :: l2 ++ [y]) with (l1 ++ (".." :: l2) ++ [y]) in H.
        rewrite app_assoc in H. apply app_inj_tail in H as [-> _].
        by apply (Hs l1 l2).
Qed.

Lemma foldl_normal (k : nat) (l acc : list string) :
  Forall (fun x => has_char sep x = false) l -> normal_comps k acc ->
  normal_comps k (foldl (normpath_step k) acc l).
Proof.
  revert acc. induction l as [|x l IH]; intros acc Hl Hacc; [done|].
  inversion Hl; subst. cbn [foldl]. apply IH; [done|].
  by apply normpath_step_normal.
Qed.

Lemma foldl_fixed (k : nat) (l acc : list string) :
  normal_comps k (acc ++ l) -> foldl (normpath_step k) acc l = acc ++ l.
Proof.
  revert acc. induction l as [|x l IH]; intros acc H; [by rewrite app_nil_r|].
  cbn [foldl].
  assert (normpath_step k acc x = acc ++ [x]) as ->.
  { destruct H as [Hp Hs]. apply Forall_app in Hp as [_ Hp].
    inversion Hp as [|? ? (Hx1 & Hx2 & Hx3) _]; subst.
    unfold normpath_step. rewrite !bool_decide_eq_false_2 by done. cbn [orb].
    destruct (decide (x = "..")) as [->|Hx].
    - destruct (Hs acc l eq_refl) as [-> Hall].
      destruct (decide (acc = [])) as [->|Hne]; [done|].
      rewrite (bool_decide_eq_true_2 _ (all_parents_last _ Hall Hne)).
      by destruct acc.
    - by rewrite (bool_decide_eq_false_2 _ Hx). }
  rewrite IH; rewrite <- app_assoc; done.
Qed.

Lemma plain_head (x : string) :
  plain_component x -> exists a t, x = String a t /\ Ascii.eqb a sep = false.
Proof.
  intros (H1 & _ & H3). destruct x as [|a t]; [done|]. exists a, t.
  split; [done|]. cbn [has_char] in H3. by apply orb_false_iff in H3 as [? _].
Qed.

Lemma startswith_sep (a : ascii) (z : string) :
  startswith (String a z) "/" = Ascii.eqb a sep.
Proof.
  unfold startswith. cbn [String.prefix].
  destruct (Ascii.eqb_spec a sep) as [->|Hne].
  - destruct (ascii_dec "/" sep); [by destruct z|done].
  - by destruct (ascii_dec "/" a) as [<-|?].
Qed.

Lemma startswith_cons (a : ascii) (z p : string) :
  startswith (String a z) (String a p) = startswith z p.
Proof.
  unfold startswith. cbn [String.prefix]. by destruct (ascii_dec a a).
Qed.

Lemma startswith_nil (z : string) : startswith z EmptyString = true.
Proof. by destruct z. Qed.

(** What [normpath] gives on a path whose parts are known. *)
Lemma normpath_eval (p : string) (k : nat) (comps : list string) :
  is_empty p = false ->
  (if startswith p "/" then
     if startswith p "//" && negb (startswith p "///") then 2 else 1
   else 0) = k ->
  foldl (normpath_step k) [] (split_on sep p) = comps ->
  normpath p =
    let path' := join EmptyString (replicate k sep_str) +:+ join sep_str comps in
    if is_empty path' then "." else path'.
Proof. intros H1 H2 H3. unfold normpath. by rewrite H1, H2, H3. Qed.

Lemma normpath_of_normal (k : nat) (comps : list string) :
  k <= 2 -> normal_comps k comps ->
  let path' := join EmptyString (replicate k sep_str) +:+ join sep_str comps in
  normpath (if is_empty path' then "." else path')
  = (if is_empty path' then "." else path').
Proof.
  intros Hk Hn.
  assert (forall j, foldl (normpath_step j) [] (split_on sep (join sep_str comps))
                    = foldl (normpath_step j) [] comps) as Hsplit.
  { intros j. destruct comps as [|c0 r]; [done|].
    unfold sep_str. rewrite split_on_join; [done|done|].
    destruct Hn as [Hp _]. eapply Forall_impl; [exact Hp|]. by intros ? (_ & _ & ?). }
  assert (startswith (join sep_str comps) "/" = false) as Hstart.
  { destruct comps as [|c0 r]; [done|]. destruct Hn as [Hp _].
    inversion Hp as [|? ? Hc0 _]; subst.
    destruct (plain_head _ Hc0) as (a & t & -> & Ha).
    destruct (join_head sep_str a t r) as [z ->]. by rewrite startswith_sep. }
  pose proof (foldl_fixed k comps [] Hn) as Hfix. cbn [app] in Hfix.
  destruct k as [|[|[|k]]]; [| | |lia]; cbn zeta.
  - change (join EmptyString (replicate 0 sep_str) +:+ join sep_str comps)
      with (join sep_str comps).
    destruct (is_empty (join sep_str comps)) eqn:He; [done|].
    rewrite (normpath_eval _ 0 comps He); [| by rewrite Hstart | by rewrite Hsplit].
    cbn zeta.
    change (join EmptyString (replicate 0 sep_str) +:+ join sep_str comps)
      with (join sep_str comps).
    by rewrite He.
  - change (join EmptyString (replicate 1 sep_str) +:+ join sep_str comps)
      with (String sep (join sep_str comps)).
    cbn [is_empty].
    rewrite (normpath_eval _ 1 comps); [done|done| |].
    + unfold sep. rewrite !startswith_cons, !startswith_nil, Hstart. done.
    + cbn [split_on]. rewrite Ascii.eqb_refl. cbn [foldl].
      change (normpath_step 1 [] EmptyString) with (@nil string).
      by rewrite Hsplit.
  - change (join EmptyString (replicate 2 sep_str) +:+ join sep_str comps)
      with (String sep (String sep (join sep_str comps))).
    cbn [is_empty].
    rewrite (normpath_eval _ 2 comps); [done|done| |].
    + unfold sep. rewrite !startswith_cons, !startswith_nil, Hstart. done.
    + cbn [split_on]. rewrite Ascii.eqb_refl. cbn [foldl].
      change (normpath_step 2 [] EmptyString) with (@nil string).
      by rewrite Hsplit.
Qed.

End NormpathFacts.

Lemma normpath_fixed (path : string) :
  Helpers.normpath (Helpers.normpath path) = Helpers.normpath path.
Proof.
  unfold Helpers.normpath at 2 3.
  destruct (PyStr.is_empty path); [reflexivity|].
  set (k := if PyStr.startswith path "/" then _ else _).
  apply (normpath_of_normal k).
  - subst k. destruct (PyStr.startswith path "/"); [|lia].
    destruct (_ && _); lia.
  - apply foldl_normal; [apply split_on_parts|apply normal_comps_nil].
Qed.

(** X12. [os.path.normpath], and so [normalize_path], is idempotent: a path
    that was normalized is not changed by normalizing it again.  So the
    paths that [safe_join_path] builds and the paths that the deduplication
    of [run_analysis] keeps are in normal form. *)
Theorem normpath_idempotent :
  (forall path, Helpers.normpath (Helpers.normpath path) = Helpers.normpath path)
  /\ (forall base path,
        Helpers.normalize_path (Helpers.safe_join_path base path)
        = Helpers.safe_join_path base path)
  /\ (forall resolver final_sure x,
        x ∈ Analysis.dedup_final resolver final_sure ->
        Helpers.normalize_path x = x).
Proof.
  split; [exact normpath_fixed|]. split.
  - intros base path. apply normpath_fixed.
  - intros resolver final_sure x Hx. unfold Analysis.dedup_final in Hx.
    destruct (dedup_foldl resolver final_sure ([], ∅)) as [_ Hel].
    + split; [apply NoDup_nil_2|]. intros y. cbn.
      rewrite elem_of_empty, elem_of_nil. tauto.
    + apply Hel in Hx as [Hx|(p & _ & ->)]; [by apply elem_of_nil in Hx|].
      apply normpath_fixed.
Qed.

Lemma normpath_idempotent_witness :
  "src/a.py" ∈ Analysis.dedup_final id ["./src//a.py"; "src/a.py"]
  /\ Helpers.normalize_path "src/a.py" = "src/a.py".
Proof.
  assert ("src/a.py" ∈ Analysis.dedup_final id ["./src//a.py"; "src/a.py"]) as H.
  { vm_compute. left. }
  split; [exact H|].
  exact (proj2 (proj2 normpath_idempotent) id ["./src//a.py"; "src/a.py"] "src/a.py" H).
Defined.

(* ===================================================================== *)
(** * What resolve_repo_path returns                                      *)
(* ===================================================================== *)

Section ResolveFacts.
Import PyStr Helpers.
Variable fs : FileSystem.
Variables root_norm normalized : string.

(** The score of the match [m], when it has a relative path. *)
Lemma best_step_cases (best : string * Q) (m : string) :
  match relpath fs m root_norm with
  | None => best_step fs root_norm normalized best m = best
  | Some r =>
      let score := ratio fs normalized (normalize_path r) in
      (snd best < score /\ best_step fs root_norm normalized best m = (normalize_path r, score))%Q
      \/ (score <= snd best /\ best_step fs root_norm normalized best m = best)%Q
  end.
Proof.
  unfold best_step. destruct (relpath fs m root_norm) as [r|]; [|done].
  cbn zeta. destruct (Qle_bool _ _) eqn:E; cbn [negb].
  - right. split; [|done]. by apply Qle_bool_iff.
  - left. split; [|done]. apply Qnot_le_lt. intros H.
    apply Qle_bool_iff in H. congruence.
Qed.

Lemma best_fold (matches : list string) (best : string * Q) :
  let res := foldl (best_step fs root_norm normalized) best matches in
  (res = best
   /\ forall m r, m ∈ matches -> relpath fs m root_norm = Some r ->
        (ratio fs normalized (normalize_path r) <= snd best)%Q)
  \/ (exists l1 m l2 r,
        matches = l1 ++ m :: l2
        /\ relpath fs m root_norm = Some r
        /\ res = (normalize_path r, ratio fs normalized (normalize_path r))
        /\ (snd best < ratio fs normalized (normalize_path r))%Q
        /\ (forall m' r', m' ∈ l1 -> relpath fs m' root_norm = Some r' ->
              (ratio fs normalized (normalize_path r')
               < ratio fs normalized (normalize_path r))%Q)
        /\ (forall m' r', m' ∈ l2 -> relpath fs m' root_norm = Some r' ->
              (ratio fs normalized (normalize_path r')
               <= ratio fs normalized (normalize_path r))%Q)).
Proof.
  revert best. induction matches as [|m0 ms IH]; intros best; cbn zeta.
  - left. split; [done|]. intros m r H. by apply elem_of_nil in H.
  - cbn [foldl]. pose proof (best_step_cases best m0) as Hstep.
    destruct (relpath fs m0 root_norm) as [r0|] eqn:Hrel.
    + cbn zeta in Hstep. destruct Hstep as [[Hlt ->]|[Hle ->]].
      * destruct (IH (normalize_path r0, ratio fs normalized (normalize_path r0)))
          as [[Hres Hall]|(l1 & m & l2 & r & -> & Hr & Hres & Hb & H1 & H2)].
        -- right. exists [], m0, ms, r0. repeat split; try done.
           intros m' r' H. by apply elem_of_nil in H.
        -- right. exists (m0 :: l1), m, l2, r. repeat split; try done.
           ++ eapply Qlt_trans; [exact Hlt|exact Hb].
           ++ intros m' r' [->|Hin]%elem_of_cons Hr'; [|by eapply H1].
              rewrite Hrel in Hr'. injection Hr' as <-. exact Hb.
      * destruct (IH best)
          as [[Hres Hall]|(l1 & m & l2 & r & -> & Hr & Hres & Hb & H1 & H2)].
        -- left. split; [done|].
           intros m' r' [->|Hin]%elem_of_cons Hr'; [|by eapply Hall].
           rewrite Hrel in Hr'. by injection Hr' as <-.
        -- right. exists (m0 :: l1), m, l2, r. repeat split; try done.
           intros m' r' [->|Hin]%elem_of_cons Hr'; [|by eapply H1].
           rewrite Hrel in Hr'. injection Hr' as <-.
           eapply Qle_lt_trans; [exact Hle|exact Hb].
    + rewrite Hstep. destruct (IH best)
        as [[Hres Hall]|(l1 & m & l2 & r & -> & Hr & Hres & Hb & H1 & H2)].
      * left. split; [done|].
        intros m' r' [->|Hin]%elem_of_cons Hr'; [congruence|by eapply Hall].
      * right. exists (m0 :: l1), m, l2, r. repeat split; try done.
        intros m' r' [->|Hin]%elem_of_cons Hr'; [congruence|by eapply H1].
Qed.

End ResolveFacts.

(** X13. What [resolve_repo_path] returns, given that the similarity
    ratio is never negative.  Either the returned path exists under the
    normalized root (one of the spellings tried was found); or nothing was
    found, by spelling or by name, and the normalized candidate comes back;
    or the result is the normalized relative path of a file found under the
    root by the candidate's base name, the one most similar to the
    normalized candidate and, among equally similar ones, the first. *)
Theorem resolve_repo_path_result (fs : Helpers.FileSystem)
  (root_path candidate_path : string)
  (Hratio : forall a b, (0 <= Helpers.ratio fs a b)%Q) :
  let root_norm := Helpers.normalize_path root_path in
  let normalized := Helpers.normalize_path candidate_path in
  let result := Helpers.resolve_repo_path fs root_path candidate_path in
  let matches :=
    default [] (Helpers.rglob fs root_norm (Helpers.basename normalized)) in
  let score r := Helpers.ratio fs normalized (Helpers.normalize_path r) in
  Helpers.path_exists fs (Helpers.safe_join_path root_norm result) = true
  \/ (result = normalized
      /\ (Helpers.basename normalized = EmptyString
          \/ forall m, m ∈ matches -> Helpers.relpath fs m root_norm = None))
  \/ (exists l1 m l2 r,
        matches = l1 ++ m :: l2
        /\ Helpers.relpath fs m root_norm = Some r
        /\ result = Helpers.normalize_path r
        /\ (forall m' r', m' ∈ l1 -> Helpers.relpath fs m' root_norm = Some r' ->
              (score r' < score r)%Q)
        /\ (forall m' r', m' ∈ l2 -> Helpers.relpath fs m' root_norm = Some r' ->
              (score r' <= score r)%Q)).
Proof.
  cbn zeta. unfold Helpers.resolve_repo_path.
  set (root_norm := Helpers.normalize_path root_path).
  set (normalized := Helpers.normalize_path candidate_path).
  destruct (Helpers.path_exists fs (Helpers.safe_join_path root_norm normalized)) eqn:E1;
    [by left|].
  destruct (Helpers.path_exists fs (Helpers.safe_join_path root_norm
              (PyStr.lstrip_chars "./" normalized))) eqn:E2; [by left|].
  cbn zeta.
  set (segments := filter _ _).
  set (changed := negb (is_nil segments) && negb (bool_decide (_ = segments))).
  set (dedup_path := PyStr.join Helpers.sep_str _).
  destruct (changed && Helpers.path_exists fs
              (Helpers.safe_join_path root_norm dedup_path)) eqn:E3.
  { left. by apply andb_true_iff in E3 as [_ ?]. }
  destruct (changed && Helpers.path_exists fs
              (Helpers.safe_join_path root_norm
                 (PyStr.lstrip_chars "./" dedup_path))) eqn:E4.
  { left. by apply andb_true_iff in E4 as [_ ?]. }
  right.
  destruct (PyStr.is_empty (Helpers.basename normalized)) eqn:E5.
  { left. split; [done|]. left. by apply is_empty_true. }
  set (matches := default [] _).
  destruct (is_nil matches) eqn:E6.
  { left. split; [done|]. right. destruct matches; [|done].
    intros m H. by apply elem_of_nil in H. }
  destruct (best_fold fs root_norm normalized matches (normalized, (-1)%Q))
    as [[-> Hall]|(l1 & m & l2 & r & Hm & Hr & -> & _ & H1 & H2)].
  - left. split; [done|]. right. intros m Hin.
    destruct (Helpers.relpath fs m root_norm) as [r|] eqn:Hr; [|done].
    exfalso. pose proof (Hall m r Hin Hr) as Hle. cbn [snd] in Hle.
    pose proof (Hratio normalized (Helpers.normalize_path r)) as H0.
    pose proof (Qle_trans _ _ _ H0 Hle) as Hbad. by vm_compute in Hbad.
  - right. exists l1, m, l2, r. by repeat split.
Qed.

Lemma resolve_repo_path_result_witness :
  Helpers.resolve_repo_path FuzzyExample.fs "/repo" "a.py" = "src/a.py"
  /\ (Helpers.path_exists FuzzyExample.fs
        (Helpers.safe_join_path "/repo"
           (Helpers.resolve_repo_path FuzzyExample.fs "/repo" "a.py")) = true
      \/ (Helpers.resolve_repo_path FuzzyExample.fs "/repo" "a.py" = "a.py"
          /\ ("a.py" = EmptyString
              \/ forall m, m ∈ ["/repo/lib/a.py"; "/repo/src/a.py"] ->
                   Helpers.relpath FuzzyExample.fs m "/repo" = None))
      \/ (exists l1 m l2 r,
            ["/repo/lib/a.py"; "/repo/src/a.py"] = l1 ++ m :: l2
            /\ Helpers.relpath FuzzyExample.fs m "/repo" = Some r
            /\ Helpers.resolve_repo_path FuzzyExample.fs "/repo" "a.py"
               = Helpers.normalize_path r
            /\ (forall m' r', m' ∈ l1 ->
                  Helpers.relpath FuzzyExample.fs m' "/repo" = Some r' ->
                  (Helpers.ratio FuzzyExample.fs "a.py" (Helpers.normalize_path r')
                   < Helpers.ratio FuzzyExample.fs "a.py" (Helpers.normalize_path r))%Q)
            /\ (forall m' r', m' ∈ l2 ->
                  Helpers.relpath FuzzyExample.fs m' "/repo" = Some r' ->
                  (Helpers.ratio FuzzyExample.fs "a.py" (Helpers.normalize_path r')
                   <= Helpers.ratio FuzzyExample.fs "a.py" (Helpers.normalize_path r))%Q))).
Proof.
  split; [reflexivity|].
  apply (resolve_repo_path_result FuzzyExample.fs "/repo" "a.py").
  intros a b. cbn. by case_bool_decide.
Defined.


(* ===================================================================== *)
(** * What a refinement batch collects                                    *)
(* ===================================================================== *)

Section BatchFacts.
Import Analysis.






Lemma foldl_merge_folder_prefix
  (rs : list (option (list string * list UnsureEntry.t)))
  (acc : list string * list UnsureEntry.t) :
  fst acc `prefix_of` fst (foldl merge_folder acc rs).
Proof.
  revert acc. induction rs as [|r rs IH]; intros acc; [done|].
  cbn [foldl]. etrans; [|apply IH].
  destruct r as [[s u]|]; [|done]. cbn. by apply prefix_app_r.
Qed.

Lemma round_prefix (env : Environment) (m : nat) (st : LoopState) :
  loop_sure st `prefix_of` loop_sure (round env m st)
  /\ loop_stats st `prefix_of` loop_stats (round env m st).
Proof.
  unfold round.
  pose proof (foldl_merge_folder_prefix
    (imap (analyze_discovered env (S (iteration st)))
       (folders_to_analyze (process_refinement_batch env (S (iteration st)) (loop_unsure st))))
    (loop_sure st ++ final_sure (process_refinement_batch env (S (iteration st)) (loop_unsure st)),
     remaining_unsure (process_refinement_batch env (S (iteration st)) (loop_unsure st)))) as H.
  destruct (foldl merge_folder _ _) as [sure unsure]. cbn in *. split.
  - etrans; [|exact H]. by apply prefix_app_r.
  - by apply prefix_app_r.
Qed.

Lemma loop_from_prefix (env : Environment) (m fuel : nat) (st : LoopState) :
  loop_sure st `prefix_of` loop_sure (loop_from env m fuel st)
  /\ loop_stats st `prefix_of` loop_stats (loop_from env m fuel st).
Proof.
  revert st. induction fuel as [|k IH]; intros st; [done|].
  cbn [loop_from]. destruct (loop_test m st); [|done].
  destruct (round_prefix env m st) as [H1 H2].
  destruct (IH (round env m st)) as [H3 H4].
  split; etrans; eauto.
Qed.

End BatchFacts.


(** X15. The refinement loop only adds to what is confirmed: the files
    confirmed before the loop are the first files of the list it leaves, in
    the same order, and so are the statistics. *)
Theorem refinement_loop_keeps_confirmed_files
  (env : Analysis.Environment) (sure : list string)
  (unsure : list UnsureEntry.t) (stats : list RefineStats.t) :
  sure `prefix_of` Analysis.loop_sure (Analysis.refinement_loop env sure unsure stats)
  /\ stats `prefix_of` Analysis.loop_stats (Analysis.refinement_loop env sure unsure stats).
Proof.
  apply (loop_from_prefix env Analysis.max_iterations Analysis.max_iterations
           (Analysis.mkLoop sure unsure stats 0)).
Qed.

Section QueueFacts.
Import Analysis.



End QueueFacts.


Section DedupOrder.
Import Analysis.
Variable resolver : string -> string.

Lemma dedup_foldl_order (paths : list string) (acc : list string * gset string) :
  fst acc `prefix_of` fst (foldl (dedup_step resolver) acc paths)
  /\ fst (foldl (dedup_step resolver) acc paths)
       `sublist_of` fst acc ++ (dedup_key resolver <$> paths).
Proof.
  revert acc. induction paths as [|p ps IH]; intros acc; cbn [foldl fmap list_fmap].
  - split; [done|]. by rewrite app_nil_r.
  - assert (fst (dedup_step resolver acc p) = fst acc
            \/ fst (dedup_step resolver acc p) = fst acc ++ [dedup_key resolver p])
      as Hstep.
    { unfold dedup_step, dedup_key. case_bool_decide; [by left|by right]. }
    destruct (IH (dedup_step resolver acc p)) as [H1 H2].
    destruct Hstep as [E|E]; rewrite E in H1, H2.
    + split; [done|]. etrans; [exact H2|].
      apply sublist_app; [done|]. by apply sublist_cons.
    + split.
      * etrans; [|exact H1]. by apply prefix_app_r.
      * by rewrite <- app_assoc in H2.
Qed.

End DedupOrder.

(** X17. The deduplication keeps the order of the confirmed files and, of
    equal paths, the first: its result is a sublist of the resolved and
    normalized paths, and the result for a list is the beginning of the
    result for any longer list. *)
Theorem dedup_final_keeps_first_occurrences
  (resolver : string -> string) (final_sure more : list string) :
  Analysis.dedup_final resolver final_sure
    `sublist_of` (Analysis.dedup_key resolver <$> final_sure)
  /\ Analysis.dedup_final resolver final_sure
       `prefix_of` Analysis.dedup_final resolver (final_sure ++ more).
Proof.
  unfold Analysis.dedup_final. split.
  - apply (dedup_foldl_order resolver final_sure ([], ∅)).
  - rewrite foldl_app. apply dedup_foldl_order.
Qed.


(* ===================================================================== *)
(** * The token counts of an evaluation run                               *)
(* ===================================================================== *)

Section TrackerFacts.
Import Tracker.
Local Open Scope Z_scope.

Lemma sum_stages_insert_new (m : gmap string Totals) (i : string) (x : Totals) :
  m !! i = None -> sum_stages (<[i:=x]> m) = add_totals (sum_stages m) x.
Proof.
  intros Hi. unfold sum_stages.
  apply (map_fold_insert_L (fun _ st agg => add_totals agg st)); [|done].
  intros. unfold add_totals. cbn. f_equal; lia.
Qed.

Lemma sum_stages_insert (m : gmap string Totals) (i : string) (x : Totals) :
  sum_stages (<[i:=x]> m) = add_totals (sum_stages (delete i m)) x.
Proof.
  rewrite <- insert_delete_eq. apply sum_stages_insert_new, lookup_delete_eq.
Qed.

Lemma sum_stages_lookup (m : gmap string Totals) (i : string) (old : Totals) :
  m !! i = Some old -> sum_stages m = add_totals (sum_stages (delete i m)) old.
Proof.
  intros Hi. rewrite <- (insert_id m i old) at 1 by done. apply sum_stages_insert.
Qed.

Lemma add_if_spec (v : option Z) (n : Z) : add_if v n = n + default 0 v.
Proof.
  unfold add_if, truthy. destruct v as [x|]; cbn; [|lia].
  destruct (Z.eqb_spec x 0); cbn; lia.
Qed.

Lemma py_or_spec (a b : option Z) :
  default 0 (py_or a b) = if default 0 a =? 0 then default 0 b else default 0 a.
Proof.
  unfold py_or, truthy. destruct a as [x|]; cbn; [|done].
  by destruct (Z.eqb_spec x 0) as [->|].
Qed.

Lemma py_or3_spec (u : Usage) :
  default 0 (py_or (py_or (u !! "prompt_tokens") (u !! "input_tokens"))
                   (u !! "input_token_count"))
  = prompt_count (Some u).
Proof.
  rewrite !py_or_spec. unfold prompt_count, count_of. cbn.
  destruct (default 0 (u !! "prompt_tokens") =? 0) eqn:E1; [done|by rewrite E1].
Qed.

Lemma setdefault_facts (m : gmap string Totals) (stage : string) :
  exists old, setdefault stage zero m !! stage = Some old
              /\ sum_stages (setdefault stage zero m) = sum_stages m.
Proof.
  unfold setdefault. destruct (m !! stage) as [old|] eqn:E.
  - by exists old.
  - exists zero. rewrite lookup_insert_eq, sum_stages_insert_new by done.
    split; [done|]. destruct (sum_stages m). unfold add_totals, zero. cbn.
    f_equal; lia.
Qed.

(** What one call adds to the sums over the stages. *)
Lemma add_tokens_sums (stage : string) (usage : option Usage) (tr : t) :
  prompt (sum_stages (tokens (add_tokens stage usage tr)))
  = prompt (sum_stages (tokens tr)) + prompt_count usage
  /\ input (sum_stages (tokens (add_tokens stage usage tr)))
     = input (sum_stages (tokens tr)) + count_of "input_tokens" usage.
Proof.
  destruct usage as [u|]; [|cbn; lia].
  unfold add_tokens. case_bool_decide as Hempty.
  { subst u. unfold prompt_count, count_of. cbn.
    assert (forall k : string, (∅ : Usage) !! k = None) as He
      by (intros k; apply lookup_empty).
    rewrite !He. cbn. lia. }
  cbn zeta. unfold _ensure_token_stage. cbn [tokens token_details].
  destruct (setdefault_facts (tokens tr) stage) as (old & Hl & Hsum).
  rewrite Hl. cbn [default]. rewrite sum_stages_insert.
  rewrite <- Hsum, (sum_stages_lookup _ _ _ Hl).
  rewrite !add_if_spec, py_or3_spec. unfold count_of. cbn. lia.
Qed.

Lemma input_total_unfold (tr : t) :
  tokens_input_total tr
  = prompt (sum_stages (tokens tr)) + input (sum_stages (tokens tr)).
Proof.
  unfold tokens_input_total, finalize. cbn zeta.
  by destruct (total (sum_stages (tokens tr)) =? 0).
Qed.

Lemma record_sums (calls : list (string * option Usage)) (tr : t) :
  let tr' := foldl (fun tr call => add_tokens (fst call) (snd call) tr) tr calls in
  prompt (sum_stages (tokens tr'))
  = prompt (sum_stages (tokens tr)) + sum_with (fun call => prompt_count (snd call)) calls
  /\ input (sum_stages (tokens tr'))
     = input (sum_stages (tokens tr))
       + sum_with (fun call => count_of "input_tokens" (snd call)) calls.
Proof.
  revert tr. induction calls as [|[stage usage] calls IH]; intros tr; cbn zeta.
  - cbn. lia.
  - cbn [foldl fst snd sum_with foldr].
    destruct (IH (add_tokens stage usage tr)) as [H1 H2]. cbn zeta in H1, H2.
    destruct (add_tokens_sums stage usage tr) as [H3 H4].
    rewrite H1, H2, H3, H4. fold (sum_with (fun call : string * option Usage => prompt_count (snd call)) calls).
    fold (sum_with (fun call : string * option Usage => count_of "input_tokens" (snd call)) calls).
    lia.
Qed.

End TrackerFacts.

(** X18. The input total that [finalize] reports for a run is the sum, over
    the calls of [add_tokens] in any stages, of what each usage record adds
    to the counter [prompt] (the first count that is not zero of
    [prompt_tokens], [input_tokens], [input_token_count]) and of what it adds
    to the counter [input] (its [input_tokens]). *)
Theorem tracker_input_total_is_sum (calls : list (string * option Tracker.Usage)) :
  Tracker.tokens_input_total (Tracker.record calls)
  = sum_with (fun call =>
                (prompt_count (snd call) + count_of "input_tokens" (snd call))%Z)
             calls.
Proof.
  rewrite input_total_unfold. unfold Tracker.record.
  destruct (record_sums calls Tracker.new) as [-> ->].
  replace (Tracker.sum_stages (Tracker.tokens Tracker.new)) with Tracker.zero by done.
  cbn [Tracker.prompt Tracker.input Tracker.zero].
  induction calls as [|c calls IH]; [done|]. cbn [sum_with foldr] in *.
  fold (sum_with (fun call : string * option Tracker.Usage => prompt_count (snd call)) calls) in *.
  fold (sum_with (fun call : string * option Tracker.Usage =>
                    count_of "input_tokens" (snd call)) calls) in *.
  fold (sum_with (fun call : string * option Tracker.Usage =>
                    (prompt_count (snd call) + count_of "input_tokens" (snd call))%Z)
                 calls) in *.
  lia.
Qed.

(** X19. When the usage records of a run name their input as
    [input_tokens] and give no [prompt_tokens], each call counts its input
    under [prompt] and under [input], and the input total that [finalize]
    reports is twice the number of input tokens. *)
Theorem input_tokens_are_counted_twice (calls : list (string * option Tracker.Usage)) :
  (forall call, call ∈ calls -> count_of "prompt_tokens" (snd call) = 0%Z) ->
  (forall call, call ∈ calls -> count_of "input_tokens" (snd call) <> 0%Z) ->
  Tracker.tokens_input_total (Tracker.record calls)
  = (2 * sum_with (fun call => count_of "input_tokens" (snd call)) calls)%Z.
Proof.
  intros Hp Hi. rewrite input_total_unfold. unfold Tracker.record.
  destruct (record_sums calls Tracker.new) as [-> ->].
  replace (Tracker.sum_stages (Tracker.tokens Tracker.new)) with Tracker.zero by done.
  cbn [Tracker.prompt Tracker.input Tracker.zero].
  assert (sum_with (fun call : string * option Tracker.Usage => prompt_count (snd call)) calls
          = sum_with (fun call : string * option Tracker.Usage =>
                        count_of "input_tokens" (snd call)) calls) as ->; [|lia].
  induction calls as [|c calls IH]; [done|].
  cbn [sum_with foldr].
  fold (sum_with (fun call : string * option Tracker.Usage => prompt_count (snd call)) calls).
  fold (sum_with (fun call : string * option Tracker.Usage =>
                    count_of "input_tokens" (snd call)) calls).
  rewrite IH.
  - f_equal. unfold prompt_count. rewrite (Hp c) by left. cbn.
    destruct (Z.eqb_spec (count_of "input_tokens" (snd c)) 0) as [E|]; [|done].
    by destruct (Hi c); [left|].
  - intros call Hc. apply Hp. by right.
  - intros call Hc. apply Hi. by right.
Qed.

Lemma input_tokens_are_counted_twice_witness :
  Tracker.tokens_input_total
    (Tracker.record
       [("initial", Some {[ "input_tokens" := 100%Z; "output_tokens" := 20%Z ]});
        ("refinement", Some {[ "input_tokens" := 40%Z; "output_tokens" := 5%Z ]})])
  = 280%Z.
Proof.
  rewrite input_tokens_are_counted_twice.
  - reflexivity.
  - intros call Hc. repeat (apply elem_of_cons in Hc as [->|Hc]); [done|done|].
    by apply elem_of_nil in Hc.
  - intros call Hc. repeat (apply elem_of_cons in Hc as [->|Hc]); [done|done|].
    by apply elem_of_nil in Hc.
Defined.


(* ===================================================================== *)
(** * Creating a chat session, with retries                               *)
(* ===================================================================== *)

Section RetryFacts.
Import Manager.
Variable Chat : Type.
Variable create_chat : nat -> Chat + Failure.
Variable is_retryable_error : Failure -> bool.
Variable get_error_wait_time : Failure -> nat -> Q.
Variable max_retries : nat.

Lemma attempts_after_failures (k : nat) :
  forall (remaining attempt : nat) (last_exception : option Failure),
    (forall i, (i < k)%nat ->
       exists e, create_chat (attempt + i) = inr e
                 /\ retries is_retryable_error e = true) ->
    exists last' pre,
      attempts Chat create_chat is_retryable_error get_error_wait_time max_retries
        (k + remaining) attempt last_exception
      = (fst (attempts Chat create_chat is_retryable_error get_error_wait_time
                max_retries remaining (attempt + k) last'),
         pre ++ snd (attempts Chat create_chat is_retryable_error
                       get_error_wait_time max_retries remaining (attempt + k) last'))
      /\ creations pre = k /\ sleeps pre = k.
Proof.
  induction k as [|k IH]; intros remaining attempt last_exception Hfail.
  - exists last_exception, []. rewrite Nat.add_0_r. cbn.
    by destruct (attempts _ _ _ _ _ _ _ _).
  - destruct (Hfail 0%nat ltac:(lia)) as (e & He & Hr). rewrite Nat.add_0_r in He.
    assert (forall i, (i < k)%nat ->
              exists e, create_chat (S attempt + i) = inr e
                        /\ retries is_retryable_error e = true) as Hfail'.
    { intros i Hi. destruct (Hfail (S i) ltac:(lia)) as (e' & He' & Hr').
      exists e'. split; [|done]. rewrite <- He'. f_equal. lia. }
    cbn [Nat.add attempts]. rewrite He.
    replace (attempt + S k)%nat with (S attempt + k)%nat by lia.
    destruct e as [msg|msg|msg]; [|done|cbn in Hr; rewrite Hr].
    + destruct (IH remaining (S attempt) (Some (Retryable msg)) Hfail')
        as (last' & pre & -> & Hc & Hs).
      exists last', (EvCreate attempt
                       :: EvWarn attempt (Retryable msg)
                            (get_error_wait_time (Retryable msg) attempt)
                       :: EvSleep (get_error_wait_time (Retryable msg) attempt) :: pre).
      unfold retried. cbn [fst snd]. split; [done|].
      unfold creations, sleeps in *. cbn. lia.
    + destruct (IH remaining (S attempt) (Some (Retryable msg)) Hfail')
        as (last' & pre & -> & Hc & Hs).
      exists last', (EvCreate attempt
                       :: EvWarn attempt (Unknown msg)
                            (get_error_wait_time (Unknown msg) attempt)
                       :: EvSleep (get_error_wait_time (Unknown msg) attempt) :: pre).
      unfold retried. cbn [fst snd]. split; [done|].
      unfold creations, sleeps in *. cbn. lia.
Qed.

Lemma counts_app (pre log : list Event) :
  creations (pre ++ log) = (creations pre + creations log)%nat
  /\ sleeps (pre ++ log) = (sleeps pre + sleeps log)%nat.
Proof.
  unfold creations, sleeps. by rewrite !List.filter_app, !length_app.
Qed.

End RetryFacts.

(** X20. [_create_chat_with_retry], when the first [k] calls of
    [provider.create_chat] fail with errors that are retried.  If [k] is
    [max_retries], the method raises the [RuntimeError] of its end.  If call
    [k] returns a session, the method returns it.  If call [k] fails with an
    error that is not retried, the method raises a [NonRetryableError] with
    the text of that error.  The provider is called once more than the
    method sleeps, except when the retries run out: then it has slept after
    the last call as well. *)
Theorem create_chat_with_retry_outcome
  (Chat : Type) (create_chat : nat -> Chat + Manager.Failure)
  (is_retryable_error : Manager.Failure -> bool)
  (get_error_wait_time : Manager.Failure -> nat -> Q)
  (max_retries k : nat)
  (Hfail : forall i, (i < k)%nat ->
             exists e, create_chat i = inr e
                       /\ Manager.retries is_retryable_error e = true) :
  let result :=
    Manager._create_chat_with_retry Chat create_chat is_retryable_error
      get_error_wait_time max_retries in
  (k = max_retries ->
     (exists cause, fst result = inr (Manager.exhausted max_retries cause))
     /\ Manager.creations (snd result) = k /\ Manager.sleeps (snd result) = k)
  /\ (forall chat, (k < max_retries)%nat -> create_chat k = inl chat ->
        fst result = inl chat
        /\ Manager.creations (snd result) = S k /\ Manager.sleeps (snd result) = k)
  /\ (forall e, (k < max_retries)%nat -> create_chat k = inr e ->
        Manager.retries is_retryable_error e = false ->
        fst result = inr (Manager.NonRetryableError (Manager.str e))
        /\ Manager.creations (snd result) = S k /\ Manager.sleeps (snd result) = k).
Proof.
  cbn zeta. unfold Manager._create_chat_with_retry.
  assert (forall remaining, max_retries = (k + remaining)%nat ->
            exists last' pre,
              Manager.attempts Chat create_chat is_retryable_error
                get_error_wait_time max_retries max_retries 0 None
              = (fst (Manager.attempts Chat create_chat is_retryable_error
                        get_error_wait_time max_retries remaining k last'),
                 pre ++ snd (Manager.attempts Chat create_chat is_retryable_error
                               get_error_wait_time max_retries remaining k last'))
              /\ Manager.creations pre = k /\ Manager.sleeps pre = k) as Hrun.
  { intros remaining Hm.
    destruct (attempts_after_failures Chat create_chat is_retryable_error
                get_error_wait_time max_retries k remaining 0 None Hfail)
      as (last' & pre & Heq & Hc & Hs).
    exists last', pre. rewrite Hm at 2. by rewrite Heq. }
  split; [|split].
  - intros Hk. destruct (Hrun 0%nat ltac:(lia)) as (last' & pre & -> & Hc & Hs).
    cbn [Manager.attempts fst snd]. rewrite app_nil_r. split; [by exists last'|done].
  - intros chat Hk Hchat.
    destruct (Hrun (S (max_retries - S k)) ltac:(lia)) as (last' & pre & -> & Hc & Hs).
    cbn [Manager.attempts]. rewrite Hchat. cbn [fst snd].
    destruct (counts_app pre [Manager.EvCreate k]) as [-> ->].
    rewrite Hc, Hs. cbn. split; [done|lia].
  - intros e Hk He Hr.
    destruct (Hrun (S (max_retries - S k)) ltac:(lia)) as (last' & pre & -> & Hc & Hs).
    cbn [Manager.attempts]. rewrite He.
    destruct e as [msg|msg|msg]; [done| |cbn in Hr; rewrite Hr]; cbn [fst snd];
      destruct (counts_app pre [Manager.EvCreate k; Manager.EvError (Manager.NonRetryable msg)])
        as [Hc' Hs'];
      destruct (counts_app pre [Manager.EvCreate k; Manager.EvError (Manager.Unknown msg)])
        as [Hc'' Hs''];
      rewrite ?Hc', ?Hs', ?Hc'', ?Hs'', Hc, Hs; cbn; (split; [done|lia]).
Qed.

Lemma create_chat_with_retry_witness :
  fst (Manager._create_chat_with_retry nat RetryExample.create_chat
         RetryExample.is_retryable_error RetryExample.get_error_wait_time 3)
  = inl 7
  /\ Manager.creations
       (snd (Manager._create_chat_with_retry nat RetryExample.create_chat
               RetryExample.is_retryable_error RetryExample.get_error_wait_time 3)) = 3
  /\ Manager.sleeps
       (snd (Manager._create_chat_with_retry nat RetryExample.create_chat
               RetryExample.is_retryable_error RetryExample.get_error_wait_time 3)) = 2.
Proof.
  assert (forall i, (i < 2)%nat ->
            exists e, RetryExample.create_chat i = inr e
                      /\ Manager.retries RetryExample.is_retryable_error e = true)
    as Hfail.
  { intros i Hi. destruct i as [|[|i]]; [by eexists|by eexists|lia]. }
  apply (create_chat_with_retry_outcome nat RetryExample.create_chat
           RetryExample.is_retryable_error RetryExample.get_error_wait_time 3 2 Hfail);
    [lia|reflexivity].
Defined.


(* ===================================================================== *)
(** * safe_join_path                                                      *)
(* ===================================================================== *)

Section JoinFacts.
Import PyStr Helpers.

Lemma startswith_String (a : ascii) (z : string) (b : ascii) (p : string) :
  startswith (String a z) (String b p) = Ascii.eqb a b && startswith z p.
Proof.
  unfold startswith. cbn [String.prefix].
  destruct (Ascii.eqb_spec a b) as [->|Hne].
  - by destruct (ascii_dec b b).
  - by destruct (ascii_dec b a) as [->|].
Qed.

Lemma initial_slashes_le (p : string) : initial_slashes_of p <= 2.
Proof.
  unfold initial_slashes_of. destruct (startswith p "/"); [|lia].
  destruct (_ && _); lia.
Qed.

Lemma normpath_unfold (p : string) :
  is_empty p = false ->
  normpath p =
    let path' := join EmptyString (replicate (initial_slashes_of p) sep_str)
                 +:+ join sep_str (foldl (normpath_step (initial_slashes_of p)) []
                                     (split_on sep p)) in
    if is_empty path' then "." else path'.
Proof. intros H. by apply normpath_eval. Qed.

Lemma string_snoc (s : string) (c : ascii) :
  last (String.list_ascii_of_string s) = Some c ->
  exists r, s = r +:+ String c EmptyString.
Proof.
  induction s as [|a s IH]; [done|]. cbn [String.list_ascii_of_string].
  destruct s as [|b s].
  - cbn. intros [= ->]. by exists EmptyString.
  - intros H. destruct IH as [r Hr]; [exact H|]. exists (String a r).
    change (String a r +:+ String c EmptyString) with (String a (r +:+ String c EmptyString)).
    by rewrite <- Hr.
Qed.

Lemma last_snoc_string (r : string) (c : ascii) :
  last (String.list_ascii_of_string (r +:+ String c EmptyString)) = Some c.
Proof.
  induction r as [|a r IH]; [done|].
  change (String a r +:+ String c EmptyString) with (String a (r +:+ String c EmptyString)).
  cbn [String.list_ascii_of_string].
  destruct (String.list_ascii_of_string (r +:+ String c EmptyString)) eqn:E; [done|].
  exact IH.
Qed.

Lemma split_on_app_sep (c : ascii) (a b : string) :
  split_on c (a +:+ String c b) = split_on c a ++ split_on c b.
Proof.
  induction a as [|x t IH].
  - change (EmptyString +:+ String c b) with (String c b).
    cbn [split_on]. by rewrite Ascii.eqb_refl.
  - change (String x t +:+ String c b) with (String x (t +:+ String c b)).
    cbn [split_on]. rewrite IH.
    destruct (Ascii.eqb x c); [done|].
    pose proof (split_on_parts c t) as Hne.
    destruct (split_on c t) as [|h r] eqn:E; [|done].
    by destruct t; cbn in E; [|destruct (Ascii.eqb _ _), (split_on c t)].
Qed.

Lemma foldl_step_append (k : nat) (B acc : list string) :
  normal_comps k acc -> Forall plain_component B -> ".." ∉ B ->
  foldl (normpath_step k) acc B = acc ++ B /\ normal_comps k (acc ++ B).
Proof.
  intros [Hp Hs] HB Hno.
  assert (normal_comps k (acc ++ B)) as Hn.
  { split; [by apply Forall_app|].
    intros l1 l2 Heq. apply app_eq_inv in Heq as [(m & -> & Hm)|(m & -> & Hm)].
    - destruct m as [|x m].
      + exfalso. apply Hno. rewrite app_nil_l in Hm. rewrite <- Hm. left.
      + injection Hm as <- _.
        destruct (Hs l1 m eq_refl) as [? ?]. done.
    - exfalso. apply Hno. rewrite Hm. apply elem_of_app. right. left. }
  split; [by apply foldl_fixed|done].
Qed.

Lemma join_app (s : string) (A B : list string) :
  A <> [] -> B <> [] -> join s (A ++ B) = join s A +:+ s +:+ join s B.
Proof.
  intros HA HB. induction A as [|x A IH]; [done|].
  destruct A as [|y A].
  - destruct B as [|b B]; [done|]. reflexivity.
  - change (join s ((x :: y :: A) ++ B)) with (x +:+ s +:+ join s ((y :: A) ++ B)).
    rewrite IH by done.
    change (join s (x :: y :: A)) with (x +:+ s +:+ join s (y :: A)).
    by rewrite !append_assoc.
Qed.

Lemma has_char_last (c : ascii) (x : string) :
  has_char c x = false -> last (String.list_ascii_of_string x) <> Some c.
Proof.
  intros H Hl. apply string_snoc in Hl as [r ->].
  induction r as [|a r IH].
  - change (EmptyString +:+ String c EmptyString) with (String c EmptyString) in H.
    cbn [has_char] in H. by rewrite Ascii.eqb_refl in H.
  - change (String a r +:+ String c EmptyString)
      with (String a (r +:+ String c EmptyString)) in H.
    cbn [has_char] in H. apply orb_false_iff in H as [_ H]. by apply IH.
Qed.

Lemma last_append (a b : string) :
  b <> EmptyString ->
  last (String.list_ascii_of_string (a +:+ b)) = last (String.list_ascii_of_string b).
Proof.
  intros Hb. induction a as [|x a IH]; [done|].
  change (String x a +:+ b) with (String x (a +:+ b)).
  cbn [String.list_ascii_of_string].
  destruct (String.list_ascii_of_string (a +:+ b)) eqn:E; [|exact IH].
  destruct a, b; done.
Qed.

Lemma join_plain_last (comps : list string) :
  comps <> [] -> Forall plain_component comps ->
  join sep_str comps <> EmptyString
  /\ join sep_str comps <> "."
  /\ last (String.list_ascii_of_string (join sep_str comps)) <> Some sep.
Proof.
  intros Hne Hp. induction comps as [|x comps IH]; [done|].
  inversion Hp as [|? ? (Hx1 & Hx2 & Hx3) Hrest]; subst.
  destruct comps as [|y comps].
  - cbn. split; [done|]. split; [done|]. by apply has_char_last.
  - destruct IH as (IH1 & IH2 & IH3); [done|done|].
    change (join sep_str (x :: y :: comps))
      with (x +:+ String sep (join sep_str (y :: comps))).
    split; [by destruct x|]. split.
    + destruct x as [|a [|b x]]; [done| |done].
      change (String a (String sep (join sep_str (y :: comps))) <> "."). done.
    + rewrite last_append by done.
      cbn [String.list_ascii_of_string].
      destruct (String.list_ascii_of_string (join sep_str (y :: comps))) eqn:E.
      * by destruct (join sep_str (y :: comps)).
      * exact IH3.
Qed.

Lemma join_plain_start (comps : list string) :
  Forall plain_component comps -> startswith (join sep_str comps) "/" = false.
Proof.
  intros Hp. destruct comps as [|c0 r]; [done|].
  inversion Hp as [|? ? Hc0 _]; subst.
  destruct (plain_head _ Hc0) as (a & t & -> & Ha).
  destruct (join_head sep_str a t r) as [z ->]. by rewrite startswith_sep.
Qed.

Lemma initial_slashes_app (root s : string) :
  root <> EmptyString ->
  (last (String.list_ascii_of_string root) = Some sep -> startswith s "/" = false) ->
  initial_slashes_of (root +:+ s) = initial_slashes_of root.
Proof.
  intros Hne Hlast. unfold initial_slashes_of.
  destruct root as [|a [|b [|c t]]]; [done| | |].
  - change (String a EmptyString +:+ s) with (String a s).
    change "///" with (String sep "//"). change "//" with (String sep "/").
    change "/" with (String sep EmptyString).
    rewrite !startswith_String, !startswith_nil.
    destruct (Ascii.eqb_spec a sep) as [->|]; [|done]. cbn [andb].
    change (String sep EmptyString) with "/".
    rewrite Hlast by done. by destruct s.
  - change (String a (String b EmptyString) +:+ s) with (String a (String b s)).
    change "///" with (String sep (String sep (String sep EmptyString))).
    change "//" with (String sep (String sep EmptyString)).
    change "/" with (String sep EmptyString).
    rewrite !startswith_String, !startswith_nil.
    destruct (Ascii.eqb_spec a sep) as [->|]; [|done].
    destruct (Ascii.eqb_spec b sep) as [->|]; [|done]. cbn [andb].
    change (String sep EmptyString) with "/".
    rewrite Hlast by done. by destruct s.
  - change (String a (String b (String c t)) +:+ s)
      with (String a (String b (String c (t +:+ s)))).
    change "///" with (String sep (String sep (String sep EmptyString))).
    change "//" with (String sep (String sep EmptyString)).
    change "/" with (String sep EmptyString).
    by rewrite !startswith_String, !startswith_nil.
Qed.

Lemma path_join_rel (a : string) (B : list string) :
  Forall plain_component B ->
  path_join a (join sep_str B)
  = if is_empty a || bool_decide (last (String.list_ascii_of_string a) = Some sep)
    then a +:+ join sep_str B
    else a +:+ sep_str +:+ join sep_str B.
Proof.
  intros Hp. unfold path_join.
  change (startswith (join sep_str B) sep_str) with (startswith (join sep_str B) "/").
  by rewrite join_plain_start.
Qed.

(** The components of a path joined to a root: those of the root, then
    those of the path. *)
Lemma normpath_join_comps (root : string) (B : list string) :
  root <> EmptyString -> B <> [] -> Forall plain_component B -> ".." ∉ B ->
  let k := initial_slashes_of root in
  let comps_root := foldl (normpath_step k) [] (split_on sep root) in
  normal_comps k (comps_root ++ B)
  /\ normpath (path_join root (join sep_str B))
     = join EmptyString (replicate k sep_str) +:+ join sep_str (comps_root ++ B).
Proof.
  intros Hroot HB Hp Hno k comps_root.
  assert (normal_comps k comps_root) as Hn.
  { apply foldl_normal; [apply split_on_parts|apply normal_comps_nil]. }
  destruct (foldl_step_append k B comps_root Hn Hp Hno) as [Hfold Hn'].
  split; [done|].
  pose proof (join_plain_start B Hp) as Hstart.
  assert (exists s, path_join root (join sep_str B) = root +:+ s
                    /\ (last (String.list_ascii_of_string root) = Some sep ->
                        startswith s "/" = false)
                    /\ foldl (normpath_step k) [] (split_on sep (root +:+ s))
                       = comps_root ++ B) as (s & Hjoin & Hs & Hsplit).
  { rewrite path_join_rel by done.
    assert (is_empty root = false) as -> by (by destruct root). cbn [orb].
    case_bool_decide as Hlast.
    - exists (join sep_str B). split; [done|]. split; [done|].
      apply string_snoc in Hlast as [r Hr].
      assert (comps_root = foldl (normpath_step k) [] (split_on sep r)) as Hcr.
      { subst comps_root. rewrite Hr, split_on_app_sep, foldl_app. done. }
      rewrite Hr, append_assoc.
      change (String sep EmptyString +:+ join sep_str B) with (String sep (join sep_str B)).
      rewrite split_on_app_sep, foldl_app, <- Hcr.
      unfold sep_str. rewrite split_on_join; [done|done|].
      eapply Forall_impl; [exact Hp|]. by intros ? (_ & _ & ?).
    - exists (sep_str +:+ join sep_str B). split; [done|]. split; [done|].
      change (sep_str +:+ join sep_str B) with (String sep (join sep_str B)).
      rewrite split_on_app_sep, foldl_app.
      unfold sep_str. rewrite split_on_join; [done|done|].
      eapply Forall_impl; [exact Hp|]. by intros ? (_ & _ & ?). }
  rewrite Hjoin, normpath_unfold by (by destruct root).
  cbn zeta. rewrite initial_slashes_app by done. fold k. rewrite Hsplit.
  destruct (join_plain_last (comps_root ++ B)) as (Hne & _ & _).
  { by destruct comps_root, B. }
  { by destruct Hn'. }
  destruct (join EmptyString (replicate k sep_str) +:+ join sep_str (comps_root ++ B)) eqn:E;
    [|done].
  exfalso. apply Hne. destruct (join EmptyString (replicate k sep_str)); [done|done].
Qed.

End JoinFacts.

(** X21. A clean relative path joined to a root stays under the root: when
    the components of [path] are plain (not empty, not [.], no separator)
    and none is [..], [safe_join_path root path] is the normalized root
    followed by a separator and [path]; the separator is left out when the
    normalized root ends with one, and the path alone comes back when the
    normalized root is [.]. *)
Theorem safe_join_stays_under_root (root : string) (comps : list string) :
  comps <> [] -> Forall plain_component comps -> ".." ∉ comps ->
  Helpers.safe_join_path root (PyStr.join Helpers.sep_str comps)
  = if bool_decide (Helpers.normalize_path root = ".")
    then PyStr.join Helpers.sep_str comps
    else Helpers.path_join (Helpers.normalize_path root)
                           (PyStr.join Helpers.sep_str comps).
Proof.
  intros HB Hp Hno. unfold Helpers.safe_join_path, Helpers.normalize_path.
  pose proof (join_plain_start comps Hp) as Hstart.
  destruct (join_plain_last comps HB Hp) as (Hrel & _ & _).
  destruct (decide (root = EmptyString)) as [->|Hroot].
  { rewrite path_join_rel by done. cbn [PyStr.is_empty orb].
    change (EmptyString +:+ PyStr.join Helpers.sep_str comps)
      with (PyStr.join Helpers.sep_str comps).
    change (Helpers.normpath EmptyString) with ".". cbn [bool_decide decide_rel].
    pose proof (normpath_of_normal 0 comps ltac:(lia)) as H. cbn zeta in H.
    change (PyStr.join EmptyString (replicate 0 Helpers.sep_str)
            +:+ PyStr.join Helpers.sep_str comps)
      with (PyStr.join Helpers.sep_str comps) in H.
    assert (PyStr.is_empty (PyStr.join Helpers.sep_str comps) = false) as He
      by (by apply is_empty_false).
    rewrite He in H. rewrite H; [done|].
    split; [done|]. intros l1 l2 ->. exfalso. apply Hno, elem_of_app. right. left. }
  destruct (normpath_join_comps root comps Hroot HB Hp Hno) as [Hn ->].
  rewrite (normpath_unfold root) by (by apply is_empty_false).
  cbn zeta.
  set (k := initial_slashes_of root).
  set (comps_root := foldl (Helpers.normpath_step k) [] (PyStr.split_on Helpers.sep root)).
  fold k comps_root in Hn.
  pose proof (initial_slashes_le root) as Hk. fold k in Hk.
  destruct comps_root as [|c0 cs] eqn:Hcr.
  - cbn [app]. destruct k as [|[|[|k']]]; [| | |lia].
    + reflexivity.
    + change (PyStr.join EmptyString (replicate 1 Helpers.sep_str)
              +:+ PyStr.join Helpers.sep_str [])
        with "/".
      cbn [PyStr.is_empty]. rewrite bool_decide_eq_false_2 by done.
      by rewrite path_join_rel.
    + change (PyStr.join EmptyString (replicate 2 Helpers.sep_str)
              +:+ PyStr.join Helpers.sep_str [])
        with "//".
      cbn [PyStr.is_empty]. rewrite bool_decide_eq_false_2 by done.
      by rewrite path_join_rel.
  - assert (Forall plain_component (c0 :: cs)) as Hpr.
    { destruct Hn as [Hn _]. by apply Forall_app in Hn as [? _]. }
    destruct (join_plain_last (c0 :: cs) ltac:(done) Hpr) as (H1 & H2 & H3).
    rewrite join_app by done.
    set (slashes := PyStr.join EmptyString (replicate k Helpers.sep_str)).
    set (jr := PyStr.join Helpers.sep_str (c0 :: cs)) in *.
    assert (PyStr.is_empty (slashes +:+ jr) = false) as He.
    { apply is_empty_false. by destruct slashes, jr. }
    rewrite He.
    assert (slashes +:+ jr <> ".") as Hdot.
    { subst slashes. destruct k as [|[|[|k']]]; [done|done|done|lia]. }
    rewrite bool_decide_eq_false_2 by done.
    rewrite path_join_rel, He by done.
    cbn [orb]. rewrite bool_decide_eq_false_2.
    + by rewrite !append_assoc.
    + rewrite last_append by done. exact H3.
Qed.

Lemma safe_join_stays_under_root_witness :
  Helpers.safe_join_path "/repo/./" "src/a.py" = "/repo/src/a.py".
Proof.
  apply (safe_join_stays_under_root "/repo/./" ["src"; "a.py"]).
  - done.
  - repeat constructor; done.
  - intros H. repeat (apply elem_of_cons in H as [H|H]; [done|]).
    by apply elem_of_nil in H.
Defined.


(* ===================================================================== *)
(** * The depth of a path                                                 *)
(* ===================================================================== *)

Section DepthFacts.
Import PyStr Helpers Paths.

Lemma parts_rendered (k : nat) (X : list string) :
  k <= 2 -> Forall plain_component X ->
  parts (join EmptyString (replicate k sep_str) +:+ join sep_str X) = X.
Proof.
  intros Hk Hp.
  assert (filter (fun x : string => x ≠ EmptyString) X = X) as Hf.
  { induction Hp as [|x X (Hx & _ & _) _ IH]; [done|].
    rewrite filter_cons_True by done. by rewrite IH. }
  assert (parts (join sep_str X) = X) as H0.
  { unfold parts. destruct X as [|x X]; [done|].
    unfold sep_str. rewrite split_on_join; [done|done|].
    eapply Forall_impl; [exact Hp|]. by intros ? (_ & _ & ?). }
  destruct k as [|[|[|k]]]; [| | |lia].
  - exact H0.
  - change (join EmptyString (replicate 1 sep_str) +:+ join sep_str X)
      with (String sep (join sep_str X)).
    unfold parts in *. cbn [split_on]. rewrite Ascii.eqb_refl.
    by rewrite filter_cons_False by (intros H; by apply H).
  - change (join EmptyString (replicate 2 sep_str) +:+ join sep_str X)
      with (String sep (String sep (join sep_str X))).
    unfold parts in *. cbn [split_on]. rewrite Ascii.eqb_refl.
    by rewrite !filter_cons_False by (intros H; by apply H).
Qed.

Lemma count_char_append (c : ascii) (a b : string) :
  count_char c (a +:+ b) = count_char c a + count_char c b.
Proof.
  induction a as [|x a IH]; [done|].
  change (String x a +:+ b) with (String x (a +:+ b)).
  cbn [count_char]. rewrite IH. lia.
Qed.

Lemma count_char_plain (c : ascii) (x : string) :
  has_char c x = false -> count_char c x = 0.
Proof.
  induction x as [|a x IH]; [done|]. cbn [has_char count_char].
  intros [-> H]%orb_false_iff. by rewrite IH.
Qed.

Lemma count_sep_join (X : list string) :
  X <> [] -> Forall plain_component X ->
  count_char sep (join sep_str X) + 1 = length X.
Proof.
  intros Hne Hp. induction X as [|x X IH]; [done|].
  inversion Hp as [|? ? (_ & _ & Hx) Hrest]; subst.
  destruct X as [|y X].
  - cbn. by rewrite count_char_plain.
  - change (join sep_str (x :: y :: X)) with (x +:+ String sep (join sep_str (y :: X))).
    rewrite count_char_append, count_char_plain by done.
    cbn [count_char]. rewrite Ascii.eqb_refl.
    specialize (IH ltac:(done) Hrest). cbn [length] in *. lia.
Qed.

Lemma foldl_path_join (first : string) (rest : list string) :
  Forall plain_component (first :: rest) ->
  foldl path_join first rest = join sep_str (first :: rest).
Proof.
  intros Hp.
  assert (forall acc : list string,
            acc <> [] -> Forall plain_component acc -> Forall plain_component rest ->
            foldl path_join (join sep_str acc) rest = join sep_str (acc ++ rest)) as H.
  { clear. induction rest as [|y rest IH]; intros acc Hne Ha Hr.
    - by rewrite app_nil_r.
    - inversion Hr as [|? ? Hy Hrest]; subst. cbn [foldl].
      destruct (join_plain_last acc Hne Ha) as (H1 & _ & H3).
      pose proof (path_join_rel (join sep_str acc) [y]) as Hj.
      change (join sep_str [y]) with y in Hj. rewrite Hj by (by constructor).
      rewrite (proj2 (is_empty_false _) H1). cbn [orb].
      rewrite bool_decide_eq_false_2 by done.
      replace (join sep_str acc +:+ sep_str +:+ y) with (join sep_str (acc ++ [y])).
      + rewrite IH; [by rewrite <- app_assoc|by destruct acc| |done].
        apply Forall_app. split; [done|by constructor].
      + by rewrite join_app. }
  inversion Hp; subst. by apply (H [first]); [|constructor|].
Qed.

Lemma normpath_plain (P : list string) :
  P <> [] -> Forall plain_component P -> ".." ∉ P ->
  normpath (join sep_str P) = join sep_str P.
Proof.
  intros HP Hp Hno.
  pose proof (normpath_of_normal 0 P ltac:(lia)) as H. cbn zeta in H.
  change (join EmptyString (replicate 0 sep_str) +:+ join sep_str P)
    with (join sep_str P) in H.
  destruct (join_plain_last P HP Hp) as (Hne & _ & _).
  rewrite (proj2 (is_empty_false _) Hne) in H. apply H.
  split; [done|]. intros l1 l2 ->. exfalso. apply Hno, elem_of_app. right. left.
Qed.

Lemma commonprefix_length_app (C P : list string) :
  commonprefix_length C (C ++ P) = length C.
Proof.
  induction C as [|c C IH]; [done|]. cbn.
  by rewrite bool_decide_eq_true_2, IH.
Qed.

End DepthFacts.

(** X22. The depth [compute_path_depth] gives for a clean relative path
    (plain components, none of them [..]).  [os.path.relpath] makes both
    the path and the root absolute from the working directory, so the depth
    is the number of steps from the root up to the part it shares with the
    working directory followed by the path, and then down to the path.  When
    the root is the working directory this is the number of components of
    the path; when the program runs elsewhere it is not. *)
Theorem compute_path_depth_from_cwd (cwd root : string) (comps : list string) :
  Paths.isabs cwd = true ->
  comps <> [] -> Forall plain_component comps -> ".." ∉ comps ->
  let start_list := Paths.parts (Paths.abspath cwd (Helpers.normalize_path root)) in
  let path_list := Paths.parts (Helpers.normpath cwd) ++ comps in
  let i := Paths.commonprefix_length start_list path_list in
  Paths.compute_path_depth cwd (PyStr.join Helpers.sep_str comps) root
  = Ok ((length start_list - i) + (length path_list - i))
  /\ (start_list = Paths.parts (Helpers.normpath cwd) ->
      Paths.compute_path_depth cwd (PyStr.join Helpers.sep_str comps) root
      = Ok (length comps)
      /\ forall (isdir : string -> bool) (max_depth : nat),
           Paths.is_folder_at_max_depth cwd isdir (PyStr.join Helpers.sep_str comps)
             root max_depth
           = Ok (isdir (Helpers.safe_join_path root (PyStr.join Helpers.sep_str comps))
                 && bool_decide (length comps = max_depth))).
Proof.
  intros Hcwd HP Hp Hno. cbn zeta.
  assert (cwd <> EmptyString) as Hne by (by destruct cwd).
  destruct (normpath_join_comps cwd comps Hne HP Hp Hno) as [Hn Hjoin].
  set (k := initial_slashes_of cwd) in *.
  set (comps_cwd := foldl (Helpers.normpath_step k) [] (PyStr.split_on Helpers.sep cwd)) in *.
  pose proof (initial_slashes_le cwd) as Hk. fold k in Hk.
  assert (1 <= k) as Hk1.
  { subst k. unfold initial_slashes_of. unfold Paths.isabs in Hcwd.
    change (PyStr.startswith cwd "/") with (PyStr.startswith cwd Helpers.sep_str).
    rewrite Hcwd. destruct (_ && _); lia. }
  assert (Forall plain_component comps_cwd) as Hpc.
  { destruct Hn as [Hn _]. by apply Forall_app in Hn as [? _]. }
  assert (Paths.parts (Helpers.normpath cwd) = comps_cwd) as HC.
  { rewrite normpath_unfold by (by apply is_empty_false). cbn zeta. fold k comps_cwd.
    destruct (PyStr.is_empty _) eqn:He.
    - exfalso. apply is_empty_true in He.
      destruct k as [|[|[|k']]]; [lia|done|done|lia].
    - by apply parts_rendered. }
  assert (Paths.parts (Paths.abspath cwd (PyStr.join Helpers.sep_str comps))
          = comps_cwd ++ comps) as Hpath.
  { unfold Paths.abspath, Paths.isabs.
    change (PyStr.startswith (PyStr.join Helpers.sep_str comps) Helpers.sep_str)
      with (PyStr.startswith (PyStr.join Helpers.sep_str comps) "/").
    rewrite join_plain_start by done. rewrite Hjoin.
    apply parts_rendered; [done|by destruct Hn]. }
  rewrite HC.
  set (start_list := Paths.parts (Paths.abspath cwd (Helpers.normalize_path root))).
  set (i := Paths.commonprefix_length start_list (comps_cwd ++ comps)).
  assert (Paths.compute_path_depth cwd (PyStr.join Helpers.sep_str comps) root
          = Ok ((length start_list - i) + (length (comps_cwd ++ comps) - i))) as Hdepth.
  2:{ split; [exact Hdepth|]. intros HS.
      assert (Paths.compute_path_depth cwd (PyStr.join Helpers.sep_str comps) root
              = Ok (length comps)) as Hd.
      { rewrite Hdepth. f_equal.
        subst i. rewrite HS, commonprefix_length_app, length_app. lia. }
      split; [exact Hd|]. intros isdir max_depth.
      unfold Paths.is_folder_at_max_depth, Paths.isabs.
      change (PyStr.startswith (PyStr.join Helpers.sep_str comps) Helpers.sep_str)
        with (PyStr.startswith (PyStr.join Helpers.sep_str comps) "/").
      rewrite join_plain_start by done.
      destruct (isdir _); [|done]. by rewrite Hd. }
  unfold Paths.compute_path_depth, Helpers.normalize_path.
  rewrite (normpath_plain comps) by done.
  unfold Paths.relpath.
  destruct (join_plain_last comps HP Hp) as (Hrel & _ & _).
  rewrite (proj2 (is_empty_false _) Hrel). cbn zeta.
  rewrite Hpath. fold (Helpers.normalize_path root). fold start_list. fold i.
  set (rel_list := replicate (length start_list - i) ".." ++ drop i (comps_cwd ++ comps)).
  assert (length rel_list
          = (length start_list - i) + (length (comps_cwd ++ comps) - i)) as Hlen.
  { subst rel_list. by rewrite length_app, length_replicate, length_drop. }
  assert (Forall plain_component rel_list) as Hprel.
  { subst rel_list. apply Forall_app. split.
    - apply Forall_replicate, plain_parent.
    - apply Forall_drop. by destruct Hn. }
  rewrite <- Hlen. clearbody rel_list.
  destruct rel_list as [|first rest]; cbn [bind].
  - by rewrite bool_decide_eq_true_2.
  - rewrite foldl_path_join by done.
    destruct (join_plain_last (first :: rest) ltac:(done) Hprel) as (_ & Hdot & _).
    rewrite bool_decide_eq_false_2 by done.
    by rewrite count_sep_join.
Qed.

Lemma compute_path_depth_witness :
  Paths.compute_path_depth "/repo" "src/utils" "." = Ok 2
  /\ Paths.compute_path_depth "/home/u" "src/utils" "/repo" = Ok 5.
Proof.
  assert (".." ∉ ["src"; "utils"]) as Hno.
  { intros H. repeat (apply elem_of_cons in H as [H|H]; [done|]).
    by apply elem_of_nil in H. }
  assert (Forall plain_component ["src"; "utils"]) as Hp
    by (repeat constructor; done).
  split.
  - apply (compute_path_depth_from_cwd "/repo" "." ["src"; "utils"]
             eq_refl ltac:(done) Hp Hno).
    reflexivity.
  - apply (compute_path_depth_from_cwd "/home/u" "/repo" ["src"; "utils"]
             eq_refl ltac:(done) Hp Hno).
Defined.


(* ===================================================================== *)
(** * The evidence for an entry and its refinement                        *)
(* ===================================================================== *)

Section RefineFacts.
Import Evidence Refine.
Variable fs : Helpers.FileSystem.
Variable files : Files.
Variable chat : Chat.
Variable root_path : string.

Lemma substring_length_le (n : nat) (s : string) :
  String.length (String.substring 0 n s) <= n.
Proof.
  revert s. induction n as [|n IH]; intros s.
  - by destruct s.
  - destruct s as [|c s]; cbn; [lia|]. specialize (IH s). lia.
Qed.

Lemma read_and_truncate_spec (max_chars : nat) (content : string) :
  exists text truncated,
    _read_and_truncate max_chars content = Raw text truncated (String.length content)
    /\ text = String.substring 0 max_chars content
    /\ String.length text <= max_chars
    /\ truncated = bool_decide (max_chars < String.length content)
    /\ (truncated = false -> text = content).
Proof.
  unfold _read_and_truncate.
  destruct (Nat.ltb_spec max_chars (String.length content)) as [Hlt|Hge].
  - eexists _, _. split; [done|]. split; [done|].
    split; [apply substring_length_le|]. split; [|done].
    by rewrite bool_decide_eq_true_2.
  - assert (String.substring 0 max_chars content = content) as Hsub.
    { clear -Hge. revert max_chars Hge.
      induction content as [|c s IH]; intros [|n] Hge; cbn in *; try done; try lia.
      rewrite IH; [done|lia]. }
    exists content, false. split; [done|]. split; [done|].
    split; [lia|]. split; [|done]. by rewrite bool_decide_eq_false_2 by lia.
Qed.

(** The entry as [refine_entry_async] leaves it. *)
Lemma entry_after_path (entry : UnsureEntry.t) (tracker : option Tracker.t) :
  entry_after (refine_entry_async fs files chat root_path entry tracker)
  = UnsureEntry.set_path
      (Helpers.resolve_repo_path fs root_path (UnsureEntry.path entry)) entry.
Proof.
  unfold refine_entry_async.
  assert ((if negb (bool_decide (Helpers.resolve_repo_path fs root_path
                                   (UnsureEntry.path entry) = UnsureEntry.path entry))
           then UnsureEntry.set_path
                  (Helpers.resolve_repo_path fs root_path (UnsureEntry.path entry)) entry
           else entry)
          = UnsureEntry.set_path
              (Helpers.resolve_repo_path fs root_path (UnsureEntry.path entry)) entry)
    as ->.
  { case_bool_decide as Hp; [|done]. cbn [negb]. rewrite Hp. by destruct entry. }
  cbn zeta.
  destruct (resolve_needed_info files _ root_path); try done;
    unfold ask; destruct (get_async_chat chat); try done;
    by destruct (send_message_async chat _).
Qed.

Lemma prompts_sent_printed (entry : UnsureEntry.t) (d : option RefinementDecision.t)
  (printed rest : list Event) (tracker : option Tracker.t) :
  (printed = [] \/ exists msg, printed = [EvPrint msg]) ->
  prompts_sent (mkOutcome entry d (printed ++ rest) tracker)
  = prompts_sent (mkOutcome entry d rest tracker).
Proof. by intros [->|[msg ->]]. Qed.

(** The ways of [refine_entry_async], by the evidence and the chat. *)
Lemma refine_cases (entry : UnsureEntry.t) (tracker : option Tracker.t) :
  let entry' :=
    UnsureEntry.set_path
      (Helpers.resolve_repo_path fs root_path (UnsureEntry.path entry)) entry in
  let o := refine_entry_async fs files chat root_path entry tracker in
  let extra := resolve_needed_info files entry' root_path in
  match extra with
  | Directory _ =>
      returned o = Some (directory_decision (UnsureEntry.path entry'))
      /\ prompts_sent o = [] /\ tracker_after o = tracker
  | Error error =>
      returned o = Some (access_error_decision (UnsureEntry.path entry') error)
      /\ prompts_sent o = [] /\ tracker_after o = tracker
  | Overview _ | Raw _ _ _ =>
      match get_async_chat chat with
      | Some e =>
          returned o = Some (refinement_error_decision (UnsureEntry.path entry') e)
          /\ prompts_sent o = [] /\ tracker_after o = tracker
      | None =>
          prompts_sent o = [prompt_of entry' extra]
          /\ match send_message_async chat (prompt_of entry' extra) with
             | inr e =>
                 returned o
                 = Some (refinement_error_decision (UnsureEntry.path entry') e)
                 /\ tracker_after o = tracker
             | inl response =>
                 returned o = parsed response
                 /\ tracker_after o
                    = (Tracker.add_tokens "refinement" (usage response) <$> tracker)
             end
      end
  end.
Proof.
  cbn zeta. unfold refine_entry_async.
  assert ((if negb (bool_decide (Helpers.resolve_repo_path fs root_path
                                   (UnsureEntry.path entry) = UnsureEntry.path entry))
           then UnsureEntry.set_path
                  (Helpers.resolve_repo_path fs root_path (UnsureEntry.path entry)) entry
           else entry)
          = UnsureEntry.set_path
              (Helpers.resolve_repo_path fs root_path (UnsureEntry.path entry)) entry)
    as ->.
  { case_bool_decide as Hp; [|done]. cbn [negb]. rewrite Hp. by destruct entry. }
  cbn zeta.
  set (entry' := UnsureEntry.set_path _ entry).
  set (printed := if negb _ then _ else _).
  assert (printed = [] \/ exists msg, printed = [EvPrint msg]) as Hprinted.
  { subst printed. destruct (negb _); [right; by eexists|by left]. }
  clearbody printed.
  destruct (resolve_needed_info files entry' root_path) as [m|es|t tr sz|err];
    cbn [prompt_of].
  - by rewrite prompts_sent_printed.
  - unfold ask. destruct (get_async_chat chat) as [e|].
    + by rewrite prompts_sent_printed.
    + destruct (send_message_async chat _);
        rewrite prompts_sent_printed by done; done.
  - unfold ask. destruct (get_async_chat chat) as [e|].
    + by rewrite prompts_sent_printed.
    + destruct (send_message_async chat _);
        rewrite prompts_sent_printed by done; done.
  - by rewrite prompts_sent_printed.
Qed.

End RefineFacts.

(** X23. An entry whose resolved path is a directory is sent to folder
    analysis: [refine_entry_async] returns the "Directory detected" verdict
    for the resolved path without asking the model and without recording
    tokens, and [process_refinement_batch] puts the path in
    [folders_to_analyze] and neither confirms nor requeues it, although the
    verdict says [related]. *)
Theorem directory_entry_goes_to_folder_analysis
  (fs : Helpers.FileSystem) (files : Evidence.Files) (chat : Refine.Chat)
  (root_path : string) (entry : UnsureEntry.t) (tracker : option Tracker.t) :
  let resolved := Helpers.resolve_repo_path fs root_path (UnsureEntry.path entry) in
  let o := Refine.refine_entry_async fs files chat root_path entry tracker in
  Evidence.isdir files (Helpers.safe_join_path root_path resolved) = true ->
  Refine.returned o = Some (Refine.directory_decision resolved)
  /\ Refine.prompts_sent o = []
  /\ Refine.tracker_after o = tracker
  /\ forall acc : Analysis.Batch,
       let batch :=
         Analysis.process_result acc
           (Analysis.FileOutcome (Refine.entry_after o)
              (Some (Refine.directory_decision resolved))) in
       Analysis.folders_to_analyze batch = Analysis.folders_to_analyze acc ++ [resolved]
       /\ Analysis.final_sure batch = Analysis.final_sure acc
       /\ Analysis.remaining_unsure batch = Analysis.remaining_unsure acc.
Proof.
  cbn zeta. intros Hdir.
  pose proof (refine_cases fs files chat root_path entry tracker) as H.
  cbn zeta in H. unfold Evidence.resolve_needed_info in H.
  cbn [UnsureEntry.path UnsureEntry.set_path] in H. rewrite Hdir in H.
  destruct H as (H1 & H2 & H3).
  split; [exact H1|]. split; [exact H2|]. split; [exact H3|].
  intros acc. rewrite entry_after_path.
  cbn [Analysis.process_result Refine.directory_decision RefinementDecision.reasoning].
  assert (PyStr.contains "Directory detected - should be analyzed as subfolder"
            "Directory detected" = true) as -> by reflexivity.
  done.
Qed.

Lemma directory_entry_witness :
  Refine.returned
    (Refine.refine_entry_async RefineExample.fs RefineExample.files RefineExample.chat
       "/repo" RefineExample.folder_entry None)
  = Some (Refine.directory_decision "src")
  /\ Refine.prompts_sent
       (Refine.refine_entry_async RefineExample.fs RefineExample.files RefineExample.chat
          "/repo" RefineExample.folder_entry None) = [].
Proof.
  destruct (directory_entry_goes_to_folder_analysis RefineExample.fs RefineExample.files
              RefineExample.chat "/repo" RefineExample.folder_entry None eq_refl)
    as (H1 & H2 & _).
  split; [exact H1|exact H2].
Defined.

(** X24. An entry that is no directory and whose evidence cannot be had (a
    parser error, a file that cannot be read, an unknown evidence level), or
    for which the chat cannot be had or the model call fails, gets a verdict
    that is not [related] and of low confidence; no tokens are recorded; and
    [process_refinement_batch] neither confirms the entry nor keeps it for a
    later round. *)
Theorem failed_refinement_is_never_confirmed
  (fs : Helpers.FileSystem) (files : Evidence.Files) (chat : Refine.Chat)
  (root_path : string) (entry : UnsureEntry.t) (tracker : option Tracker.t) :
  let entry' :=
    UnsureEntry.set_path
      (Helpers.resolve_repo_path fs root_path (UnsureEntry.path entry)) entry in
  let extra := Evidence.resolve_needed_info files entry' root_path in
  let o := Refine.refine_entry_async fs files chat root_path entry tracker in
  Evidence.isdir files (Helpers.safe_join_path root_path (UnsureEntry.path entry')) = false ->
  (exists error, extra = Evidence.Error error)
  \/ (exists e, Refine.get_async_chat chat = Some e)
  \/ (exists e, Refine.send_message_async chat (prompt_of entry' extra) = inr e) ->
  exists d,
    Refine.returned o = Some d
    /\ RefinementDecision.related d = false
    /\ RefinementDecision.confidence d = "low"
    /\ Refine.tracker_after o = tracker
    /\ forall acc : Analysis.Batch,
         let batch :=
           Analysis.process_result acc
             (Analysis.FileOutcome (Refine.entry_after o) (Some d)) in
         Analysis.final_sure batch = Analysis.final_sure acc
         /\ Analysis.remaining_unsure batch = Analysis.remaining_unsure acc.
Proof.
  cbn zeta. intros Hdir Hfail.
  pose proof (refine_cases fs files chat root_path entry tracker) as H.
  cbn zeta in H.
  assert (forall d : RefinementDecision.t,
            RefinementDecision.related d = false ->
            forall (e : UnsureEntry.t) (acc : Analysis.Batch),
              Analysis.final_sure
                (Analysis.process_result acc (Analysis.FileOutcome e (Some d)))
              = Analysis.final_sure acc
              /\ Analysis.remaining_unsure
                   (Analysis.process_result acc (Analysis.FileOutcome e (Some d)))
                 = Analysis.remaining_unsure acc) as Hdrop.
  { intros d Hd e acc. cbn [Analysis.process_result]. rewrite Hd.
    by destruct (PyStr.contains _ _). }
  destruct (Evidence.resolve_needed_info files _ root_path) as [m|es|t tr sz|err] eqn:Hex.
  - exfalso. unfold Evidence.resolve_needed_info in Hex. rewrite Hdir in Hex.
    destruct (_ || _) in Hex.
    + unfold Evidence.safe_file_overview, Evidence.read_or_error in Hex.
      by destruct (Evidence.extract_file_overview _ _) as [hs|?|?];
        [destruct (negb _)| |];
        try (destruct (Evidence.read files _); [| destruct (Evidence.read_ignore files _)|]).
    + destruct (bool_decide _) in Hex; [|done].
      unfold Evidence._read_raw_content_with_truncation, Evidence.read_or_error in Hex.
      by destruct (Evidence.read files _); [| destruct (Evidence.read_ignore files _)|].
  - destruct Hfail as [[err [=]]|[[e He]|[e He]]].
    + rewrite He in H. destruct H as (H1 & _ & H3).
      eexists. split; [exact H1|]. split; [done|]. split; [done|]. split; [done|].
      intros acc. by apply Hdrop.
    + destruct (Refine.get_async_chat chat) as [e'|].
      * destruct H as (H1 & _ & H3).
        eexists. split; [exact H1|]. split; [done|]. split; [done|]. split; [done|].
        intros acc. by apply Hdrop.
      * destruct H as (_ & H). rewrite He in H. destruct H as (H1 & H3).
        eexists. split; [exact H1|]. split; [done|]. split; [done|]. split; [done|].
        intros acc. by apply Hdrop.
  - destruct Hfail as [[err [=]]|[[e He]|[e He]]].
    + rewrite He in H. destruct H as (H1 & _ & H3).
      eexists. split; [exact H1|]. split; [done|]. split; [done|]. split; [done|].
      intros acc. by apply Hdrop.
    + destruct (Refine.get_async_chat chat) as [e'|].
      * destruct H as (H1 & _ & H3).
        eexists. split; [exact H1|]. split; [done|]. split; [done|]. split; [done|].
        intros acc. by apply Hdrop.
      * destruct H as (_ & H). rewrite He in H. destruct H as (H1 & H3).
        eexists. split; [exact H1|]. split; [done|]. split; [done|]. split; [done|].
        intros acc. by apply Hdrop.
  - destruct H as (H1 & _ & H3).
    eexists. split; [exact H1|]. split; [done|]. split; [done|]. split; [done|].
    intros acc. by apply Hdrop.
Qed.

Lemma failed_refinement_witness :
  exists d,
    Refine.returned
      (Refine.refine_entry_async RefineExample.fs RefineExample.files RefineExample.chat
         "/repo" RefineExample.locked_entry None) = Some d
    /\ RefinementDecision.related d = false
    /\ RefinementDecision.reasoning d
       = "Error accessing file: Error reading file: [Errno 13] Permission denied - assuming not impacted".
Proof.
  destruct (failed_refinement_is_never_confirmed RefineExample.fs RefineExample.files
              RefineExample.chat "/repo" RefineExample.locked_entry None eq_refl)
    as (d & H1 & H2 & _).
  - left. by eexists.
  - exists d. split; [exact H1|]. split; [exact H2|].
    assert (Some d = Some (Refine.access_error_decision "locked.py"
                             "Error reading file: [Errno 13] Permission denied")) as Hd.
    { rewrite <- H1. reflexivity. }
    by injection Hd as ->.
Defined.

(** X25. [refine_entry_async] returns [None] instead of a verdict exactly
    when the model answered the prompt and the provider could not parse the
    answer ([parsed] is [None]): the directory, evidence-error and
    exception paths all return a verdict. *)
Theorem unparsed_answer_is_returned_as_none
  (fs : Helpers.FileSystem) (files : Evidence.Files) (chat : Refine.Chat)
  (root_path : string) (entry : UnsureEntry.t) (tracker : option Tracker.t) :
  let entry' :=
    UnsureEntry.set_path
      (Helpers.resolve_repo_path fs root_path (UnsureEntry.path entry)) entry in
  let extra := Evidence.resolve_needed_info files entry' root_path in
  Refine.returned (Refine.refine_entry_async fs files chat root_path entry tracker) = None
  <-> (forall message, extra <> Evidence.Directory message)
      /\ (forall error, extra <> Evidence.Error error)
      /\ Refine.get_async_chat chat = None
      /\ exists response,
           Refine.send_message_async chat (prompt_of entry' extra) = inl response
           /\ Refine.parsed response = None.
Proof.
  cbn zeta.
  pose proof (refine_cases fs files chat root_path entry tracker) as H.
  cbn zeta in H.
  destruct (Evidence.resolve_needed_info files _ root_path) as [m|es|t tr sz|err].
  - destruct H as (-> & _). split; [done|]. intros (Hm & _). by destruct (Hm m).
  - destruct (Refine.get_async_chat chat) as [e|].
    + destruct H as (-> & _). split; [done|]. by intros (_ & _ & ? & _).
    + destruct H as (_ & H).
      destruct (Refine.send_message_async chat _) as [response|e].
      * destruct H as (-> & _). split.
        -- intros Hp. repeat split; try done. by exists response.
        -- by intros (_ & _ & _ & r & [= <-] & ?).
      * destruct H as (-> & _). split; [done|].
        by intros (_ & _ & _ & r & ? & _).
  - destruct (Refine.get_async_chat chat) as [e|].
    + destruct H as (-> & _). split; [done|]. by intros (_ & _ & ? & _).
    + destruct H as (_ & H).
      destruct (Refine.send_message_async chat _) as [response|e].
      * destruct H as (-> & _). split.
        -- intros Hp. repeat split; try done. by exists response.
        -- by intros (_ & _ & _ & r & [= <-] & ?).
      * destruct H as (-> & _). split; [done|].
        by intros (_ & _ & _ & r & ? & _).
  - destruct H as (-> & _). split; [done|]. intros (_ & He & _). by destruct (He err).
Qed.

(** X26. The text of a file that [resolve_needed_info] passes on as raw
    evidence is the beginning of the text read (strictly, or ignoring
    decoding errors after a [UnicodeDecodeError]), of at most 10000
    characters at the raw-content level and 6000 below it; it is flagged as
    truncated exactly when the file is longer, the size reported is that of
    the whole text, and a text that is not flagged is the whole text. *)
Theorem raw_evidence_is_capped
  (files : Evidence.Files) (entry : UnsureEntry.t) (root_path : string)
  (text : string) (truncated : bool) (original_size : nat) :
  Evidence.resolve_needed_info files entry root_path
  = Evidence.Raw text truncated original_size ->
  let full_path := Helpers.safe_join_path root_path (UnsureEntry.path entry) in
  exists content,
    (Evidence.read files full_path = Evidence.ReadText content
     \/ (exists msg, Evidence.read files full_path = Evidence.DecodeError msg)
        /\ Evidence.read_ignore files full_path = inl content)
    /\ text = String.substring 0 (evidence_cap entry) content
    /\ String.length text <= evidence_cap entry
    /\ original_size = String.length content
    /\ truncated = bool_decide (evidence_cap entry < String.length content)
    /\ (truncated = false -> text = content).
Proof.
  intros Hraw. cbn zeta.
  assert (forall said max_chars,
            Evidence.read_or_error said files
              (Helpers.safe_join_path root_path (UnsureEntry.path entry)) max_chars
            = Evidence.Raw text truncated original_size ->
            exists content,
              (Evidence.read files (Helpers.safe_join_path root_path (UnsureEntry.path entry))
               = Evidence.ReadText content
               \/ (exists msg,
                     Evidence.read files
                       (Helpers.safe_join_path root_path (UnsureEntry.path entry))
                     = Evidence.DecodeError msg)
                  /\ Evidence.read_ignore files
                       (Helpers.safe_join_path root_path (UnsureEntry.path entry))
                     = inl content)
              /\ text = String.substring 0 max_chars content
              /\ String.length text <= max_chars
              /\ original_size = String.length content
              /\ truncated = bool_decide (max_chars < String.length content)
              /\ (truncated = false -> text = content)) as Hread.
  { intros said max_chars. unfold Evidence.read_or_error.
    destruct (Evidence.read files _) as [content|msg|msg] eqn:Hr; [| |done].
    - destruct (read_and_truncate_spec max_chars content)
        as (t & tr & -> & Ht & Hlen & Htr & Hfull).
      intros [= <- <- <-]. exists content. split; [by left|]. done.
    - destruct (Evidence.read_ignore files _) as [content|e] eqn:Hi; [|done].
      destruct (read_and_truncate_spec max_chars content)
        as (t & tr & -> & Ht & Hlen & Htr & Hfull).
      intros [= <- <- <-]. exists content. split; [right; split; [by eexists|done]|].
      done. }
  unfold Evidence.resolve_needed_info in Hraw. unfold evidence_cap.
  destruct (Evidence.isdir files _); [done|].
  destruct (bool_decide (UnsureEntry.needed_info entry = "file_overview")) eqn:Ho.
  { apply bool_decide_eq_true in Ho. rewrite Ho in *. cbn [orb] in Hraw.
    rewrite bool_decide_eq_false_2 by done.
    unfold Evidence.safe_file_overview in Hraw.
    destruct (Evidence.extract_file_overview files _) as [hs|?|?]; [| |done].
    - destruct (negb _); [done|]. by apply Hread in Hraw.
    - by apply Hread in Hraw. }
  destruct (bool_decide (UnsureEntry.needed_info entry = "file_metadata")) eqn:Hm.
  { apply bool_decide_eq_true in Hm. rewrite Hm in *. cbn [orb] in Hraw.
    rewrite bool_decide_eq_false_2 by done.
    unfold Evidence.safe_file_overview in Hraw.
    destruct (Evidence.extract_file_overview files _) as [hs|?|?]; [| |done].
    - destruct (negb _); [done|]. by apply Hread in Hraw.
    - by apply Hread in Hraw. }
  cbn [orb] in Hraw.
  destruct (bool_decide (UnsureEntry.needed_info entry = "raw_content")); [|done].
  by apply Hread in Hraw.
Qed.

Lemma raw_evidence_witness :
  exists content,
    (Evidence.read RefineExample.files "/repo/a.py" = Evidence.ReadText content
     \/ (exists msg, Evidence.read RefineExample.files "/repo/a.py" = Evidence.DecodeError msg)
        /\ Evidence.read_ignore RefineExample.files "/repo/a.py" = inl content)
    /\ "import b" = String.substring 0 (evidence_cap RefineExample.plain_entry) content
    /\ String.length "import b" <= evidence_cap RefineExample.plain_entry
    /\ 8 = String.length content
    /\ false = bool_decide (evidence_cap RefineExample.plain_entry < String.length content)
    /\ (false = false -> "import b" = content).
Proof.
  exact (raw_evidence_is_capped RefineExample.files RefineExample.plain_entry "/repo"
           "import b" false 8 eq_refl).
Defined.


(* ===================================================================== *)
(** * The fixes of an evaluation run                                      *)
(* ===================================================================== *)

Section EvaluationFacts.
Import Fixes Evaluation.
Variable CommitDiff : Type.
Variable fs : Helpers.FileSystem.
Variable root_path : string.
Variable create_chat : result unit.
Variable send_message : string -> result ChatResponse.
Variable os_error : string -> string.
Variable _build_fix_prompt :
  string -> string -> DetailedImpactReport.t -> option CommitDiff -> string -> string.
Variable diffs : CommitDiff.




End EvaluationFacts.

